(** * Temporal feature alignment of the CMU Multimodal Data SDK

    A shallow embedding of [lib/dataset.py] (class [Dataset]): the manifest
    validation of [controller], the per-format loaders [load_*], and the
    alignment engine [get_alignments] / [align_modality] / [align].

    Python dictionaries are finite maps ([gmap]) whose iteration order is an
    explicit parameter; Python exceptions are the [Raise] results of a small
    state-and-exception monad; numbers are kept abstract behind the class
    [Arith], with an exact instance on [Q] and a binary64 instance on the
    primitive floats. *)

From Stdlib Require Import ZArith QArith Qround Qminmax Lqa Lia List String Ascii.
From Stdlib Require Import Floats DecimalString.
From Stdlib Require DecimalZ DecimalPos.
From stdpp Require Import base option list strings gmap sorting.

Local Open Scope string_scope.
Local Open Scope list_scope.

(** ** Exceptions and the state-and-exception monad *)

Inductive exn : Type :=
| KeyError (key : string)
| IndexError
| TypeError
| ValueError
| ZeroDivisionError
| OverflowError
| AttributeError
| IOError
| NameError (msg : string).

Inductive result (A : Type) : Type :=
| Ok (a : A)
| Raise (e : exn).
Arguments Ok {A} a.
Arguments Raise {A} e.

Definition is_ok {A} (r : result A) : bool :=
  match r with Ok _ => true | Raise _ => false end.

Definition res_bind {A B} (r : result A) (k : A -> result B) : result B :=
  match r with Ok a => k a | Raise e => Raise e end.

Definition of_option {A} (e : exn) (o : option A) : result A :=
  match o with Some a => Ok a | None => Raise e end.

(** A computation over a state [S]: the state reached is returned on failure
    too, since what was printed before an exception stays printed. *)
Definition M (S A : Type) : Type := S -> S * result A.

Definition ret {S A} (a : A) : M S A := fun s => (s, Ok a).
Definition raise {S A} (e : exn) : M S A := fun s => (s, Raise e).
Definition bind {S A B} (m : M S A) (k : A -> M S B) : M S B :=
  fun s => match m s with
           | (s', Ok a) => k a s'
           | (s', Raise e) => (s', Raise e)
           end.
Definition lift {S A} (r : result A) : M S A := fun s => (s, r).
Definition get {S} : M S S := fun s => (s, Ok s).
Definition modify {S} (f : S -> S) : M S unit := fun s => (f s, Ok tt).

Declare Scope py_scope.
Delimit Scope py_scope with py.
Notation "x <- c1 ;; c2" := (bind c1 (fun x => c2))
  (at level 20, c1 at level 19, c2 at level 200, only parsing) : py_scope.
Notation "c1 ;;; c2" := (bind c1 (fun _ => c2))
  (at level 20, c2 at level 200, only parsing) : py_scope.
Notation "x <~ r ;; c2" := (res_bind r (fun x => c2))
  (at level 20, r at level 19, c2 at level 200, only parsing) : py_scope.
Local Open Scope py_scope.

(** ** Python built-ins on strings and lists *)

Module Py.

(** [str.isspace] on one byte of a Python 2 [str]. *)
Definition isspace (c : ascii) : bool :=
  match nat_of_ascii c with
  | 9%nat | 10%nat | 11%nat | 12%nat | 13%nat | 32%nat => true
  | _ => false
  end.

Fixpoint lstrip (s : string) : string :=
  match s with
  | String c r => if isspace c then lstrip r else s
  | EmptyString => EmptyString
  end.

Definition rev_string (s : string) : string :=
  string_of_list_ascii (rev (list_ascii_of_string s)).

(** [s.strip()] *)
Definition strip (s : string) : string :=
  rev_string (lstrip (rev_string (lstrip s))).

(** [s.split(sep)] for a one-character separator: never the empty list. *)
Fixpoint split (sep : ascii) (s : string) : list string :=
  match s with
  | EmptyString => [EmptyString]
  | String c r =>
      if Ascii.eqb c sep then EmptyString :: split sep r
      else match split sep r with
           | h :: t => String c h :: t
           | [] => [String c EmptyString]
           end
  end.

Definition comma : ascii := ","%char.
Definition underscore : ascii := "_"%char.

(** [l[i]] for a non-negative index. *)
Definition index {A} (l : list A) (i : nat) : result A :=
  of_option IndexError (l !! i).

(** [l[-1]] *)
Definition last_item {A} (l : list A) : result A :=
  of_option IndexError (last l).

(** [l[a:-1]]: from index [a] up to, and without, the last element. *)
Definition slice_to_last {A} (a : nat) (l : list A) : list A :=
  drop a (take (length l - 1) l).

(** [l[a:b]] for integers of either sign. *)
Definition slice_index (len i : Z) : nat :=
  Z.to_nat (Z.min len (if (i <? 0)%Z then Z.max 0 (i + len) else i)).
Definition slice {A} (a b : Z) (l : list A) : list A :=
  let n := Z.of_nat (length l) in
  drop (slice_index n a) (take (slice_index n b) l).

Definition is_digit (c : ascii) : bool :=
  let n := nat_of_ascii c in (48 <=? n)%nat && (n <=? 57)%nat.

Fixpoint digits_value (acc : Z) (s : string) : option Z :=
  match s with
  | EmptyString => Some acc
  | String c r =>
      if is_digit c
      then digits_value (10 * acc + Z.of_nat (nat_of_ascii c - 48)) r
      else None
  end.

Definition unsigned_value (s : string) : option Z :=
  match s with
  | EmptyString => None
  | _ => digits_value 0 s
  end.

(** [int(s)] in base ten: surrounding white space is dropped, one sign is
    allowed, and at least one decimal digit must follow; anything else is a
    [ValueError]. *)
Definition int (s : string) : result Z :=
  of_option ValueError
    match strip s with
    | String "-" r => Z.opp <$> unsigned_value r
    | String "+" r => unsigned_value r
    | r => unsigned_value r
    end.

(** [str(n)] of an integer. *)
Definition str (n : Z) : string := NilZero.string_of_int (Z.to_int n).

End Py.

(** ** Arithmetic

    The operations the program performs on time stamps and feature values.
    [div] is the quotient for a non-zero divisor; the caller raises
    [ZeroDivisionError] where Python does. [lit] reads a numeric literal of
    the source, [trunc] is [int(x)] of a number. *)

Class Arith (num : Type) : Type := {
  add : num -> num -> num;
  sub : num -> num -> num;
  mul : num -> num -> num;
  div : num -> num -> num;
  ltb : num -> num -> bool;
  leb : num -> num -> bool;
  eqb : num -> num -> bool;
  lit : Q -> num;
  trunc : num -> result Z
}.

Section Numbers.
Context {num : Type} {arith : Arith num}.

Definition zero : num := lit 0.
Definition gtb (a b : num) : bool := ltb b a.
Definition geb (a b : num) : bool := leb b a.

(** [min(a, b)] and [max(a, b)] of two arguments: the first one is kept
    unless the second is strictly smaller (larger). *)
Definition py_min (a b : num) : num := if ltb b a then b else a.
Definition py_max (a b : num) : num := if ltb a b then b else a.

(** [a / b] on Python floats. *)
Definition py_div (a b : num) : result num :=
  if eqb b zero then Raise ZeroDivisionError else Ok (div a b).

(** Numpy vectors of rank one. The elements of a vector are numbers of the
    one type [num]: a vector that numpy holds in single precision
    ([dtype=np.float32], the frame loaders and [load_opensmile]) is held
    here in the precision of [num], and its product with a weight is not
    rounded to single precision as numpy does. The time stamps, the weights
    and the vectors of the interval loaders and of [load_covarep] are
    double precision in the program. *)
Definition np_zeros (n : nat) : list num := replicate n zero.

Definition np_multiply (v : list num) (w : num) : list num :=
  map (fun x => mul x w) v.

(** [np.add] of two vectors, with numpy's broadcasting of a vector of
    length one; other shape mismatches are a [ValueError]. *)
Definition np_add (a b : list num) : result (list num) :=
  if (length a =? length b)%nat then Ok (zip_with add a b)
  else match a, b with
       | [x], _ => Ok (map (fun y => add x y) b)
       | _, [y] => Ok (map (fun x => add x y) a)
       | _, _ => Raise ValueError
       end.

End Numbers.

(** Exact rational arithmetic. *)
#[export] Instance Q_arith : Arith Q := {|
  add := Qplus; sub := Qminus; mul := Qmult; div := Qdiv;
  ltb := fun a b => negb (Qle_bool b a);
  leb := Qle_bool;
  eqb := Qeq_bool;
  lit := fun q => q;
  trunc := fun q => Ok (Z.quot (Qnum q) (Zpos (Qden q)))
|}.

(** IEEE 754 binary64, the arithmetic of Python's [float] and of numpy's
    [float64] vectors. *)
Module F64.

Definition of_Z (z : Z) : float :=
  match z with
  | Z0 => PrimFloat.of_uint63 (Uint63.of_Z 0)
  | Zpos p => PrimFloat.of_uint63 (Uint63.of_Z (Zpos p))
  | Zneg p => PrimFloat.opp (PrimFloat.of_uint63 (Uint63.of_Z (Zpos p)))
  end.

(** A literal [n/d] with [n] and [d] below 2^53 is the correctly rounded
    quotient of two exactly represented integers. *)
Definition lit (q : Q) : float :=
  PrimFloat.div (of_Z (Qnum q)) (of_Z (Zpos (Qden q))).

Definition trunc (x : float) : result Z :=
  match Prim2SF x with
  | S754_zero _ => Ok 0%Z
  | S754_infinity _ => Raise OverflowError
  | S754_nan => Raise ValueError
  | S754_finite s m e =>
      let a := match e with
               | Z0 => Zpos m
               | Zpos k => Z.shiftl (Zpos m) (Zpos k)
               | Zneg k => Z.shiftr (Zpos m) (Zpos k)
               end in
      Ok (if s then Z.opp a else a)
  end.

End F64.

#[export] Instance F64_arith : Arith float := {|
  add := PrimFloat.add; sub := PrimFloat.sub;
  mul := PrimFloat.mul; div := PrimFloat.div;
  ltb := PrimFloat.ltb; leb := PrimFloat.leb; eqb := PrimFloat.eqb;
  lit := F64.lit;
  trunc := F64.trunc
|}.

(** ** Dictionaries

    A Python dictionary with string keys is a finite map. Its iteration
    order is not specified by the language: [iteritems] is some enumeration
    of the items, the same one each time the same dictionary is iterated. *)

Class iteration : Type := {
  iteritems : forall V : Type, gmap string V -> list (string * V);
  iteritems_perm :
    forall (V : Type) (d : gmap string V), iteritems V d ≡ₚ map_to_list d
}.
Arguments iteritems {_ V} d.

(** [d[k]] *)
Definition getitem {V} (k : string) (d : gmap string V) : result V :=
  of_option (KeyError k) (d !! k).

(** [for k, v in items: out[k] = body(k, v)] *)
Fixpoint for_items {S V W} (items : list (string * V))
    (body : string -> V -> M S W) (out : gmap string W)
    : M S (gmap string W) :=
  match items with
  | [] => ret out
  | (k, v) :: rest =>
      w <- body k v ;;
      for_items rest body (<[k := w]> out)
  end.

(** ** The data model of [Dataset] *)

(** What the program prints. *)
Inductive output : Type :=
| LoadingFeatures (api : string)
| OpensmileEntireSegment
| MissingModality (tag video_id segment_id : string).

Section Model.
Context {num : Type} {arith : Arith num}.

(** A feature tuple [(feat_start, feat_end, feat_val)]. *)
Definition feature : Type := num * num * list num.

Definition feat_start (f : feature) : num := f.1.1.
Definition feat_end (f : feature) : num := f.1.2.
Definition feat_val (f : feature) : list num := f.2.

(** What a loader returns for one segment: a list of feature tuples, or
    [None] ([load_opensmile]). *)
Inductive pyfeats : Type :=
| PyNone
| PyList (feats : list feature).

(** [self.modalities[key]] *)
Record modality_info : Type := {
  info_level : string;
  info_type : string
}.

(** [self.dataset_info[video_id][segment_id]]: the keys ["start"], ["end"]
    and one file path for each modality key. *)
Record segment_data : Type := {
  seg_start : num;
  seg_end : num;
  seg_files : gmap string string
}.

(** The [Dataset] object. A field that [__init__] does not set is [None]
    until the method that assigns it has run. *)
Record Dataset : Type := {
  timestamps : string;
  stored : bool;
  dataset_file : string;
  dataset_csv : option string;
  dataset_info : option (gmap string (gmap string segment_data));
  modalities : option (gmap string modality_info);
  feature_dict : option (gmap string (gmap string (gmap string pyfeats)));
  aligned_feature_dict :
    option (gmap string (gmap string (gmap string (list feature))))
}.

(** [Dataset(dataset_file, stored, timestamps)] *)
Definition init (dataset_file : string) (stored : bool) (timestamps : string)
    : Dataset :=
  {| timestamps := timestamps; stored := stored;
     dataset_file := dataset_file; dataset_csv := None;
     dataset_info := None; modalities := None;
     feature_dict := None; aligned_feature_dict := None |}.

Definition with_dataset_csv (v : string) (d : Dataset) : Dataset :=
  {| timestamps := timestamps d; stored := stored d;
     dataset_file := dataset_file d; dataset_csv := Some v;
     dataset_info := dataset_info d; modalities := modalities d;
     feature_dict := feature_dict d;
     aligned_feature_dict := aligned_feature_dict d |}.

Definition with_dataset_info
    (v : gmap string (gmap string segment_data)) (d : Dataset) : Dataset :=
  {| timestamps := timestamps d; stored := stored d;
     dataset_file := dataset_file d; dataset_csv := dataset_csv d;
     dataset_info := Some v; modalities := modalities d;
     feature_dict := feature_dict d;
     aligned_feature_dict := aligned_feature_dict d |}.

Definition with_modalities
    (v : gmap string modality_info) (d : Dataset) : Dataset :=
  {| timestamps := timestamps d; stored := stored d;
     dataset_file := dataset_file d; dataset_csv := dataset_csv d;
     dataset_info := dataset_info d; modalities := Some v;
     feature_dict := feature_dict d;
     aligned_feature_dict := aligned_feature_dict d |}.

Definition with_feature_dict
    (v : gmap string (gmap string (gmap string pyfeats))) (d : Dataset)
    : Dataset :=
  {| timestamps := timestamps d; stored := stored d;
     dataset_file := dataset_file d; dataset_csv := dataset_csv d;
     dataset_info := dataset_info d; modalities := modalities d;
     feature_dict := Some v;
     aligned_feature_dict := aligned_feature_dict d |}.

Definition with_aligned_feature_dict
    (v : gmap string (gmap string (gmap string (list feature))))
    (d : Dataset) : Dataset :=
  {| timestamps := timestamps d; stored := stored d;
     dataset_file := dataset_file d; dataset_csv := dataset_csv d;
     dataset_info := dataset_info d; modalities := modalities d;
     feature_dict := feature_dict d;
     aligned_feature_dict := Some v |}.

(** A recorded call [loader_method(self, filepath, start, end, timestamps,
    level)] of the loader [load_<api>]. *)
Record loader_call : Type := {
  call_api : string;
  call_filepath : string;
  call_start : num;
  call_end : num;
  call_timestamps : string;
  call_level : string
}.

(** The state a method runs in: the object, what has been printed, the
    loader methods called so far, and [warning_hist], the set local to the
    running [align_modality]. *)
Record state : Type := {
  self : Dataset;
  stdout : list output;
  loader_calls : list loader_call;
  warning_hist : gset (string * string)
}.

Definition print (o : output) : M state unit :=
  modify (fun s => {| self := self s; stdout := stdout s ++ [o];
                      loader_calls := loader_calls s;
                      warning_hist := warning_hist s |}).

Definition set_warning_hist (h : gset (string * string)) : M state unit :=
  modify (fun s => {| self := self s; stdout := stdout s;
                      loader_calls := loader_calls s;
                      warning_hist := h |}).

Definition record_call (c : loader_call) : M state unit :=
  modify (fun s => {| self := self s; stdout := stdout s;
                      loader_calls := loader_calls s ++ [c];
                      warning_hist := warning_hist s |}).

Definition update_self (f : Dataset -> Dataset) : M state unit :=
  modify (fun s => {| self := f (self s); stdout := stdout s;
                      loader_calls := loader_calls s;
                      warning_hist := warning_hist s |}).

(** The state a fresh object starts in. *)
Definition initial (d : Dataset) : state :=
  {| self := d; stdout := []; loader_calls := []; warning_hist := ∅ |}.

(** ** The aligner *)

Section Aligner.
Context {order : iteration}.

(** [for value in features: timing = (value[0], value[1])] *)
Definition timings (features : pyfeats) : result (list (num * num)) :=
  match features with
  | PyNone => Raise TypeError
  | PyList l => Ok (map (fun value => (feat_start value, feat_end value)) l)
  end.

Definition get_alignments (modality : string)
    : M state (gmap string (gmap string (list (num * num)))) :=
  s <- get ;;
  fd <- lift (of_option TypeError (feature_dict (self s))) ;;
  aligned_feat_dict <- lift (getitem modality fd) ;;
  for_items (iteritems aligned_feat_dict)
    (fun video_id segments =>
       for_items (iteritems segments)
         (fun segment_id features => lift (timings features)) ∅)
    ∅.

(** [len(feats[0][2])] *)
Definition probe (feats : pyfeats) : result nat :=
  match feats with
  | PyNone => Raise TypeError
  | PyList [] => Raise IndexError
  | PyList (f :: _) => Ok (length (feat_val f))
  end.

(** [for feat_tuple in feats: ...] once [feats[0]] has been read. *)
Definition iter_feats (feats : pyfeats) : result (list feature) :=
  match feats with
  | PyNone => Raise TypeError
  | PyList l => Ok l
  end.

(** The weight of one feature tuple on the interval. *)
Definition feat_weight (start_interval end_interval time_interval : num)
    (f : feature) : result num :=
  py_div (sub (py_min end_interval (feat_end f))
              (py_max start_interval (feat_start f)))
         time_interval.

Definition overlaps (start_interval end_interval : num) (f : feature) : bool :=
  ltb (feat_start f) end_interval && geb (feat_end f) start_interval.

(** The inner loop of [align_modality] over the feature tuples. *)
Fixpoint merge_feats (start_interval end_interval time_interval : num)
    (feats : list feature) (aligned_feat : list num) : result (list num) :=
  match feats with
  | [] => Ok aligned_feat
  | f :: rest =>
      if overlaps start_interval end_interval f then
        w <~ feat_weight start_interval end_interval time_interval f ;;
        let weighted_feat := np_multiply (feat_val f) w in
        aligned_feat <~ np_add aligned_feat weighted_feat ;;
        merge_feats start_interval end_interval time_interval rest aligned_feat
      else
        merge_feats start_interval end_interval time_interval rest aligned_feat
  end.

(** The last component of [modality.split("_")]. *)
Definition modality_tag (modality : string) : string :=
  default modality (last (Py.split Py.underscore modality)).

(** The handler of the [try] around the probe: warn once for the pair, then
    take the stream of the segment [str(int(segment_id) - 1)]. *)
Definition substitute
    (modality : string) (video_feats : gmap string pyfeats)
    (video_id segment_id : string) : M state pyfeats :=
  s <- get ;;
  (if decide ((video_id, segment_id) ∈ warning_hist s) then ret tt
   else print (MissingModality (modality_tag modality) video_id segment_id) ;;;
        set_warning_hist ({[ (video_id, segment_id) ]} ∪ warning_hist s)) ;;;
  n <- lift (Py.int segment_id) ;;
  lift (getitem (Py.str (n - 1)) video_feats).

(** The body of [for start_interval, end_interval in feat_intervals]. *)
Definition align_interval
    (modality : string)
    (modality_feat_dict : gmap string (gmap string pyfeats))
    (video_id segment_id : string) (interval : num * num)
    : M state feature :=
  let '(start_interval, end_interval) := interval in
  let time_interval := sub end_interval start_interval in
  video_feats <- lift (getitem video_id modality_feat_dict) ;;
  feats <- lift (getitem segment_id video_feats) ;;
  feats <- match probe feats with
           | Ok _ => ret feats
           | Raise _ => substitute modality video_feats video_id segment_id
           end ;;
  n <- lift (probe feats) ;;
  l <- lift (iter_feats feats) ;;
  aligned_feat <-
    lift (merge_feats start_interval end_interval time_interval l
            (np_zeros n)) ;;
  ret (start_interval, end_interval, aligned_feat).

Fixpoint for_intervals
    (modality : string)
    (modality_feat_dict : gmap string (gmap string pyfeats))
    (video_id segment_id : string) (feat_intervals : list (num * num))
    (aligned_segment_feat : list feature) : M state (list feature) :=
  match feat_intervals with
  | [] => ret aligned_segment_feat
  | interval :: rest =>
      t <- align_interval modality modality_feat_dict video_id segment_id
             interval ;;
      for_intervals modality modality_feat_dict video_id segment_id rest
        (aligned_segment_feat ++ [t])
  end.

Definition align_modality (modality : string)
    (alignments : gmap string (gmap string (list (num * num))))
    : M state (gmap string (gmap string (list feature))) :=
  s <- get ;;
  fd <- lift (of_option TypeError (feature_dict (self s))) ;;
  modality_feat_dict <- lift (getitem modality fd) ;;
  set_warning_hist ∅ ;;;
  for_items (iteritems alignments)
    (fun video_id segments =>
       for_items (iteritems segments)
         (fun segment_id feat_intervals =>
            for_intervals modality modality_feat_dict video_id segment_id
              feat_intervals [])
         ∅)
    ∅.

(** [for modality in modalities: ...] of [align]. *)
Fixpoint align_loop (keys : list string) (align_modality_key : string)
    (alignments : gmap string (gmap string (list (num * num))))
    (aligned_feat_dict : gmap string (gmap string (gmap string (list feature))))
    : M state (gmap string (gmap string (gmap string (list feature)))) :=
  match keys with
  | [] => ret aligned_feat_dict
  | modality :: rest =>
      if String.eqb modality align_modality_key
      then align_loop rest align_modality_key alignments aligned_feat_dict
      else
        aligned_modality <- align_modality modality alignments ;;
        align_loop rest align_modality_key alignments
          (<[modality := aligned_modality]> aligned_feat_dict)
  end.

Definition align (align_modality_key : string)
    : M state (gmap string (gmap string (gmap string (list feature)))) :=
  s <- get ;;
  mods <- lift (of_option AttributeError (modalities (self s))) ;;
  alignments <- get_alignments align_modality_key ;;
  aligned_feat_dict <-
    align_loop ((iteritems mods).*1) align_modality_key alignments ∅ ;;
  update_self (with_aligned_feature_dict aligned_feat_dict) ;;;
  ret aligned_feat_dict.

End Aligner.
(** ** The loaders

    What the program reads from outside: the builtin [float] on strings, the
    lines of a text file ([open(filepath).readlines()]), the ['features']
    matrix of a MATLAB file ([loadmat]) and the cells of the manifest
    ([np.asarray(pd.read_csv(..., header=None))], each cell as its [str])
    and the feature dictionary of a pickle file. *)

Class external : Type := {
  float_of_string : string -> result num;
  readlines : string -> result (list string);
  loadmat_features : string -> result (list (list num));
  read_csv : string -> result (list (list string));
  pickle_load :
    string -> result (gmap string (gmap string (gmap string pyfeats)))
}.

Section Loaders.
Context {ext : external}.

(** [start_time, end_time] as every loader sets them. *)
Definition start_time_of (timestamps : string) (start : num) : num :=
  if String.eqb timestamps "relative" then lit 0 else start.
Definition end_time_of (timestamps : string) (start end_ : num) : num :=
  if String.eqb timestamps "relative" then sub end_ start else end_.

(** [float(line.split(",")[i])] *)
Definition float_field (line : string) (i : nat) : result num :=
  s <~ Py.index (Py.split Py.comma line) i ;;
  float_of_string s.

(** [[float(val) for val in vals]] *)
Fixpoint floats (vals : list string) : result (list num) :=
  match vals with
  | [] => Ok []
  | val :: rest =>
      x <~ float_of_string val ;;
      xs <~ floats rest ;;
      Ok (x :: xs)
  end.

(** The loop of [load_facet] that appends [0.0] where [float(val)] fails. *)
Definition floats_or_zero (vals : list string) : list num :=
  map (fun val => match float_of_string val with
                  | Ok x => x
                  | Raise _ => lit 0
                  end) vals.

(** [for line in lines: line = line.strip(); if not line: break; ...] where
    the body appends at most one tuple to [features]. *)
Fixpoint for_lines (lines : list string)
    (body : string -> result (option feature)) (features : list feature)
    : result (list feature) :=
  match lines with
  | [] => Ok features
  | line :: rest =>
      let line := Py.strip line in
      if String.eqb line "" then Ok features
      else
        o <~ body line ;;
        for_lines rest body
          match o with
          | Some f => features ++ [f]
          | None => features
          end
  end.

(** The test of the video-level branch of [load_phonemes],
    [load_embeddings], [load_words] and [load_misc]. *)
Definition in_segment (start end_ feat_start feat_end : num) : bool :=
  let feat_time := sub feat_end feat_start in
  (leb feat_start start && gtb feat_end end_)
  || (geb feat_start start && ltb feat_end end_)
  || (leb feat_start start
      && ltb (sub start feat_start) (div feat_time (lit 2)))
  || (geb feat_start start
      && gtb (sub end_ feat_start) (div feat_time (lit 2))).

(** The test of the video-level branch of [load_openface] and of the
    [load_facet] family. *)
Definition starts_in_segment (start end_ feat_start : num) : bool :=
  geb feat_start start && ltb feat_start end_.

(** The loaders of files with one [(start, end, values)] line per interval.
    [cs], [ce], [cv]: the columns read at segment level; [vs], [ve], [vv]:
    the columns read at video level. *)
Definition load_intervals (cs ce cv vs ve vv : nat)
    (filepath : string) (start end_ : num) (timestamps level : string)
    : result (list feature) :=
  let start_time := start_time_of timestamps start in
  if String.eqb level "s" then
    lines <~ readlines filepath ;;
    for_lines lines
      (fun line =>
         a <~ float_field line cs ;;
         let feat_start := add a start_time in
         b <~ float_field line ce ;;
         let feat_end := add b start_time in
         feat_val <~ floats (drop cv (Py.split Py.comma line)) ;;
         Ok (Some (feat_start, feat_end, feat_val)))
      []
  else
    lines <~ readlines filepath ;;
    for_lines lines
      (fun line =>
         feat_start <~ float_field line vs ;;
         feat_end <~ float_field line ve ;;
         if in_segment start end_ feat_start feat_end then
           let feat_start := add (sub feat_start start) start_time in
           let feat_end := add (sub feat_end start) start_time in
           feat_val <~ floats (drop vv (Py.split Py.comma line)) ;;
           Ok (Some (feat_start, feat_end, feat_val))
         else Ok None)
      [].

Definition load_phonemes := load_intervals 1 2 3 1 2 3.
Definition load_embeddings := load_intervals 0 1 2 1 2 3.
Definition load_words := load_intervals 0 1 2 1 2 3.
Definition load_misc := load_intervals 0 1 2 0 1 3.

(** The loaders of files with one line per frame of [time_period] seconds.
    [skip]: the header lines dropped; [cs], [vals_s]: the start column and
    the value fields at segment level; [vs], [vals_v]: the same at video
    level, where [vals_v] also converts the fields. The values are kept as
    [float] reads them: the cast of the vector to single precision,
    [np.asarray(feat_val, dtype=np.float32)], is left out. *)
Definition load_frames (time_period : num) (skip : nat)
    (cs : nat) (vals_s : list string -> list string)
    (vs : nat) (vals_v : list string -> result (list num))
    (filepath : string) (start end_ : num) (timestamps level : string)
    : result (list feature) :=
  let start_time := start_time_of timestamps start in
  if String.eqb level "s" then
    lines <~ readlines filepath ;;
    for_lines (drop skip lines)
      (fun line =>
         a <~ float_field line cs ;;
         let feat_start := add a start_time in
         let feat_end := add feat_start time_period in
         feat_val <~ floats (vals_s (Py.split Py.comma line)) ;;
         Ok (Some (feat_start, feat_end, feat_val)))
      []
  else
    lines <~ readlines filepath ;;
    for_lines (drop skip lines)
      (fun line =>
         feat_start <~ float_field line vs ;;
         if starts_in_segment start end_ feat_start then
           let feat_start := add (sub feat_start start) start_time in
           let feat_end := add feat_start time_period in
           feat_val <~ vals_v (Py.split Py.comma line) ;;
           Ok (Some (feat_start, feat_end, feat_val))
         else Ok None)
      [].

Definition load_openface :=
  load_frames (lit (333333 # 10000000)) 1
    0 (drop 1) 1 (fun l => floats (drop 2 l)).
Definition load_old_facet :=
  load_frames (lit (3333 # 100000)) 1
    0 (drop 1) 0 (fun l => floats (drop 1 l)).
Definition load_facet :=
  load_frames (lit (3333 # 100000)) 1
    1 (Py.slice_to_last 2)
    0 (fun l => Ok (floats_or_zero (Py.slice_to_last 1 l))).
Definition load_facet1 :=
  load_frames (lit (3333 # 100000)) 0
    1 (Py.slice_to_last 2)
    1 (fun l => Ok (floats_or_zero (Py.slice_to_last 2 l))).
Definition load_facet2 :=
  load_frames (lit (3333 # 100000)) 0
    1 (Py.slice_to_last 2)
    1 (fun l => Ok (floats_or_zero (Py.slice_to_last 2 l))).

(** [for feat in feats: ...] of [load_covarep], from [feat_start] on. *)
Fixpoint covarep_frames (time_period feat_start : num)
    (feats : list (list num)) : list feature :=
  match feats with
  | [] => []
  | feat :: rest =>
      let feat_end := add feat_start time_period in
      (feat_start, feat_end, feat)
        :: covarep_frames time_period (add feat_start time_period) rest
  end.

Definition load_covarep
    (filepath : string) (start end_ : num) (timestamps level : string)
    : result (list feature) :=
  let time_period := lit (1 # 100) in
  feats <~ loadmat_features filepath ;;
  let start_time := start_time_of timestamps start in
  if String.eqb level "s" then
    Ok (covarep_frames time_period start_time feats)
  else
    let feat_count := lit (Z.of_nat (length feats) # 1) in
    start_index <~ trunc (py_min (div start time_period) feat_count) ;;
    end_index <~ trunc (py_min (div end_ time_period) feat_count) ;;
    Ok (covarep_frames time_period start_time
          (Py.slice start_index end_index feats)).

(** The vector is kept as [float] reads it, without the cast to single
    precision of [np.asarray(feats, dtype=np.float32)]. *)
Definition load_opensmile
    (filepath : string) (start end_ : num) (timestamps level : string)
    : M state pyfeats :=
  let start_time := start_time_of timestamps start in
  let end_time := end_time_of timestamps start end_ in
  if String.eqb level "s" || eqb start (lit 0) then
    lines <- lift (readlines filepath) ;;
    line <- lift (Py.last_item lines) ;;
    feat_val <- lift (floats (drop 1 (Py.split Py.comma (Py.strip line)))) ;;
    ret (PyList [(start_time, end_time, feat_val)])
  else
    print OpensmileEntireSegment ;;;
    ret PyNone.

(** [Dataset.__dict__["load_" + api]] *)
Definition loader : Type :=
  string -> num -> num -> string -> string -> M state pyfeats.

Definition pure_loader
    (f : string -> num -> num -> string -> string -> result (list feature))
    : loader :=
  fun filepath start end_ timestamps level =>
    lift match f filepath start end_ timestamps level with
         | Ok l => Ok (PyList l)
         | Raise e => Raise e
         end.

Definition loader_method (api : string) : result loader :=
  if String.eqb api "opensmile" then Ok load_opensmile
  else if String.eqb api "covarep" then Ok (pure_loader load_covarep)
  else if String.eqb api "phonemes" then Ok (pure_loader load_phonemes)
  else if String.eqb api "embeddings" then Ok (pure_loader load_embeddings)
  else if String.eqb api "words" then Ok (pure_loader load_words)
  else if String.eqb api "openface" then Ok (pure_loader load_openface)
  else if String.eqb api "old_facet" then Ok (pure_loader load_old_facet)
  else if String.eqb api "facet" then Ok (pure_loader load_facet)
  else if String.eqb api "facet1" then Ok (pure_loader load_facet1)
  else if String.eqb api "facet2" then Ok (pure_loader load_facet2)
  else if String.eqb api "misc" then Ok (pure_loader load_misc)
  else Raise (KeyError ("load_" ++ api)).

(** ** The controller *)

Section Controller.
Context {order : iteration}.

(** ['modality_' + str(i)] *)
Definition modality_key (i : nat) : string :=
  "modality_" ++ Py.str (Z.of_nat i).

Definition the_modalities : M state (gmap string modality_info) :=
  s <- get ;;
  lift (of_option AttributeError (modalities (self s))).

Definition the_dataset_info
    : M state (gmap string (gmap string segment_data)) :=
  s <- get ;;
  lift (of_option AttributeError (dataset_info (self s))).

(** The first loop of [validate_file], over [range(modality_count)]. *)
Fixpoint read_modalities (data : list (list string)) (indices : list nat)
    : M state unit :=
  match indices with
  | [] => ret tt
  | i :: rest =>
      let key := modality_key i in
      row <- lift (Py.index data 1) ;;
      level <- lift (Py.index row (i + 4)) ;;
      row <- lift (Py.index data 0) ;;
      type <- lift (Py.index row (i + 4)) ;;
      mods <- the_modalities ;;
      update_self
        (with_modalities
           (<[key := {| info_level := level; info_type := type |}]> mods)) ;;;
      read_modalities data rest
  end.

(** [for i in range(modality_count): segment_data[key] = str(record[i + 4])] *)
Fixpoint read_files (record : list string) (indices : list nat)
    (files : gmap string string) : result (gmap string string) :=
  match indices with
  | [] => Ok files
  | i :: rest =>
      cell <~ Py.index record (i + 4) ;;
      read_files record rest (<[modality_key i := cell]> files)
  end.

Definition multiple_instances (segment_id video_id : string) : exn :=
  NameError ("Multiple instances of segment " ++ segment_id
             ++ " for video " ++ video_id).

(** The body of [for record in data[2:]]. *)
Definition read_record (modality_count : nat) (record : list string)
    : M state unit :=
  video_id <- lift (Py.index record 0) ;;
  segment_id <- lift (Py.index record 1) ;;
  info <- the_dataset_info ;;
  (if decide (is_Some (info !! video_id)) then ret tt
   else update_self (with_dataset_info (<[video_id := ∅]> info))) ;;;
  info <- the_dataset_info ;;
  video <- lift (getitem video_id info) ;;
  if decide (is_Some (video !! segment_id)) then
    raise (multiple_instances segment_id video_id)
  else
    cell <- lift (Py.index record 2) ;;
    start <- lift (float_of_string cell) ;;
    cell <- lift (Py.index record 3) ;;
    end_ <- lift (float_of_string cell) ;;
    files <- lift (read_files record (seq 0 modality_count) ∅) ;;
    let segment :=
      {| seg_start := start; seg_end := end_; seg_files := files |} in
    update_self
      (with_dataset_info (<[video_id := <[segment_id := segment]> video]> info)).

Fixpoint read_records (modality_count : nat) (records : list (list string))
    : M state unit :=
  match records with
  | [] => ret tt
  | record :: rest =>
      read_record modality_count record ;;;
      read_records modality_count rest
  end.

Definition validate_file : M state unit :=
  s <- get ;;
  path <- lift (of_option AttributeError (dataset_csv (self s))) ;;
  data <- lift (read_csv path) ;;
  update_self (with_dataset_info ∅) ;;;
  row <- lift (Py.index data 0) ;;
  let modality_count := (length row - 4)%nat in
  update_self (with_modalities ∅) ;;;
  read_modalities data (seq 0 modality_count) ;;;
  read_records modality_count (drop 2 data).

Definition load_features
    : M state (gmap string (gmap string (gmap string pyfeats))) :=
  data <- the_dataset_info ;;
  mods <- the_modalities ;;
  s <- get ;;
  let timestamps := timestamps (self s) in
  for_items (iteritems mods)
    (fun key value =>
       let api := info_type value in
       let level := info_level value in
       method <- lift (loader_method api) ;;
       print (LoadingFeatures api) ;;;
       for_items (iteritems data)
         (fun video_id video_data =>
            for_items (iteritems video_data)
              (fun segment_id segment =>
                 filepath <- lift (getitem key (seg_files segment)) ;;
                 let start := seg_start segment in
                 let end_ := seg_end segment in
                 record_call {| call_api := api; call_filepath := filepath;
                                call_start := start; call_end := end_;
                                call_timestamps := timestamps;
                                call_level := level |} ;;;
                 method filepath start end_ timestamps level)
              ∅)
         ∅)
    ∅.

Definition controller
    : M state (gmap string (gmap string (gmap string pyfeats))) :=
  validate_file ;;;
  load_features.

Definition load
    : M state (gmap string (gmap string (gmap string pyfeats))) :=
  s <- get ;;
  if stored (self s) then
    feats <- lift (pickle_load (dataset_file (self s))) ;;
    update_self (with_feature_dict feats) ;;;
    ret feats
  else
    update_self (with_dataset_csv (dataset_file (self s))) ;;;
    feats <- controller ;;
    update_self (with_feature_dict feats) ;;;
    ret feats.

End Controller.
End Loaders.
End Model.

Arguments feature num : clear implicits.
Arguments pyfeats num : clear implicits.
Arguments segment_data num : clear implicits.
Arguments Dataset num : clear implicits.
Arguments loader_call num : clear implicits.
Arguments state num : clear implicits.
Arguments modality_info : clear implicits.
Arguments external num : clear implicits.

(** ** What the aligner returns

    The aligner prints and keeps [warning_hist], but what it returns does
    not depend on either: the functions below are [get_alignments],
    [align_interval], [for_intervals], [align_modality] and [align] with the
    state left out. The theorems relate them to the stateful ones. *)

Section Values.
Context {num : Type} {arith : Arith num} {order : iteration}.

(** [for_items] for a body without state. *)
Fixpoint fold_items {V W} (items : list (string * V))
    (f : string -> V -> result W) (out : gmap string W)
    : result (gmap string W) :=
  match items with
  | [] => Ok out
  | (k, v) :: rest =>
      w <~ f k v ;;
      fold_items rest f (<[k := w]> out)
  end.

Definition alignments_value
    (fd : gmap string (gmap string (gmap string (pyfeats num))))
    (modality : string)
    : result (gmap string (gmap string (list (num * num)))) :=
  aligned_feat_dict <~ getitem modality fd ;;
  fold_items (iteritems aligned_feat_dict)
    (fun video_id segments =>
       fold_items (iteritems segments)
         (fun segment_id features => timings features) ∅)
    ∅.

(** The stream an interval of [(video_id, segment_id)] is merged from: the
    segment's own when the probe succeeds, else the one of the segment
    [str(int(segment_id) - 1)]. *)
Definition resolve_feats (video_feats : gmap string (pyfeats num))
    (segment_id : string) : result (pyfeats num) :=
  feats <~ getitem segment_id video_feats ;;
  match probe feats with
  | Ok _ => Ok feats
  | Raise _ =>
      n <~ Py.int segment_id ;;
      getitem (Py.str (n - 1)) video_feats
  end.

(** The aligned vector of an interval over a stream. *)
Definition merge_value (feats : pyfeats num) (interval : num * num)
    : result (list num) :=
  n <~ probe feats ;;
  l <~ iter_feats feats ;;
  merge_feats interval.1 interval.2 (sub interval.2 interval.1) l
    (np_zeros n).

Definition interval_value
    (modality_feat_dict : gmap string (gmap string (pyfeats num)))
    (video_id segment_id : string) (interval : num * num)
    : result (feature num) :=
  video_feats <~ getitem video_id modality_feat_dict ;;
  feats <~ resolve_feats video_feats segment_id ;;
  aligned_feat <~ merge_value feats interval ;;
  Ok (interval.1, interval.2, aligned_feat).

Fixpoint segment_value
    (modality_feat_dict : gmap string (gmap string (pyfeats num)))
    (video_id segment_id : string) (feat_intervals : list (num * num))
    : result (list (feature num)) :=
  match feat_intervals with
  | [] => Ok []
  | interval :: rest =>
      t <~ interval_value modality_feat_dict video_id segment_id interval ;;
      ts <~ segment_value modality_feat_dict video_id segment_id rest ;;
      Ok (t :: ts)
  end.

Definition modality_value
    (modality_feat_dict : gmap string (gmap string (pyfeats num)))
    (alignments : gmap string (gmap string (list (num * num))))
    : result (gmap string (gmap string (list (feature num)))) :=
  fold_items (iteritems alignments)
    (fun video_id segments =>
       fold_items (iteritems segments)
         (fun segment_id feat_intervals =>
            segment_value modality_feat_dict video_id segment_id
              feat_intervals)
         ∅)
    ∅.

Fixpoint align_loop_value (keys : list string) (align_modality_key : string)
    (fd : gmap string (gmap string (gmap string (pyfeats num))))
    (alignments : gmap string (gmap string (list (num * num))))
    (out : gmap string (gmap string (gmap string (list (feature num)))))
    : result (gmap string (gmap string (gmap string (list (feature num))))) :=
  match keys with
  | [] => Ok out
  | modality :: rest =>
      if String.eqb modality align_modality_key
      then align_loop_value rest align_modality_key fd alignments out
      else
        modality_feat_dict <~ getitem modality fd ;;
        aligned_modality <~ modality_value modality_feat_dict alignments ;;
        align_loop_value rest align_modality_key fd alignments
          (<[modality := aligned_modality]> out)
  end.

Definition align_value (d : Dataset num) (align_modality_key : string)
    : result (gmap string (gmap string (gmap string (list (feature num))))) :=
  mods <~ of_option AttributeError (modalities d) ;;
  fd <~ of_option TypeError (feature_dict d) ;;
  alignments <~ alignments_value fd align_modality_key ;;
  align_loop_value ((iteritems mods).*1) align_modality_key fd alignments ∅.

End Values.

(** The enumeration of a dictionary by its key order, and the same one
    reversed. *)
#[export] Instance key_order : iteration := {|
  iteritems := fun V d => map_to_list d;
  iteritems_perm := fun V d => reflexivity _
|}.

Definition reverse_order : iteration := {|
  iteritems := fun V d => reverse (map_to_list d);
  iteritems_perm := fun V d => reverse_Permutation (map_to_list d)
|}.

(** ** Vocabulary of the theorems *)

Abbreviation dict_Forall2 := (map_Forall2 (K := string) (M := gmap string)).

Section Vocabulary.
Context {num : Type} {arith : Arith num}.

(** The result of [m] is [r] whatever the state it starts in. *)
Definition value_of {S A} (m : M S A) (r : result A) : Prop :=
  forall s, (m s).2 = r.

(** The object is not touched by a computation. *)
Definition keeps_self {A} (m : M (state num) A) : Prop :=
  forall s, self (m s).1 = self s.

(** What a completed loop has built: the value of the body at each item, and
    the initial dictionary elsewhere. *)
Definition built {V W} (items : list (string * V))
    (f : string -> V -> result W) (out res : gmap string W) : Prop :=
  (forall k v, (k, v) ∈ items -> exists w, f k v = Ok w /\ res !! k = Some w)
  /\ (forall k, k ∉ items.*1 -> res !! k = out !! k).

(** The boundaries of a feature tuple. *)
Definition bounds (t : feature num) : num * num := (feat_start t, feat_end t).

(** [al] is the alignment grid of the pivot dictionary [pfd]: for each
    video and segment, the boundaries of the pivot's stream, in its order. *)
Definition grid_of (pfd : gmap string (gmap string (pyfeats num)))
    (al : gmap string (gmap string (list (num * num)))) : Prop :=
  dict_Forall2 (fun _ segments grids =>
    dict_Forall2 (fun _ features grid =>
      exists p, features = PyList p /\ grid = map bounds p) segments grids)
    pfd al.

(** [am] has, for each video and segment of the grid [al] and for no other,
    one entry per grid interval, in the grid's order and with its
    boundaries. *)
Definition on_grid (al : gmap string (gmap string (list (num * num))))
    (am : gmap string (gmap string (list (feature num)))) : Prop :=
  dict_Forall2 (fun _ grids streams =>
    dict_Forall2 (fun _ grid stream => map bounds stream = grid) grids streams)
    al am.

(** [am] is the aligned output of the modality dictionary [mfd] on [al]. *)
Definition aligned_on (mfd : gmap string (gmap string (pyfeats num)))
    (al : gmap string (gmap string (list (num * num))))
    (am : gmap string (gmap string (list (feature num)))) : Prop :=
  dict_Forall2 (fun video_id grids streams =>
    dict_Forall2 (fun segment_id grid stream =>
      segment_value mfd video_id segment_id grid = Ok stream) grids streams)
    al am.

(** The non-pivot modality keys, as the items [align] loops over. *)
Definition other_modalities (keys : list string) (pivot : string)
    : list (string * unit) :=
  map (fun m => (m, tt)) (filter (fun m => m <> pivot) keys).

(** The pivot modality has no entry for a (video, segment) that the
    dictionary of another modality has. *)
Definition pivot_lacks
    (fd : gmap string (gmap string (gmap string (pyfeats num))))
    (pivot video_id segment_id : string) : Prop :=
  (exists m mfd vf feats,
      m <> pivot /\ fd !! m = Some mfd /\ mfd !! video_id = Some vf
      /\ vf !! segment_id = Some feats)
  /\ forall pfd pv,
       fd !! pivot = Some pfd -> pfd !! video_id = Some pv ->
       pv !! segment_id = None.

(** The state after the handler of the [try] has run for a pair. *)
Definition warn (modality video_id segment_id : string) (s : state num)
    : state num :=
  if decide ((video_id, segment_id) ∈ warning_hist s) then s
  else {| self := self s;
          stdout := stdout s
                    ++ [MissingModality (modality_tag modality)
                          video_id segment_id];
          loader_calls := loader_calls s;
          warning_hist := {[ (video_id, segment_id) ]} ∪ warning_hist s |}.

(** The diagnostic printed for a pair [(video_id, segment_id)]. *)
Definition diagnostic (modality : string) (p : string * string) : output :=
  MissingModality (modality_tag modality) p.1 p.2.

(** The grid has at least one interval for the pair. *)
Definition visited (al : gmap string (gmap string (list (num * num))))
    (video_id segment_id : string) : Prop :=
  exists grids iv grid,
    al !! video_id = Some grids /\ grids !! segment_id = Some (iv :: grid).

(** The pair is visited and the modality's stream for it is there, but
    empty or [None]: the probe fails. *)
Definition fallback_pair (mfd : gmap string (gmap string (pyfeats num)))
    (al : gmap string (gmap string (list (num * num))))
    (video_id segment_id : string) : Prop :=
  visited al video_id segment_id
  /\ exists vf feats,
       mfd !! video_id = Some vf /\ vf !! segment_id = Some feats
       /\ is_ok (probe feats) = false.

(** What holds of the state all along a run of [align_modality] that
    started with [out0] printed: the pairs warned about are printed once
    each, they are the members of [warning_hist], and they are pairs the
    fallback applies to. *)
Definition diag_inv (modality : string)
    (mfd : gmap string (gmap string (pyfeats num)))
    (al : gmap string (gmap string (list (num * num))))
    (out0 : list output) (s : state num) : Prop :=
  exists new,
    stdout s = out0 ++ map (diagnostic modality) new
    /\ NoDup new
    /\ (forall p, p ∈ new <-> p ∈ warning_hist s)
    /\ (forall v seg, (v, seg) ∈ new -> fallback_pair mfd al v seg).

(** [warning_hist] has only grown. *)
Definition hist_le (s s' : state num) : Prop :=
  warning_hist s ⊆ warning_hist s'.

End Vocabulary.

(** ** Concrete inputs *)

Section Scenario.
Context {num : Type} {arith : Arith num}.

(** The pivot stream of the grid [(0,1), (1,2)] and the target stream
    [(0, 0.5, [2.0]), (0.5, 1.5, [4.0]), (1.5, 2.0, [6.0])]. *)
Definition scenario_pivot : list (feature num) :=
  [(lit 0, lit 1, [lit 1]); (lit 1, lit 2, [lit 1])].

Definition scenario_target : list (feature num) :=
  [(lit 0, lit (1 # 2), [lit 2]);
   (lit (1 # 2), lit (3 # 2), [lit 4]);
   (lit (3 # 2), lit 2, [lit 6])].

Definition two_modalities : gmap string modality_info :=
  {[ "modality_0" := {| info_level := "s"; info_type := "words" |};
     "modality_1" := {| info_level := "s"; info_type := "words" |} ]}.

(** A state after [load]: two modalities and their feature dictionary. *)
Definition loaded (fd : gmap string (gmap string (gmap string (pyfeats num))))
    : state num :=
  initial (with_feature_dict fd
             (with_modalities two_modalities
                (init "manifest.csv" false "absolute"))).

(** One video with one segment. *)
Definition scenario : state num :=
  loaded {[ "modality_0" := {[ "video" := {[ "1" := PyList scenario_pivot ]} ]};
            "modality_1" := {[ "video" := {[ "1" := PyList scenario_target ]} ]} ]}.

(** Segment ["2"] is known to [modality_1] only. *)
Definition one_sided_features
    : gmap string (gmap string (gmap string (pyfeats num))) :=
         {[ "modality_0" := {[ "video" := {[ "1" := PyList scenario_pivot ]} ]};
            "modality_1" := {[ "video" := {[ "1" := PyList scenario_target;
                                             "2" := PyList scenario_target ]} ]} ]}.

Definition one_sided : state num := loaded one_sided_features.

(** Segment ["3"] of [modality_1] is empty, segment ["2"] is not. *)
Definition with_gap_features
    : gmap string (gmap string (gmap string (pyfeats num))) :=
         {[ "modality_0" := {[ "video" := {[ "2" := PyList scenario_pivot;
                                             "3" := PyList scenario_pivot ]} ]};
            "modality_1" := {[ "video" := {[ "2" := PyList scenario_target;
                                             "3" := PyList [] ]} ]} ]}.

Definition with_gap : state num := loaded with_gap_features.

End Scenario.

Section ScenarioGrid.
Context {num : Type} {arith : Arith num}.

Definition scenario_grid : list (num * num) :=
  [(lit 0, lit 1); (lit 1, lit 2)].

(** The alignments of [with_gap] for the pivot [modality_0]. *)
Definition with_gap_alignments : gmap string (gmap string (list (num * num))) :=
  {[ "video" := {[ "2" := scenario_grid; "3" := scenario_grid ]} ]}.

(** The dictionary of [modality_1] in [with_gap]. *)
Definition with_gap_target : gmap string (gmap string (pyfeats num)) :=
  {[ "video" := {[ "2" := PyList scenario_target; "3" := PyList [] ]} ]}.

End ScenarioGrid.

(** The expected output of the scenario in binary64. *)
Definition scenario_aligned
    : gmap string (gmap string (gmap string (list (feature float)))) :=
  {[ "modality_1" :=
       {[ "video" := {[ "1" := [(0, 1, [3]); (1, 2, [5])]%float ]} ]} ]}.

(** ** Weights and coverage *)

Section Weights.
Context {num : Type} {arith : Arith num}.

(** The feature tuples [merge_feats] takes on an interval. *)
Definition overlapping (ts te : num) (feats : list (feature num))
    : list (feature num) :=
  filter (fun f => overlaps ts te f) feats.

(** The quotient [merge_feats] multiplies the value of a tuple by. *)
Definition weight (ts te : num) (f : feature num) : num :=
  div (sub (py_min te (feat_end f)) (py_max ts (feat_start f))) (sub te ts).


End Weights.

Section Coverage.
Local Open Scope Q_scope.

Definition Qsum (l : list Q) : Q := foldr Qplus 0 l.

Definition by_start (f g : feature Q) : Prop := feat_start f <= feat_start g.

#[export] Instance by_start_dec : RelDecision by_start.
Proof.
  intros f g. unfold by_start.
  destruct (Qlt_le_dec (feat_start g) (feat_start f)) as [Hlt|Hle].
  - right. by apply Qlt_not_le.
  - by left.
Defined.



(** Two intervals that share no more than an end point. *)
Definition disjoint (f g : feature Q) : Prop :=
  feat_end f <= feat_start g \/ feat_end g <= feat_start f.

Fixpoint pairwise_disjoint (feats : list (feature Q)) : Prop :=
  match feats with
  | [] => True
  | f :: rest => Forall (disjoint f) rest /\ pairwise_disjoint rest
  end.

Definition positive (f : feature Q) : Prop := feat_start f < feat_end f.


(** The length of the overlap of a tuple with the interval, as the code
    computes it. *)
Definition overlap (ts te : Q) (f : feature Q) : Q :=
  py_min te (feat_end f) - py_max ts (feat_start f).



End Coverage.

(** ** Vocabulary of the manifest *)

Section ManifestVocabulary.
Context {num : Type} {arith : Arith num} {ext : external num}.

(** The pair [(video_id, segment_id)] is in the table. *)
Definition has_segment (info : gmap string (gmap string (segment_data num)))
    (video_id segment_id : string) : Prop :=
  exists video, info !! video_id = Some video /\ is_Some (video !! segment_id).

(** Two rows of the manifest with the same video and segment. *)
Definition duplicate_rows (records : list (list string)) : Prop :=
  exists (i j : nat) r1 r2 video_id segment_id,
    (i < j)%nat
    /\ records !! i = Some r1 /\ records !! j = Some r2
    /\ r1 !! 0%nat = Some video_id /\ r1 !! 1%nat = Some segment_id
    /\ r2 !! 0%nat = Some video_id /\ r2 !! 1%nat = Some segment_id.

(** A manifest as [np.asarray] gives it: at least the two header rows, all
    rows of one width, four columns or more, and numbers in the start and
    end columns of the records. *)
Definition well_formed (data : list (list string)) : Prop :=
  exists w,
    (4 <= w)%nat /\ (2 <= length data)%nat
    /\ Forall (fun row => length row = w) data
    /\ Forall (fun record =>
                 exists a b,
                   record !! 2%nat = Some a /\ record !! 3%nat = Some b
                   /\ is_ok (float_of_string a) = true
                   /\ is_ok (float_of_string b) = true)
         (drop 2 data).

(** What [well_formed] asks of one record, for [modality_count] columns
    after the four reserved ones. *)
Definition good_record (modality_count : nat) (record : list string) : Prop :=
  (modality_count + 4 <= length record)%nat /\ (4 <= length record)%nat
  /\ exists a b,
       record !! 2%nat = Some a /\ record !! 3%nat = Some b
       /\ is_ok (float_of_string a) = true
       /\ is_ok (float_of_string b) = true.

(** No loader method is called by a computation. *)
Definition keeps_calls {A} (m : M (state num) A) : Prop :=
  forall s, loader_calls (m s).1 = loader_calls s.

(** The segment a record describes: its start, its end and its files. *)
Definition segment_of_record (modality_count : nat) (record : list string)
    : result (segment_data num) :=
  cell <~ Py.index record 2 ;;
  start <~ float_of_string cell ;;
  cell <~ Py.index record 3 ;;
  end_ <~ float_of_string cell ;;
  files <~ read_files record (seq 0 modality_count) ∅ ;;
  Ok {| seg_start := start; seg_end := end_; seg_files := files |}.

(** The state with [self.dataset_info] set to [info]. *)
Definition set_info (info : gmap string (gmap string (segment_data num)))
    (s : state num) : state num :=
  {| self := with_dataset_info info (self s); stdout := stdout s;
     loader_calls := loader_calls s; warning_hist := warning_hist s |}.

End ManifestVocabulary.

(** ** Vocabulary of the loaders *)

Section LoaderVocabulary.
Context {num : Type} {arith : Arith num} {ext : external num}.

(** The lines a loader reads: each one stripped, up to the first that is
    empty once stripped. *)
Fixpoint stripped_lines (lines : list string) : list string :=
  match lines with
  | [] => []
  | line :: rest =>
      let line := Py.strip line in
      if String.eqb line "" then [] else line :: stripped_lines rest
  end.

(** What the video-level branch of [load_intervals] does with a line: its
    candidate interval is read from the columns [vs] and [ve]; when the
    test holds, the values are read and the rebased tuple is appended ([o]
    is that tuple), and when it does not, nothing is ([o] is [None]). *)
Definition interval_line (vs ve vv : nat) (start end_ start_time : num)
    (line : string) (o : option (feature num)) : Prop :=
  exists feat_start feat_end,
    float_field line vs = Ok feat_start
    /\ float_field line ve = Ok feat_end
    /\ if in_segment start end_ feat_start feat_end then
         exists feat_val,
           floats (drop vv (Py.split Py.comma line)) = Ok feat_val
           /\ o = Some (add (sub feat_start start) start_time,
                        add (sub feat_end start) start_time, feat_val)
       else o = None.

(** The same for the video-level branch of [load_frames]. *)
Definition frame_line (time_period : num) (vs : nat)
    (vals_v : list string -> result (list num))
    (start end_ start_time : num)
    (line : string) (o : option (feature num)) : Prop :=
  exists feat_start,
    float_field line vs = Ok feat_start
    /\ if starts_in_segment start end_ feat_start then
         exists feat_val,
           vals_v (Py.split Py.comma line) = Ok feat_val
           /\ o = Some (add (sub feat_start start) start_time,
                        add (add (sub feat_start start) start_time)
                          time_period,
                        feat_val)
       else o = None.

End LoaderVocabulary.

(** ** Vocabulary of the timestamp modes *)

Section ShiftVocabulary.
Local Open Scope Q_scope.

(** Two results are the same exception, or two values that [R] relates. *)
Definition same_outcome {A B} (R : A -> B -> Prop)
    (r1 : result A) (r2 : result B) : Prop :=
  match r1, r2 with
  | Ok a, Ok b => R a b
  | Raise e1, Raise e2 => e1 = e2
  | _, _ => False
  end.

(** The tuple [r] is the tuple [a] with both boundaries moved down by [s]
    and the same value. *)
Definition shifted (s : Q) (r a : feature Q) : Prop :=
  feat_start r == feat_start a - s
  /\ feat_end r == feat_end a - s
  /\ feat_val r = feat_val a.

Definition shifted_stream (s : Q) (r a : pyfeats Q) : Prop :=
  match r, a with
  | PyNone, PyNone => True
  | PyList lr, PyList la => Forall2 (shifted s) lr la
  | _, _ => False
  end.

(** The same for grid intervals, and for aligned tuples, whose values are
    computed from the boundaries: equal as rationals. *)
Definition shifted_interval (s : Q) (r a : Q * Q) : Prop :=
  r.1 == a.1 - s /\ r.2 == a.2 - s.

Definition shifted_aligned (s : Q) (r a : feature Q) : Prop :=
  feat_start r == feat_start a - s
  /\ feat_end r == feat_end a - s
  /\ Forall2 Qeq (feat_val r) (feat_val a).

End ShiftVocabulary.

(** ** A file system for the examples *)

(** [float(s)] on a plain decimal literal, read exactly: white space
    around it, one sign, digits and at most one point, with a digit on one
    side of it at least. Python reads more (exponents, [inf], [nan]); the
    examples do not use them. *)
Definition decimal (s : string) : result Q :=
  let body (r : string) : option Q :=
    match Py.split "."%char r with
    | [ip] =>
        n ← Py.unsigned_value ip; Some (n # 1)
    | [ip; fp] =>
        match ip, fp with
        | EmptyString, EmptyString => None
        | _, _ =>
            n ← Py.digits_value 0 (ip ++ fp);
            Some (n # Z.to_pos (10 ^ Z.of_nat (String.length fp)))
        end
    | _ => None
    end in
  of_option ValueError
    match Py.strip s with
    | String "-" r => Qopp <$> body r
    | String "+" r => body r
    | r => body r
    end.

(** The manifest [csv] and the text files [files]; no MATLAB or pickle
    file. *)
Definition example_files (csv : list (list string))
    (files : gmap string (list string)) : external Q := {|
  float_of_string := decimal;
  readlines := fun path => of_option IOError (files !! path);
  loadmat_features := fun _ => Raise IOError;
  read_csv := fun _ => Ok csv;
  pickle_load := fun _ => Raise IOError
|}.

(** A loader whose video-level branch keeps, of the lines after the first
    [skip], those [line_rule] gives a tuple for. *)
Definition video_level_rule {num : Type} {arith : Arith num}
    {ext : external num} (skip : nat)
    (load : string -> num -> num -> string -> string ->
            result (list (feature num)))
    (line_rule : num -> num -> num -> string -> option (feature num) -> Prop)
    : Prop :=
  forall filepath start end_ timestamps level feats,
    String.eqb level "s" = false ->
    load filepath start end_ timestamps level = Ok feats ->
    exists lines outs,
      readlines filepath = Ok lines
      /\ Forall2 (line_rule start end_ (start_time_of timestamps start))
           (stripped_lines (drop skip lines)) outs
      /\ feats = omap id outs.

(** A video file of OpenFace with one frame that starts 0.01 s before the
    window (1, 2). *)
Definition early_frame : external Q :=
  example_files [] {[ "face.csv" := ["frame,timestamp,x"; "0,0.99,7.0"] ]}.

(** An interval file with the same candidate, (0.99, 1.0233333). *)
Definition early_interval : external Q :=
  example_files [] {[ "words.csv" := ["0,0.99,1.0233333,7.0"] ]}.

(** A manifest whose two records are one segment of one video. *)
Definition duplicated_manifest : list (list string) :=
  [ ["video"; "segment"; "start"; "end"; "words"];
    ["video"; "segment"; "start"; "end"; "s"];
    ["v1"; "1"; "0.0"; "1.0"; "a.csv"];
    ["v1"; "1"; "1.0"; "2.0"; "b.csv"] ].

(** The state in which [load] calls the controller. *)
Definition fresh (timestamps : string) : state Q :=
  initial (with_dataset_csv "manifest.csv"
             (init "manifest.csv" false timestamps)).

(** A manifest of one video with the segments ["1"] on (0, 1) and ["2"] on
    (1, 2), and two segment-level modalities of words; the file of the
    second modality for segment ["2"] is empty. *)
Definition gap_manifest : list (list string) :=
  [ ["video"; "segment"; "start"; "end"; "words"; "words"];
    ["video"; "segment"; "start"; "end"; "s"; "s"];
    ["v1"; "1"; "0.0"; "1.0"; "p1.csv"; "a.csv"];
    ["v1"; "2"; "1.0"; "2.0"; "p2.csv"; "b.csv"] ].

Definition gap_files : external Q :=
  example_files gap_manifest
    {[ "p1.csv" := ["0,1,9"]; "p2.csv" := ["0,1,9"];
       "a.csv" := ["0,1,4"]; "b.csv" := [] ]}.

(** [Dataset(...).load()] and then [align('modality_0')], for a timestamp
    mode: the aligned stream of a modality, video and segment. *)
Definition load_and_align (timestamps modality video_id segment_id : string)
    : option (list (feature Q)) :=
  match (bind (load (ext := gap_files))
           (fun _ => align "modality_0")
           (initial (init "manifest.csv" false timestamps))).2 with
  | Ok out =>
      am ← out !! modality; segments ← am !! video_id; segments !! segment_id
  | Raise _ => None
  end.

(** ** Further inputs and vocabulary *)

(** A pickle file holding [fd], and nothing else to read. *)
Definition pickle_of
    (fd : gmap string (gmap string (gmap string (pyfeats Q)))) : external Q := {|
  float_of_string := decimal;
  readlines := fun _ => Raise IOError;
  loadmat_features := fun _ => Raise IOError;
  read_csv := fun _ => Raise IOError;
  pickle_load := fun _ => Ok fd
|}.

(** The pivot stream of segment ["2"] is [None]. *)
Definition none_pivot_features
    : gmap string (gmap string (gmap string (pyfeats Q))) :=
  {[ "modality_0" := {[ "video" := {[ "1" := PyList scenario_pivot;
                                      "2" := PyNone ]} ]};
     "modality_1" := {[ "video" := {[ "1" := PyList scenario_target;
                                      "2" := PyList scenario_target ]} ]} ]}.

(** The feature dictionary of [scenario]. *)
Definition scenario_features
    : gmap string (gmap string (gmap string (pyfeats Q))) :=
  {[ "modality_0" := {[ "video" := {[ "1" := PyList scenario_pivot ]} ]};
     "modality_1" := {[ "video" := {[ "1" := PyList scenario_target ]} ]} ]}.

(** An aligned tuple with the boundaries of [f] and its values, as
    rationals. *)
Definition same_values (t f : feature Q) : Prop :=
  bounds t = bounds f /\ Forall2 Qeq (feat_val t) (feat_val f).

(** Two interval files that differ by what follows a blank line. *)
Definition blank_line_files : external Q :=
  example_files []
    {[ "long.csv" := ["0,1,4"; "1,2,5"; " "; "2,3,6"; "no numbers"];
       "short.csv" := ["0,1,4"; "1,2,5"] ]}.


(** A COVAREP matrix of four rows. *)
Definition covarep_file : external Q := {|
  float_of_string := decimal;
  readlines := fun _ => Raise IOError;
  loadmat_features := fun _ => Ok [[1]; [2]; [3]; [4]]%Q;
  read_csv := fun _ => Raise IOError;
  pickle_load := fun _ => Raise IOError
|}.

(** An interval file for the window (1, 2): an interval inside it, one
    across its end, and one after it. *)
Definition window_intervals : external Q :=
  example_files []
    {[ "words.csv" := ["0,1.2,1.6,7"; "1,1.8,2.1,8"; "2,2.5,3.0,9"] ]}.

(** An OpenFace file with frames at 0.5, 1.0, 1.5 and 2.0 s. *)
Definition window_frames : external Q :=
  example_files []
    {[ "face.csv" := ["frame,timestamp,x"; "0,0.5,1"; "1,1.0,2";
                      "2,1.5,3"; "3,2.0,4"] ]}.

(** Text files read in binary64: [float(s)] of a plain decimal literal is
    the double nearest to it, which is the quotient of its digits by the
    power of ten, both exact in binary64 for the short literals of the
    examples. *)
Definition binary64_files (files : gmap string (list string))
    : external float := {|
  float_of_string := fun s => res_bind (decimal s) (fun q => Ok (F64.lit q));
  readlines := fun path => of_option IOError (files !! path);
  loadmat_features := fun _ => Raise IOError;
  read_csv := fun _ => Raise IOError;
  pickle_load := fun _ => Raise IOError
|}.

(** An OpenFace file with one frame at 0.9 s. *)
Definition late_frame : external float :=
  binary64_files {[ "face.csv" := ["frame,timestamp,x"; "0,0.9,1"] ]}.

(** ** What the controller returns

    As for the aligner: the loaders and [load_features] with the state left
    out. [load_opensmile] prints, the others do not touch the state. *)

Section LoaderValues.
Context {num : Type} {arith : Arith num} {ext : external num}.

Definition opensmile_value
    (filepath : string) (start end_ : num) (timestamps level : string)
    : result (pyfeats num) :=
  let start_time := start_time_of timestamps start in
  let end_time := end_time_of timestamps start end_ in
  if String.eqb level "s" || eqb start (lit 0) then
    lines <~ readlines filepath ;;
    line <~ Py.last_item lines ;;
    feat_val <~ floats (drop 1 (Py.split Py.comma (Py.strip line))) ;;
    Ok (PyList [(start_time, end_time, feat_val)])
  else Ok PyNone.

Definition loader_value (api : string)
    (filepath : string) (start end_ : num) (timestamps level : string)
    : result (pyfeats num) :=
  let lists (r : result (list (feature num))) : result (pyfeats num) :=
    match r with Ok l => Ok (PyList l) | Raise e => Raise e end in
  if String.eqb api "opensmile"
  then opensmile_value filepath start end_ timestamps level
  else if String.eqb api "covarep"
  then lists (load_covarep filepath start end_ timestamps level)
  else if String.eqb api "phonemes"
  then lists (load_phonemes filepath start end_ timestamps level)
  else if String.eqb api "embeddings"
  then lists (load_embeddings filepath start end_ timestamps level)
  else if String.eqb api "words"
  then lists (load_words filepath start end_ timestamps level)
  else if String.eqb api "openface"
  then lists (load_openface filepath start end_ timestamps level)
  else if String.eqb api "old_facet"
  then lists (load_old_facet filepath start end_ timestamps level)
  else if String.eqb api "facet"
  then lists (load_facet filepath start end_ timestamps level)
  else if String.eqb api "facet1"
  then lists (load_facet1 filepath start end_ timestamps level)
  else if String.eqb api "facet2"
  then lists (load_facet2 filepath start end_ timestamps level)
  else if String.eqb api "misc"
  then lists (load_misc filepath start end_ timestamps level)
  else Raise (KeyError ("load_" ++ api)).

(** The stream of one segment of the manifest for the modality [key]. *)
Definition segment_features (key : string) (value : modality_info)
    (timestamps : string) (segment : segment_data num)
    : result (pyfeats num) :=
  filepath <~ getitem key (seg_files segment) ;;
  loader_value (info_type value) filepath (seg_start segment)
    (seg_end segment) timestamps (info_level value).

Definition features_value {order : iteration}
    (data : gmap string (gmap string (segment_data num)))
    (mods : gmap string modality_info) (timestamps : string)
    : result (gmap string (gmap string (gmap string (pyfeats num)))) :=
  fold_items (iteritems mods)
    (fun key value =>
       _ <~ loader_method (info_type value) ;;
       fold_items (iteritems data)
         (fun video_id video_data =>
            fold_items (iteritems video_data)
              (fun segment_id segment =>
                 segment_features key value timestamps segment)
              ∅)
         ∅)
    ∅.

(** The feature dictionary [fd] has, for each modality of [mods], each
    video of [data] and each of its segments, and for nothing else, the
    stream that the loader of the modality returns for the segment. *)
Definition loaded_from
    (data : gmap string (gmap string (segment_data num)))
    (mods : gmap string modality_info) (timestamps : string)
    (fd : gmap string (gmap string (gmap string (pyfeats num)))) : Prop :=
  dict_Forall2 (fun key value mfd =>
    dict_Forall2 (fun _ video_data video_feats =>
      dict_Forall2 (fun _ segment feats =>
        segment_features key value timestamps segment = Ok feats)
        video_data video_feats)
      data mfd)
    mods fd.

End LoaderValues.

(** ** What [validate_file] builds

    The two loops of [validate_file] as functions of the tables they fill:
    [self.modalities] for the first, [self.dataset_info] for the second. *)

Section ManifestValues.
Context {num : Type} {arith : Arith num} {ext : external num}.

Fixpoint modalities_value (data : list (list string)) (indices : list nat)
    (mods : gmap string modality_info) : result (gmap string modality_info) :=
  match indices with
  | [] => Ok mods
  | i :: rest =>
      let key := modality_key i in
      row <~ Py.index data 1 ;;
      level <~ Py.index row (i + 4) ;;
      row <~ Py.index data 0 ;;
      type <~ Py.index row (i + 4) ;;
      modalities_value data rest
        (<[key := {| info_level := level; info_type := type |}]> mods)
  end.

Definition record_value (modality_count : nat) (record : list string)
    (info : gmap string (gmap string (segment_data num)))
    : result (gmap string (gmap string (segment_data num))) :=
  video_id <~ Py.index record 0 ;;
  segment_id <~ Py.index record 1 ;;
  let info := if decide (is_Some (info !! video_id)) then info
              else <[video_id := ∅]> info in
  video <~ getitem video_id info ;;
  if decide (is_Some (video !! segment_id)) then
    Raise (multiple_instances segment_id video_id)
  else
    segment <~ segment_of_record modality_count record ;;
    Ok (<[video_id := <[segment_id := segment]> video]> info).

Fixpoint records_value (modality_count : nat) (records : list (list string))
    (info : gmap string (gmap string (segment_data num)))
    : result (gmap string (gmap string (segment_data num))) :=
  match records with
  | [] => Ok info
  | record :: rest =>
      info <~ record_value modality_count record info ;;
      records_value modality_count rest info
  end.

(** The tables of a manifest: [(dataset_info, modalities)]. *)
Definition manifest_value (data : list (list string))
    : result (gmap string (gmap string (segment_data num))
              * gmap string modality_info) :=
  row <~ Py.index data 0 ;;
  let modality_count := (length row - 4)%nat in
  mods <~ modalities_value data (seq 0 modality_count) ∅ ;;
  info <~ records_value modality_count (drop 2 data) ∅ ;;
  Ok (info, mods).

(** What [load] returns, from the fields that [__init__] sets. *)
Definition load_value {order : iteration} (d : Dataset num)
    : result (gmap string (gmap string (gmap string (pyfeats num)))) :=
  if stored d then pickle_load (dataset_file d)
  else
    data <~ read_csv (dataset_file d) ;;
    tables <~ manifest_value data ;;
    features_value tables.1 tables.2 (timestamps d).

(** The entry of a (video, segment) pair in [self.dataset_info]. *)
Definition entry (info : gmap string (gmap string (segment_data num)))
    (p : string * string) : option (segment_data num) :=
  info !! p.1 ≫= fun video => video !! p.2.

(** The pair a record describes. *)
Definition record_key (record : list string) : option (string * string) :=
  video_id ← record !! 0%nat; segment_id ← record !! 1%nat;
  Some (video_id, segment_id).

(** A computation keeps the fields that [__init__] sets. *)
Definition keeps_config {A} (m : M (state num) A) : Prop :=
  forall s,
    timestamps (self (m s).1) = timestamps (self s)
    /\ stored (self (m s).1) = stored (self s)
    /\ dataset_file (self (m s).1) = dataset_file (self s).

End ManifestValues.

(** What [load] returns on [gap_files] in the relative mode. *)
Definition gap_features
    : gmap string (gmap string (gmap string (pyfeats Q))) :=
  {[ "modality_0" := {[ "v1" := {[ "1" := PyList [(0, 1, [9])]%Q;
                                   "2" := PyList [(0, 1, [9])]%Q ]} ]};
     "modality_1" := {[ "v1" := {[ "1" := PyList [(0, 1, [4])]%Q;
                                   "2" := PyList [] ]} ]} ]}.

(** ** Binary64 inputs and readiness of the streams *)

(** The rational number that a finite double is, to state what exact
    evaluation gives on the doubles that the program holds. *)
Definition exact_value (x : float) : Q :=
  match Prim2SF x with
  | S754_finite s m e =>
      let a := ((Zpos m # 1) * Qpower 2 e)%Q in
      if s then (- a)%Q else a
  | _ => 0%Q
  end.



(** An interval file of float64 numbers with the candidate (0.01, 0.17). *)
Definition rounded_interval : external float :=
  binary64_files {[ "words.csv" := ["0,0.01,0.17,7.0"] ]}.

(** An interval file of float64 numbers with one word from 0.9 s to
    1.3 s. *)
Definition late_interval : external float :=
  binary64_files {[ "words.csv" := ["0,0.9,1.3,7.0"] ]}.

(** A COVAREP matrix of forty rows of one column, each row valued with its
    index; in exact arithmetic and in binary64. *)
Definition indexed_rows {num : Type} {arith : Arith num} : list (list num) :=
  map (fun i => [lit (Z.of_nat i # 1)]) (seq 0 40).

Definition indexed_covarep : external Q := {|
  float_of_string := decimal;
  readlines := fun _ => Raise IOError;
  loadmat_features := fun _ => Ok indexed_rows;
  read_csv := fun _ => Raise IOError;
  pickle_load := fun _ => Raise IOError
|}.

Definition indexed_covarep_binary64 : external float := {|
  float_of_string := fun s => res_bind (decimal s) (fun q => Ok (F64.lit q));
  readlines := fun _ => Raise IOError;
  loadmat_features := fun _ => Ok indexed_rows;
  read_csv := fun _ => Raise IOError;
  pickle_load := fun _ => Raise IOError
|}.

Section Readiness.
Context {num : Type} {arith : Arith num}.

(** A stream that [align_modality] can merge without a failure of its own:
    a list with a first tuple, whose vectors all have one length. *)
Definition stream_ready (feats : pyfeats num) : Prop :=
  match feats with
  | PyList (f :: rest) =>
      Forall (fun g => length (feat_val g) = length (feat_val f)) rest
  | _ => False
  end.

Definition streams_ready (mfd : gmap string (gmap string (pyfeats num)))
    : Prop :=
  forall video_id vf segment_id feats,
    mfd !! video_id = Some vf -> vf !! segment_id = Some feats ->
    stream_ready feats.

(** A pivot dictionary of which every stream is a list, of tuples whose
    duration [end - start] is not zero. *)
Definition grid_ready (pfd : gmap string (gmap string (pyfeats num)))
    : Prop :=
  forall video_id pv segment_id feats,
    pfd !! video_id = Some pv -> pv !! segment_id = Some feats ->
    exists p, feats = PyList p
              /\ Forall (fun t => eqb (sub (feat_end t) (feat_start t)) zero
                                  = false) p.

End Readiness.

(** The streams of [two_modalities] with no stream, [None], at the pivot's
    second segment, and the other modality without its first segment. *)
Definition none_and_missing : state float :=
  loaded {[ "modality_0" := {[ "video" := {[ "1" := PyList scenario_pivot;
                                              "2" := PyNone ]} ]};
            "modality_1" := {[ "video" := ∅ ]} ]}.

(** * Theorems *)

(** ** The monad *)

Section MonadFacts.
Context {S : Type}.


Lemma value_of_lift {A} (r : result A) : value_of (lift r : M S A) r.
Proof. intros s; reflexivity. Qed.

Lemma value_of_ret {A} (a : A) : value_of (ret a : M S A) (Ok a).
Proof. intros s; reflexivity. Qed.

Lemma value_of_raise {A} (e : exn) : value_of (@raise S A e) (Raise e).
Proof. intros s; reflexivity. Qed.

Lemma value_of_modify (f : S -> S) : value_of (modify f) (Ok tt).
Proof. intros s; reflexivity. Qed.

Lemma value_of_bind {A B} (m : M S A) (k : A -> M S B) r (f : A -> result B) :
  value_of m r -> (forall a, value_of (k a) (f a)) ->
  value_of (bind m k) (res_bind r f).
Proof.
  intros Hm Hk s. unfold bind. specialize (Hm s).
  destruct (m s) as [s' [a|e]]; simpl in Hm; subst r; simpl; [apply Hk | reflexivity].
Qed.

Lemma value_of_get {B} (k : S -> M S B) (r : result B) :
  (forall s0, value_of (k s0) r) -> value_of (bind get k) r.
Proof. intros Hk s. unfold bind, get. apply Hk. Qed.

Lemma bind_ok_inv {A B} (m : M S A) (k : A -> M S B) s s' b :
  bind m k s = (s', Ok b) ->
  exists s1 a, m s = (s1, Ok a) /\ k a s1 = (s', Ok b).
Proof.
  unfold bind. destruct (m s) as [s1 [a|e]]; [eauto | discriminate].
Qed.

Lemma bind_raise_inv {A B} (m : M S A) (k : A -> M S B) s s' e :
  bind m k s = (s', Raise e) ->
  m s = (s', Raise e) \/ exists s1 a, m s = (s1, Ok a) /\ k a s1 = (s', Raise e).
Proof.
  unfold bind. destruct (m s) as [s1 [a|e1]]; [eauto | intros [= -> ->]; auto].
Qed.

End MonadFacts.

Lemma res_bind_ok_inv {A B} (r : result A) (k : A -> result B) b :
  res_bind r k = Ok b -> exists a, r = Ok a /\ k a = Ok b.
Proof. destruct r; simpl; [eauto | discriminate]. Qed.

Lemma res_bind_assoc {A B C} (r : result A) (f : A -> result B)
    (g : B -> result C) :
  res_bind (res_bind r f) g = res_bind r (fun a => res_bind (f a) g).
Proof. destruct r; reflexivity. Qed.

Section AlignerValues.
Context {num : Type} {arith : Arith num} {order : iteration}.
Local Abbreviation keeps_self := (keeps_self (num := num)).

Lemma for_items_value {S V W} (items : list (string * V))
    (body : string -> V -> M S W) (f : string -> V -> result W) :
  (forall k v, value_of (body k v) (f k v)) ->
  forall out, value_of (for_items items body out) (fold_items items f out).
Proof.
  intros Hb. induction items as [|[k v] rest IH]; intros out; simpl.
  - apply value_of_ret.
  - apply value_of_bind; [apply Hb | intros w; apply IH].
Qed.

Lemma substitute_value modality (video_feats : gmap string (pyfeats num))
    video_id segment_id :
  value_of (substitute modality video_feats video_id segment_id)
    (res_bind (Py.int segment_id)
       (fun n => getitem (Py.str (n - 1)) video_feats)).
Proof.
  unfold substitute. apply value_of_get. intros s0.
  change (res_bind (Py.int segment_id) _)
    with (res_bind (Ok tt) (fun _ : unit =>
            res_bind (Py.int segment_id)
              (fun n => getitem (Py.str (n - 1)) video_feats))).
  apply value_of_bind.
  - destruct (decide _); [apply value_of_ret|].
    change (Ok tt) with (res_bind (Ok tt) (fun _ : unit => Ok tt)).
    apply value_of_bind; [apply value_of_modify | intros _; apply value_of_modify].
  - intros _. apply value_of_bind; [apply value_of_lift | intros n; apply value_of_lift].
Qed.

Lemma align_interval_value modality
    (mfd : gmap string (gmap string (pyfeats num))) video_id segment_id iv :
  value_of (align_interval modality mfd video_id segment_id iv)
    (interval_value mfd video_id segment_id iv).
Proof.
  unfold align_interval, interval_value. destruct iv as [a b]; simpl.
  apply value_of_bind; [apply value_of_lift | intros vf].
  unfold resolve_feats, merge_value. rewrite res_bind_assoc.
  apply value_of_bind; [apply value_of_lift | intros feats].
  apply value_of_bind.
  { destruct (probe feats); [apply value_of_ret | apply substitute_value]. }
  intros f2. rewrite res_bind_assoc.
  apply value_of_bind; [apply value_of_lift | intros n].
  rewrite res_bind_assoc.
  apply value_of_bind; [apply value_of_lift | intros l].
  simpl. apply value_of_bind; [apply value_of_lift | intros v; apply value_of_ret].
Qed.

Lemma for_intervals_value modality
    (mfd : gmap string (gmap string (pyfeats num))) video_id segment_id
    feat_intervals :
  forall acc,
    value_of (for_intervals modality mfd video_id segment_id feat_intervals acc)
      (res_bind (segment_value mfd video_id segment_id feat_intervals)
         (fun ts => Ok (acc ++ ts))).
Proof.
  induction feat_intervals as [|iv rest IH]; intros acc; simpl.
  - rewrite app_nil_r. apply value_of_ret.
  - rewrite res_bind_assoc.
    apply value_of_bind; [apply align_interval_value | intros t].
    rewrite res_bind_assoc. simpl.
    intros s. rewrite IH. destruct (segment_value _ _ _ rest); simpl; [|reflexivity].
    by rewrite <- app_assoc.
Qed.

Lemma get_alignments_value modality (s : state num) :
  (get_alignments modality s).2
  = res_bind (of_option TypeError (feature_dict (self s)))
      (fun fd => alignments_value fd modality).
Proof.
  unfold get_alignments, alignments_value.
  unfold bind at 1, get at 1.
  apply (value_of_bind (lift (of_option TypeError (feature_dict (self s))))).
  - apply value_of_lift.
  - intros fd. apply value_of_bind; [apply value_of_lift | intros afd].
    apply for_items_value. intros v segs.
    apply for_items_value. intros seg feats. apply value_of_lift.
Qed.

Lemma align_modality_value modality alignments (s : state num) :
  (align_modality modality alignments s).2
  = res_bind (of_option TypeError (feature_dict (self s)))
      (fun fd => res_bind (getitem modality fd)
                   (fun mfd => modality_value mfd alignments)).
Proof.
  unfold align_modality, modality_value.
  unfold bind at 1, get at 1.
  apply (value_of_bind (lift (of_option TypeError (feature_dict (self s))))).
  - apply value_of_lift.
  - intros fd. apply value_of_bind; [apply value_of_lift | intros mfd].
    change (fold_items ?a ?b ?c)
      with (res_bind (Ok tt) (fun _ : unit => fold_items a b c)).
    apply value_of_bind; [apply value_of_modify | intros _].
    apply for_items_value. intros v segs.
    apply for_items_value. intros seg grid.
    intros s0. rewrite for_intervals_value.
    destruct (segment_value _ _ _ _); reflexivity.
Qed.


Lemma keeps_self_ret {A} (a : A) : keeps_self (ret a : M (state num) A).
Proof. intros s; reflexivity. Qed.
Lemma keeps_self_lift {A} (r : result A) :
  keeps_self (lift r : M (state num) A).
Proof. intros s; reflexivity. Qed.
Lemma keeps_self_print o : keeps_self (print (num := num) o).
Proof. intros s; reflexivity. Qed.
Lemma keeps_self_set_warning_hist h :
  keeps_self (set_warning_hist (num := num) h).
Proof. intros s; reflexivity. Qed.
Lemma keeps_self_bind {A B} (m : M (state num) A) (k : A -> M (state num) B) :
  keeps_self m -> (forall a, keeps_self (k a)) -> keeps_self (bind m k).
Proof.
  intros Hm Hk s. unfold bind. specialize (Hm s).
  destruct (m s) as [s' [a|e]]; simpl in *; [rewrite Hk|]; done.
Qed.
Lemma keeps_self_get {B} (k : state num -> M (state num) B) :
  (forall s0, keeps_self (k s0)) -> keeps_self (bind get k).
Proof. intros Hk s. unfold bind, get. apply Hk. Qed.

Lemma keeps_self_for_items {V W} (items : list (string * V))
    (body : string -> V -> M (state num) W) :
  (forall k v, keeps_self (body k v)) ->
  forall out, keeps_self (for_items items body out).
Proof.
  intros Hb. induction items as [|[k v] rest IH]; intros out; simpl.
  - apply keeps_self_ret.
  - apply keeps_self_bind; auto.
Qed.

Lemma keeps_self_align_interval modality
    (mfd : gmap string (gmap string (pyfeats num))) video_id segment_id iv :
  keeps_self (align_interval modality mfd video_id segment_id iv).
Proof.
  unfold align_interval. destruct iv as [a b].
  repeat (first [ apply keeps_self_bind; [|intros ?]
                | apply keeps_self_lift | apply keeps_self_ret ]).
  destruct (probe _); [apply keeps_self_ret|].
  unfold substitute. apply keeps_self_get; intros s0.
  repeat (first [ apply keeps_self_bind; [|intros ?]
                | apply keeps_self_lift | apply keeps_self_ret
                | apply keeps_self_print | apply keeps_self_set_warning_hist ]).
  destruct (decide _); [apply keeps_self_ret|].
  apply keeps_self_bind; [apply keeps_self_print | intros; apply keeps_self_set_warning_hist].
Qed.

Lemma keeps_self_for_intervals modality
    (mfd : gmap string (gmap string (pyfeats num))) video_id segment_id ivs :
  forall acc,
    keeps_self (for_intervals modality mfd video_id segment_id ivs acc).
Proof.
  induction ivs as [|iv rest IH]; intros acc; simpl.
  - apply keeps_self_ret.
  - apply keeps_self_bind; [apply keeps_self_align_interval | auto].
Qed.

Lemma keeps_self_align_modality modality alignments :
  keeps_self (align_modality modality alignments).
Proof.
  unfold align_modality. apply keeps_self_get; intros s0.
  apply keeps_self_bind; [apply keeps_self_lift | intros fd].
  apply keeps_self_bind; [apply keeps_self_lift | intros mfd].
  apply keeps_self_bind; [apply keeps_self_set_warning_hist | intros _].
  apply keeps_self_for_items; intros v segs.
  apply keeps_self_for_items; intros seg grid.
  apply keeps_self_for_intervals.
Qed.

Lemma keeps_self_get_alignments modality :
  keeps_self (get_alignments modality).
Proof.
  unfold get_alignments. apply keeps_self_get; intros s0.
  apply keeps_self_bind; [apply keeps_self_lift | intros fd].
  apply keeps_self_bind; [apply keeps_self_lift | intros mfd].
  apply keeps_self_for_items; intros v segs.
  apply keeps_self_for_items; intros seg grid. apply keeps_self_lift.
Qed.

Lemma align_loop_value_eq keys pivot alignments fd :
  forall out (s : state num),
    feature_dict (self s) = Some fd ->
    (align_loop keys pivot alignments out s).2
    = align_loop_value keys pivot fd alignments out.
Proof.
  induction keys as [|m rest IH]; intros out s Hfd; simpl; [reflexivity|].
  destruct (String.eqb m pivot); [by apply IH|].
  unfold bind.
  pose proof (align_modality_value m alignments s) as Hv.
  pose proof (keeps_self_align_modality m alignments s) as Hs.
  destruct (align_modality m alignments s) as [s1 [am|e]]; simpl in *;
    rewrite Hfd in Hv; simpl in Hv.
  - destruct (getitem m fd) as [mfd|]; simpl in *; [|discriminate].
    rewrite <- Hv. simpl. apply IH. by rewrite Hs.
  - destruct (getitem m fd) as [mfd|]; simpl in *.
    + by rewrite <- Hv.
    + by injection Hv as ->.
Qed.

Lemma align_value_eq pivot (s : state num) :
  (align pivot s).2 = align_value (self s) pivot.
Proof.
  unfold align, align_value. unfold bind at 1, get at 1.
  unfold bind at 1, lift at 1.
  destruct (modalities (self s)) as [mods|]; simpl; [|reflexivity].
  unfold bind at 1.
  pose proof (get_alignments_value pivot s) as Hv.
  pose proof (keeps_self_get_alignments pivot s) as Hs.
  destruct (get_alignments pivot s) as [s1 [al|e]]; simpl in *.
  - destruct (feature_dict (self s)) as [fd|] eqn:Hfd; simpl in *; [|discriminate].
    rewrite <- Hv. simpl. unfold bind at 1.
    pose proof (align_loop_value_eq (iteritems mods).*1 pivot al fd ∅ s1) as Hl.
    rewrite Hs in Hl. specialize (Hl Hfd).
    destruct (align_loop _ _ _ _ s1) as [s2 [out|e]]; simpl in *. all: done.
  - destruct (feature_dict (self s)) as [fd|]; simpl in *.
    + by rewrite <- Hv.
    + by injection Hv as ->.
Qed.

End AlignerValues.

(** ** Loops over dictionaries *)

Section FoldItems.
Context {V W : Type}.
Implicit Types (items : list (string * V)) (f : string -> V -> result W).
Implicit Types (out res : gmap string W).


Lemma fold_items_built items f :
  NoDup items.*1 ->
  forall out res, fold_items items f out = Ok res <-> built items f out res.
Proof.
  induction items as [|[k0 v0] rest IH]; intros Hnd out res; simpl.
  - split.
    + intros [= ->]. split; [intros k v Hin; by apply elem_of_nil in Hin | done].
    + intros [_ Hout]. f_equal. apply map_eq. intros k. symmetry. apply Hout.
      apply not_elem_of_nil.
  - simpl in Hnd. apply NoDup_cons in Hnd as [Hk0 Hnd]. split.
    + intros Hf. apply res_bind_ok_inv in Hf as (w0 & Hw0 & Hf).
      apply (IH Hnd) in Hf as [Hin Hout]. split.
      * intros k v [[= -> ->]|Hkv]%elem_of_cons; [|by apply Hin].
        exists w0. split; [done|]. rewrite (Hout _ Hk0). apply lookup_insert_eq.
      * intros k Hk. apply not_elem_of_cons in Hk as [Hne Hk].
        rewrite (Hout _ Hk). by apply lookup_insert_ne.
    + intros [Hin Hout].
      destruct (Hin k0 v0) as (w0 & Hw0 & Hr0); [apply elem_of_cons; auto|].
      rewrite Hw0. simpl. apply (IH Hnd). split.
      * intros k v Hkv. apply Hin. apply elem_of_cons; auto.
      * intros k Hk. destruct (decide (k = k0)) as [->|Hne].
        -- by rewrite lookup_insert_eq.
        -- rewrite lookup_insert_ne by done. apply Hout.
           apply not_elem_of_cons; auto.
Qed.

Lemma fold_items_perm items1 items2 f out res :
  items1 ≡ₚ items2 -> NoDup items1.*1 ->
  fold_items items1 f out = Ok res -> fold_items items2 f out = Ok res.
Proof.
  intros Hp Hnd Hf.
  assert (Hnd2 : NoDup items2.*1) by (by rewrite <- Hp).
  apply (fold_items_built _ _ Hnd) in Hf as [Hin Hout].
  apply (fold_items_built _ _ Hnd2). split.
  - intros k v Hkv. apply Hin. by rewrite Hp.
  - intros k Hk. apply Hout. by rewrite Hp.
Qed.

Lemma fold_items_mono items f g :
  (forall k v w, (k, v) ∈ items -> f k v = Ok w -> g k v = Ok w) ->
  forall out res,
    fold_items items f out = Ok res -> fold_items items g out = Ok res.
Proof.
  induction items as [|[k0 v0] rest IH]; intros Hfg out res; simpl; [done|].
  intros Hf. apply res_bind_ok_inv in Hf as (w0 & Hw0 & Hf).
  rewrite (Hfg k0 v0 w0); [simpl|apply elem_of_cons; auto|done].
  apply IH; [|done]. intros k v w Hkv. apply Hfg. apply elem_of_cons; auto.
Qed.

Lemma fold_items_raise items f k v e :
  (k, v) ∈ items -> f k v = Raise e ->
  forall out, exists e', fold_items items f out = Raise e'.
Proof.
  induction items as [|[k0 v0] rest IH]; intros Hin Hf out; simpl.
  - by apply elem_of_nil in Hin.
  - apply elem_of_cons in Hin as [[= <- <-]|Hin].
    + rewrite Hf. simpl. eauto.
    + destruct (f k0 v0); simpl; eauto.
Qed.

Lemma fold_items_raise_inv items f out e :
  fold_items items f out = Raise e ->
  exists k v, (k, v) ∈ items /\ f k v = Raise e.
Proof.
  revert out. induction items as [|[k0 v0] rest IH]; intros out; simpl; [done|].
  destruct (f k0 v0) as [w|e0] eqn:Hf; simpl.
  - intros (k & v & Hin & Hkv)%IH. exists k, v. split; [apply elem_of_cons|]; auto.
  - intros [= ->]. exists k0, v0. split; [apply elem_of_cons|]; auto.
Qed.

End FoldItems.

Section FoldDict.
Context {order : iteration} {V W : Type}.
Implicit Types (d : gmap string V) (f : string -> V -> result W).

Lemma elem_of_iteritems d k v : (k, v) ∈ iteritems d <-> d !! k = Some v.
Proof. rewrite iteritems_perm. apply elem_of_map_to_list. Qed.

Lemma NoDup_iteritems d : NoDup (iteritems d).*1.
Proof. rewrite iteritems_perm. apply NoDup_fst_map_to_list. Qed.

Lemma elem_of_iteritems_keys d k : k ∈ (iteritems d).*1 <-> is_Some (d !! k).
Proof.
  rewrite list_elem_of_fmap. split.
  - intros ([k' v] & -> & Hin). apply elem_of_iteritems in Hin. eauto.
  - intros [v Hv]. exists (k, v). split; [done|]. by apply elem_of_iteritems.
Qed.

(** A loop over a whole dictionary succeeds exactly with the dictionary of
    the values of its body, whatever the order of the iteration. *)
Lemma fold_items_dict d f res :
  fold_items (iteritems d) f ∅ = Ok res
  <-> map_Forall2 (fun k v w => f k v = Ok w) d res.
Proof.
  rewrite (fold_items_built _ _ (NoDup_iteritems d)). unfold built. split.
  - intros [Hin Hout] k. destruct (d !! k) as [v|] eqn:Hd.
    + destruct (Hin k v) as (w & Hw & ->); [by apply elem_of_iteritems|].
      by constructor.
    + rewrite Hout, lookup_empty; [constructor|].
      rewrite elem_of_iteritems_keys, Hd. by intros [? ?].
  - intros HF. split.
    + intros k v Hkv%elem_of_iteritems. specialize (HF k). rewrite Hkv in HF.
      inversion HF; subst. eauto.
    + intros k Hk. rewrite elem_of_iteritems_keys in Hk.
      specialize (HF k). rewrite lookup_empty.
      destruct (d !! k) eqn:Hd; [destruct Hk; eauto|]. by inversion HF.
Qed.

End FoldDict.

Lemma map_Forall2_functional {A B} (R : string -> A -> B -> Prop)
    (d : gmap string A) (r1 r2 : gmap string B) :
  (forall k a b1 b2, R k a b1 -> R k a b2 -> b1 = b2) ->
  map_Forall2 R d r1 -> map_Forall2 R d r2 -> r1 = r2.
Proof.
  intros HR H1 H2. apply map_eq. intros k. specialize (H1 k). specialize (H2 k).
  destruct H1 as [a b1 Hb1|]; inversion H2; subst; [|done].
  f_equal. eapply HR; eauto.
Qed.

(** ** The shape of the aligned output *)


Section Shape.
Context {num : Type} {arith : Arith num}.
Local Abbreviation bounds := (bounds (num := num)).
Local Abbreviation grid_of := (grid_of (num := num)).
Local Abbreviation on_grid := (on_grid (num := num)).
Local Abbreviation aligned_on := (aligned_on (num := num)).





Lemma map_Forall2_nested_impl {A B} (R R' : string -> string -> A -> B -> Prop)
    (d : gmap string (gmap string A)) (r : gmap string (gmap string B)) :
  (forall k k' a b, R k k' a b -> R' k k' a b) ->
  dict_Forall2 (fun k => dict_Forall2 (R k)) d r ->
  dict_Forall2 (fun k => dict_Forall2 (R' k)) d r.
Proof.
  intros HR HF. eapply map_Forall2_impl; [exact HF|].
  intros k a b Hab. eapply map_Forall2_impl; [exact Hab|].
  intros k'. apply HR.
Qed.

Lemma timings_grid features grid :
  timings features = Ok grid <->
  exists p, features = PyList p /\ grid = map bounds p.
Proof.
  destruct features as [|p]; simpl.
  - split; [done | by intros (p & ? & _)].
  - split; [intros [= <-]; eauto | by intros (q & [= <-] & ->)].
Qed.

Lemma interval_value_bounds mfd video_id segment_id iv t :
  interval_value mfd video_id segment_id iv = Ok t -> bounds t = iv.
Proof.
  unfold interval_value. intros Hv.
  apply res_bind_ok_inv in Hv as (vf & _ & Hv).
  apply res_bind_ok_inv in Hv as (feats & _ & Hv).
  apply res_bind_ok_inv in Hv as (a & _ & [= <-]). by destruct iv.
Qed.

Lemma segment_value_bounds mfd video_id segment_id grid :
  forall stream,
    segment_value mfd video_id segment_id grid = Ok stream ->
    map bounds stream = grid.
Proof.
  induction grid as [|iv rest IH]; intros stream; simpl.
  - by intros [= <-].
  - intros Hv. apply res_bind_ok_inv in Hv as (t & Ht & Hv).
    apply res_bind_ok_inv in Hv as (ts & Hts & [= <-]). simpl.
    f_equal; [by eapply interval_value_bounds | by apply IH].
Qed.

Lemma aligned_on_grid mfd al am : aligned_on mfd al am -> on_grid al am.
Proof.
  apply map_Forall2_nested_impl. intros v seg grid stream.
  apply segment_value_bounds.
Qed.

Lemma aligned_on_functional mfd al am1 am2 :
  aligned_on mfd al am1 -> aligned_on mfd al am2 -> am1 = am2.
Proof.
  apply map_Forall2_functional. intros v grids s1 s2.
  apply map_Forall2_functional. intros seg grid t1 t2 H1 H2. congruence.
Qed.

Section Order.
Context {order : iteration}.

Lemma fold_items_nested {A B} (g : string -> string -> A -> result B)
    (d : gmap string (gmap string A)) (r : gmap string (gmap string B)) :
  fold_items (iteritems d)
    (fun k v => fold_items (iteritems v) (g k) ∅) ∅ = Ok r
  <-> dict_Forall2 (fun k => dict_Forall2 (fun k' a b => g k k' a = Ok b)) d r.
Proof.
  rewrite fold_items_dict.
  split; intros HF; (eapply map_Forall2_impl; [exact HF|]); intros k a b;
    apply fold_items_dict.
Qed.

Lemma alignments_value_grid fd pivot al :
  alignments_value fd pivot = Ok al <->
  exists pfd, fd !! pivot = Some pfd /\ grid_of pfd al.
Proof.
  unfold alignments_value, getitem, grid_of.
  destruct (fd !! pivot) as [pfd|]; simpl.
  - rewrite (fold_items_nested (fun _ _ features => timings features)). split.
    + intros HF. exists pfd. split; [done|]. revert HF.
      apply map_Forall2_nested_impl. intros _ _ a b. apply timings_grid.
    + intros (? & [= <-] & HF). revert HF.
      apply map_Forall2_nested_impl. intros _ _ a b. apply timings_grid.
  - split; [done | by intros (? & ? & _)].
Qed.

Lemma modality_value_aligned mfd al am :
  modality_value mfd al = Ok am <-> aligned_on mfd al am.
Proof.
  unfold modality_value, aligned_on.
  apply (fold_items_nested (fun v seg grid => segment_value mfd v seg grid)).
Qed.


Lemma align_loop_value_fold keys pivot fd al :
  forall out,
    align_loop_value keys pivot fd al out
    = fold_items (other_modalities keys pivot)
        (fun m _ => res_bind (getitem m fd)
                      (fun mfd => modality_value mfd al)) out.
Proof.
  unfold other_modalities.
  induction keys as [|m rest IH]; intros out; simpl; [reflexivity|].
  destruct (String.eqb_spec m pivot) as [->|Hne].
  - rewrite filter_cons_False by (intros Hc; by apply Hc). apply IH.
  - rewrite filter_cons_True by done. simpl. rewrite res_bind_assoc.
    destruct (getitem m fd); simpl; [|reflexivity].
    destruct (modality_value _ al); simpl; [apply IH | reflexivity].
Qed.

Lemma elem_of_other_modalities keys pivot m u :
  (m, u) ∈ other_modalities keys pivot <-> m ∈ keys /\ m <> pivot.
Proof.
  unfold other_modalities. rewrite list_elem_of_fmap. split.
  - intros (m' & [= -> _] & Hin). apply list_elem_of_filter in Hin. tauto.
  - intros [Hin Hne]. exists m. destruct u. split; [done|].
    by apply list_elem_of_filter.
Qed.

Lemma other_modalities_keys keys pivot :
  (other_modalities keys pivot).*1 = filter (fun m => m <> pivot) keys.
Proof.
  unfold other_modalities. rewrite <- list_fmap_compose.
  apply list_fmap_id.
Qed.

End Order.
End Shape.

(** ** Alignment as a function of the feature dictionary *)

Section AlignFacts.
Context {num : Type} {arith : Arith num}.
Local Abbreviation bounds := (bounds (num := num)).
Local Abbreviation grid_of := (grid_of (num := num)).
Local Abbreviation on_grid := (on_grid (num := num)).
Local Abbreviation aligned_on := (aligned_on (num := num)).
Local Abbreviation keeps_self := (keeps_self (num := num)).

Lemma other_modalities_perm keys1 keys2 pivot :
  keys1 ≡ₚ keys2 ->
  other_modalities keys1 pivot ≡ₚ other_modalities keys2 pivot.
Proof. intros Hp. unfold other_modalities. by rewrite Hp. Qed.

Lemma NoDup_other_modalities keys pivot :
  NoDup keys -> NoDup (other_modalities keys pivot).*1.
Proof. intros Hnd. rewrite other_modalities_keys. by apply NoDup_filter. Qed.

Lemma alignments_value_order (O1 O2 : iteration)
    (fd : gmap string (gmap string (gmap string (pyfeats num)))) pivot al :
  alignments_value (order := O1) fd pivot = Ok al ->
  alignments_value (order := O2) fd pivot = Ok al.
Proof.
  intros Hal. apply (alignments_value_grid (order := O2)).
  by apply (alignments_value_grid (order := O1)).
Qed.

Lemma modality_value_order (O1 O2 : iteration)
    (mfd : gmap string (gmap string (pyfeats num))) al am :
  modality_value (order := O1) mfd al = Ok am ->
  modality_value (order := O2) mfd al = Ok am.
Proof.
  intros Hm. apply (modality_value_aligned (order := O2)).
  by apply (modality_value_aligned (order := O1)).
Qed.

Lemma align_value_order (O1 O2 : iteration) (d : Dataset num) pivot out :
  align_value (order := O1) d pivot = Ok out ->
  align_value (order := O2) d pivot = Ok out.
Proof.
  unfold align_value.
  destruct (modalities d) as [mods|]; simpl; [|done].
  destruct (feature_dict d) as [fd|]; simpl; [|done].
  intros Hv. apply res_bind_ok_inv in Hv as (al & Hal & Hv).
  rewrite (alignments_value_order O1 O2 _ _ _ Hal). simpl.
  rewrite (align_loop_value_fold (order := O1)) in Hv.
  rewrite (align_loop_value_fold (order := O2)).
  apply (fold_items_perm (other_modalities (@iteritems O1 _ mods).*1 pivot)).
  - apply other_modalities_perm.
    rewrite (@iteritems_perm O1), <- (@iteritems_perm O2). reflexivity.
  - apply NoDup_other_modalities. apply (NoDup_iteritems (order := O1)).
  - revert Hv. apply fold_items_mono. intros m [] am _ Hm.
    destruct (getitem m fd) as [mfd|]; simpl in *; [|done].
    by apply (modality_value_order O1 O2).
Qed.

Section OneOrder.
Context {order : iteration}.

Lemma align_value_inputs (d1 d2 : Dataset num) pivot :
  modalities d1 = modalities d2 -> feature_dict d1 = feature_dict d2 ->
  align_value d1 pivot = align_value d2 pivot.
Proof. unfold align_value. by intros -> ->. Qed.

(** What a successful [align] has returned. *)
Lemma align_value_built (d : Dataset num) pivot out :
  align_value d pivot = Ok out <->
  exists mods fd al,
    modalities d = Some mods /\ feature_dict d = Some fd /\
    alignments_value fd pivot = Ok al /\
    built (other_modalities (iteritems mods).*1 pivot)
      (fun m _ => res_bind (getitem m fd) (fun mfd => modality_value mfd al))
      ∅ out.
Proof.
  unfold align_value. split.
  - destruct (modalities d) as [mods|]; simpl; [|done].
    destruct (feature_dict d) as [fd|]; simpl; [|done].
    intros Hv. apply res_bind_ok_inv in Hv as (al & Hal & Hv).
    exists mods, fd, al. repeat split; try done.
    + rewrite align_loop_value_fold in Hv.
      apply fold_items_built in Hv; [apply Hv|].
      apply NoDup_other_modalities, NoDup_iteritems.
    + rewrite align_loop_value_fold in Hv.
      apply fold_items_built in Hv; [apply Hv|].
      apply NoDup_other_modalities, NoDup_iteritems.
  - intros (mods & fd & al & -> & -> & Hal & Hb). simpl. rewrite Hal. simpl.
    rewrite align_loop_value_fold. apply fold_items_built; [|done].
    apply NoDup_other_modalities, NoDup_iteritems.
Qed.

Lemma keeps_self_align_loop keys pivot :
  forall al out, keeps_self (align_loop (num := num) keys pivot al out).
Proof.
  induction keys as [|m rest IH]; intros al out; simpl.
  - apply keeps_self_ret.
  - destruct (String.eqb m pivot); [apply IH|].
    apply keeps_self_bind; [apply keeps_self_align_modality | intros; apply IH].
Qed.

(** [align] assigns [self.aligned_feature_dict] and nothing else. *)
Lemma align_self pivot (s : state num) :
  self (align pivot s).1 = self s
  \/ exists out, self (align pivot s).1
                 = with_aligned_feature_dict out (self s).
Proof.
  destruct (align pivot s) as [s' r] eqn:Ha. simpl.
  unfold align in Ha. unfold bind at 1, get at 1 in Ha.
  unfold bind at 1, lift at 1 in Ha.
  destruct (modalities (self s)) as [mods|]; simpl in Ha;
    [|injection Ha as <- <-; by left].
  unfold bind at 1 in Ha.
  pose proof (keeps_self_get_alignments pivot s) as Hs.
  destruct (get_alignments pivot s) as [s1 [al|e]]; simpl in *;
    [|injection Ha as <- <-; by left].
  unfold bind at 1 in Ha.
  pose proof (keeps_self_align_loop (iteritems mods).*1 pivot al ∅ s1) as Hs2.
  destruct (align_loop _ _ _ _ s1) as [s2 [out|e]]; simpl in *;
    injection Ha as <- <-; simpl.
  - right. exists out. by rewrite Hs2, Hs.
  - left. by rewrite Hs2, Hs.
Qed.

Lemma align_keeps_inputs pivot (s : state num) :
  modalities (self (align pivot s).1) = modalities (self s)
  /\ feature_dict (self (align pivot s).1) = feature_dict (self s).
Proof. destruct (align_self pivot s) as [->|[out ->]]; done. Qed.

End OneOrder.
End AlignFacts.

(** * The claims *)

Section Claims.
Context {num : Type} {arith : Arith num}.

(** C4. After a successful [align], the output has an entry for exactly
    the non-pivot modalities, and each of them has, for every video and
    segment of the pivot's grid and for no other, a stream with one entry
    per grid interval, in the grid's order and with the grid's boundaries:
    all modalities share the length and the boundaries of their streams. *)
Theorem aligned_streams_follow_grid (order : iteration) (s : state num)
    (pivot : string)
    (out : gmap string (gmap string (gmap string (list (feature num))))) :
  (align pivot s).2 = Ok out ->
  exists mods fd pfd al,
    modalities (self s) = Some mods
    /\ feature_dict (self s) = Some fd
    /\ fd !! pivot = Some pfd
    /\ grid_of pfd al
    /\ (forall m, is_Some (out !! m) <-> is_Some (mods !! m) /\ m <> pivot)
    /\ (forall m am, out !! m = Some am -> on_grid al am).
Proof.
  rewrite align_value_eq. intros Hv.
  apply align_value_built in Hv as (mods & fd & al & Hm & Hfd & Hal & Hin & Hout).
  apply alignments_value_grid in Hal as (pfd & Hp & Hg).
  exists mods, fd, pfd, al. do 4 (split; [done|]).
  assert (Hkeys : forall m, m ∈ (other_modalities (iteritems mods).*1 pivot).*1
                            <-> is_Some (mods !! m) /\ m <> pivot).
  { intros m. rewrite list_elem_of_fmap. split.
    - intros ([m' []] & -> & Hk). apply elem_of_other_modalities in Hk.
      by rewrite elem_of_iteritems_keys in Hk.
    - intros Hk. exists (m, tt). split; [done|].
      apply elem_of_other_modalities. by rewrite elem_of_iteritems_keys. }
  split.
  - intros m. rewrite <- Hkeys. split.
    + intros [am Ham]. destruct (decide (m ∈ (other_modalities (iteritems mods).*1 pivot).*1)) as [Hk|Hk]; [done|].
      by rewrite (Hout _ Hk), lookup_empty in Ham.
    + intros ([m' []] & -> & Hk)%list_elem_of_fmap.
      destruct (Hin _ _ Hk) as (am & _ & Ham). eauto.
  - intros m am Ham.
    destruct (decide (m ∈ (other_modalities (iteritems mods).*1 pivot).*1)) as [Hk|Hk].
    + apply list_elem_of_fmap in Hk as ([m' []] & -> & Hk).
      destruct (Hin _ _ Hk) as (am' & Hv & Ham'). simpl in *.
      rewrite Ham in Ham'. injection Ham' as <-.
      apply res_bind_ok_inv in Hv as (mfd & _ & Hv).
      apply modality_value_aligned in Hv. by eapply aligned_on_grid.
    + by rewrite (Hout _ Hk), lookup_empty in Ham.
Qed.

End Claims.

Lemma aligned_streams_follow_grid_witness :
  (align "modality_0" (scenario (num := float))).2 = Ok scenario_aligned
  /\ exists mods fd pfd al,
       modalities (self (scenario (num := float))) = Some mods
       /\ feature_dict (self scenario) = Some fd
       /\ fd !! "modality_0" = Some pfd
       /\ grid_of pfd al
       /\ (forall m, is_Some (scenario_aligned !! m)
                     <-> is_Some (mods !! m) /\ m <> "modality_0")
       /\ (forall m am, scenario_aligned !! m = Some am -> on_grid al am).
Proof.
  split; [vm_compute; reflexivity|].
  apply (aligned_streams_follow_grid key_order scenario "modality_0").
  vm_compute. reflexivity.
Defined.

Section ClaimsAlign.
Context {num : Type} {arith : Arith num}.
Local Abbreviation bounds := (bounds (num := num)).
Local Abbreviation grid_of := (grid_of (num := num)).

Lemma grid_of_lookup pfd al video_id segment_id pv p :
  grid_of pfd al ->
  pfd !! video_id = Some pv -> pv !! segment_id = Some (PyList p) ->
  exists grids, al !! video_id = Some grids
                /\ grids !! segment_id = Some (map bounds p).
Proof.
  intros Hg Hpv Hps. specialize (Hg video_id). rewrite Hpv in Hg.
  inversion Hg as [? grids Hgs|]; subst.
  exists grids. split; [done|].
  specialize (Hgs segment_id). rewrite Hps in Hgs.
  inversion Hgs as [? grid (q & Hq & ->)|]; subst.
  by injection Hq as <-.
Qed.

Lemma modality_value_raise (order : iteration)
    (mfd : gmap string (gmap string (pyfeats num))) al video_id segment_id
    grids grid e :
  al !! video_id = Some grids -> grids !! segment_id = Some grid ->
  segment_value mfd video_id segment_id grid = Raise e ->
  exists e', modality_value mfd al = Raise e'.
Proof.
  intros Hal Hgr Hseg. unfold modality_value.
  destruct (fold_items_raise (iteritems grids)
              (fun seg ivs => segment_value mfd video_id seg ivs)
              segment_id grid e) with (out := (∅ : gmap string (list (feature num))))
    as [e1 He1]; [by apply elem_of_iteritems | done |].
  eapply (fold_items_raise _ _ video_id grids e1);
    [by apply elem_of_iteritems | done].
Qed.

(** C9. The result of [align] is a function of the modalities, the feature
    dictionary and the pivot: from two states that agree on these, it is the
    same result, whatever was printed or aligned before; and a successful
    result does not depend on the order in which dictionaries are
    iterated. *)
Theorem align_deterministic (O1 O2 : iteration) (s1 s2 : state num)
    (pivot : string) :
  modalities (self s1) = modalities (self s2) ->
  feature_dict (self s1) = feature_dict (self s2) ->
  (align (order := O1) pivot s1).2 = (align (order := O1) pivot s2).2
  /\ forall out,
       (align (order := O1) pivot s1).2 = Ok out ->
       (align (order := O2) pivot s2).2 = Ok out.
Proof.
  intros Hm Hfd. rewrite !align_value_eq. split.
  - by apply align_value_inputs.
  - intros out Hv. apply (align_value_order O1 O2).
    by rewrite <- (align_value_inputs (self s1) (self s2)).
Qed.

(** Running [align] a second time returns what the first run returned. *)
Lemma align_twice (order : iteration) (s : state num) (pivot : string) :
  (align pivot (align pivot s).1).2 = (align pivot s).2.
Proof.
  rewrite !align_value_eq.
  destruct (align_keeps_inputs pivot s) as [Hm Hfd].
  by apply align_value_inputs.
Qed.

Lemma merge_feats_total (a b d : num) (n : nat) (feats : list (feature num)) :
  eqb d zero = false ->
  Forall (fun g => length (feat_val g) = n) feats ->
  forall acc, length acc = n ->
    exists v, merge_feats a b d feats acc = Ok v /\ length v = n.
Proof.
  intros Hd. induction 1 as [|g rest Hg _ IH]; intros acc Hacc; simpl; [eauto|].
  destruct (overlaps a b g); [|by apply IH].
  unfold feat_weight, py_div. rewrite Hd. simpl.
  unfold np_add, np_multiply. rewrite length_map, Hacc, Hg, Nat.eqb_refl. simpl.
  apply IH. rewrite length_zip_with, length_map. lia.
Qed.

Lemma grid_of_lookup_inv pfd al video_id segment_id grids grid :
  grid_of pfd al ->
  al !! video_id = Some grids -> grids !! segment_id = Some grid ->
  exists pv p, pfd !! video_id = Some pv
               /\ pv !! segment_id = Some (PyList p)
               /\ grid = map bounds p.
Proof.
  intros Hg Hal Hgr. specialize (Hg video_id). rewrite Hal in Hg.
  inversion Hg as [pv ? Hgs|]; subst.
  specialize (Hgs segment_id). rewrite Hgr in Hgs.
  inversion Hgs as [? ? (q & -> & ->)|]; subst. eauto.
Qed.

Lemma segment_value_raise_inv
    (mfd : gmap string (gmap string (pyfeats num))) video_id segment_id
    grid e :
  segment_value mfd video_id segment_id grid = Raise e ->
  exists iv, iv ∈ grid /\ interval_value mfd video_id segment_id iv = Raise e.
Proof.
  induction grid as [|iv rest IH]; simpl; [done|].
  destruct (interval_value mfd video_id segment_id iv) as [t|e0] eqn:Hiv;
    simpl.
  - destruct (segment_value mfd video_id segment_id rest) as [ts|e1]; simpl;
      [done|].
    intros [= ->]. destruct IH as (iv' & Hin & Hr); [done|].
    exists iv'. split; [by apply list_elem_of_further | done].
  - intros [= ->]. exists iv. split; [apply list_elem_of_here | done].
Qed.

(** On a ready stream and an interval of non-zero duration, the only
    failures of an interval are the two lookups. *)
Lemma interval_value_raise_lookup
    (mfd : gmap string (gmap string (pyfeats num))) video_id segment_id
    (iv : num * num) e :
  streams_ready mfd ->
  eqb (sub iv.2 iv.1) zero = false ->
  interval_value mfd video_id segment_id iv = Raise e ->
  exists k, e = KeyError k.
Proof.
  intros Hready Hd. unfold interval_value, getitem.
  destruct (mfd !! video_id) as [vf|] eqn:Hvf; simpl;
    [|intros [= <-]; eauto].
  unfold resolve_feats, getitem.
  destruct (vf !! segment_id) as [feats|] eqn:Hs; simpl;
    [|intros [= <-]; eauto].
  pose proof (Hready _ _ _ _ Hvf Hs) as Hr.
  destruct feats as [|[|f rest]]; simpl in Hr; try done.
  assert (Hm : exists v, merge_value (PyList (f :: rest)) iv = Ok v).
  { destruct (merge_feats_total iv.1 iv.2 (sub iv.2 iv.1)
                (length (feat_val f)) (f :: rest) Hd) with
      (acc := np_zeros (num := num) (length (feat_val f)))
      as (v & Hv & _).
    - apply Forall_cons. split; [done | exact Hr].
    - unfold np_zeros. apply length_replicate.
    - exists v. exact Hv. }
  destruct Hm as [v Hv].
  change (probe (PyList (f :: rest))) with (Ok (A := nat) (length (feat_val f))).
  cbn [res_bind]. rewrite Hv. discriminate.
Qed.

Lemma modality_value_raise_lookup (order : iteration)
    (pfd mfd : gmap string (gmap string (pyfeats num))) al e :
  grid_of pfd al -> grid_ready pfd -> streams_ready mfd ->
  modality_value mfd al = Raise e -> exists k, e = KeyError k.
Proof.
  intros Hg Hpr Hmr Hr. unfold modality_value in Hr.
  apply fold_items_raise_inv in Hr as (video_id & grids & Hin & Hr).
  apply elem_of_iteritems in Hin.
  apply fold_items_raise_inv in Hr as (segment_id & grid & Hin2 & Hr).
  apply elem_of_iteritems in Hin2.
  destruct (grid_of_lookup_inv _ _ _ _ _ _ Hg Hin Hin2)
    as (pv & p & Hpv & Hps & ->).
  apply segment_value_raise_inv in Hr as (iv & Hiv & Hr).
  apply list_elem_of_fmap in Hiv as (t & -> & Ht).
  destruct (Hpr _ _ _ _ Hpv Hps) as (p' & [= <-] & Hdur).
  rewrite Forall_forall in Hdur.
  eapply interval_value_raise_lookup; [exact Hmr | | exact Hr].
  simpl. by apply Hdur.
Qed.

Lemma alignments_value_ready (order : iteration)
    (fd : gmap string (gmap string (gmap string (pyfeats num)))) pivot pfd :
  fd !! pivot = Some pfd -> grid_ready pfd ->
  exists al, alignments_value fd pivot = Ok al.
Proof.
  intros Hp Hpr. unfold alignments_value, getitem. rewrite Hp. simpl.
  destruct (fold_items _ _ _) as [al|e] eqn:Hf; [eauto|].
  apply fold_items_raise_inv in Hf as (video_id & pv & Hin & Hf).
  apply elem_of_iteritems in Hin.
  apply fold_items_raise_inv in Hf as (segment_id & feats & Hin2 & Hf).
  apply elem_of_iteritems in Hin2.
  destruct (Hpr _ _ _ _ Hin Hin2) as (p & -> & _). discriminate.
Qed.

(** C5, as the code has it. When the pivot modality has a non-empty stream
    for a (video, segment) for which some other modality of the object has
    no entry, the lookup of that entry is a [KeyError] and [align] fails:
    no exception is caught there. The exception that [align] raises is a
    [KeyError] when nothing else can fail: the streams of the pivot are
    lists of tuples of non-zero duration, and the streams of the other
    modalities are non-empty lists of vectors of one length. *)
Theorem align_fails_on_missing_target (order : iteration) (s : state num)
    (pivot m video_id segment_id : string)
    (mods : gmap string modality_info)
    (fd : gmap string (gmap string (gmap string (pyfeats num))))
    (pfd mfd : gmap string (gmap string (pyfeats num)))
    (pv : gmap string (pyfeats num)) (t : feature num) (p : list (feature num)) :
  modalities (self s) = Some mods ->
  feature_dict (self s) = Some fd ->
  fd !! pivot = Some pfd ->
  pfd !! video_id = Some pv ->
  pv !! segment_id = Some (PyList (t :: p)) ->
  is_Some (mods !! m) -> m <> pivot ->
  fd !! m = Some mfd ->
  (forall vf, mfd !! video_id = Some vf -> vf !! segment_id = None) ->
  (exists k, interval_value mfd video_id segment_id (bounds t)
             = Raise (KeyError k))
  /\ (exists e, (align pivot s).2 = Raise e)
  /\ (grid_ready pfd ->
      (forall m' mfd', is_Some (mods !! m') -> m' <> pivot ->
                       fd !! m' = Some mfd' -> streams_ready mfd') ->
      exists k, (align pivot s).2 = Raise (KeyError k)).
Proof.
  intros Hm Hfd Hp Hpv Hps Hin Hne Hmfd Hmiss.
  assert (Hiv : exists k, interval_value mfd video_id segment_id (bounds t)
                          = Raise (KeyError k)).
  { unfold interval_value, getitem.
    destruct (mfd !! video_id) as [vf|] eqn:Hvf; simpl; [|eauto].
    unfold resolve_feats, getitem. rewrite (Hmiss vf eq_refl). simpl. eauto. }
  split; [done|]. destruct Hiv as [k Hiv].
  assert (Hraise : forall al, grid_of pfd al ->
            exists e, fold_items (other_modalities (iteritems mods).*1 pivot)
                        (fun m _ => res_bind (getitem m fd)
                                      (fun mfd => modality_value mfd al)) ∅
                      = Raise e).
  { intros al Hg.
    destruct (grid_of_lookup _ _ _ _ _ _ Hg Hpv Hps) as (grids & Hgv & Hgs).
    destruct (modality_value_raise order mfd al video_id segment_id grids
                (map bounds (t :: p)) (KeyError k)) as [e1 He1];
      [done | done | simpl; by rewrite Hiv |].
    eapply (fold_items_raise _ _ m tt).
    - apply elem_of_other_modalities. split; [|done].
      by apply elem_of_iteritems_keys.
    - unfold getitem. rewrite Hmfd. simpl. exact He1. }
  rewrite align_value_eq. unfold align_value. rewrite Hm, Hfd. simpl. split.
  - destruct (alignments_value fd pivot) as [al|e] eqn:Hal; simpl; [|eauto].
    apply alignments_value_grid in Hal as (pfd' & Hp' & Hg).
    rewrite Hp in Hp'. injection Hp' as <-.
    rewrite align_loop_value_fold. by apply Hraise.
  - intros Hpr Hmr.
    destruct (alignments_value_ready order fd pivot pfd Hp Hpr) as [al Hal].
    rewrite Hal. simpl.
    apply alignments_value_grid in Hal as (pfd' & Hp' & Hg).
    rewrite Hp in Hp'. injection Hp' as <-.
    rewrite align_loop_value_fold.
    destruct (Hraise al Hg) as [e He]. rewrite He.
    apply fold_items_raise_inv in He as (m' & [] & Hin' & He).
    apply elem_of_other_modalities in Hin' as [Hk' Hne'].
    apply elem_of_iteritems_keys in Hk'.
    unfold getitem in He.
    destruct (fd !! m') as [mfd'|] eqn:Hfd'; simpl in He.
    + destruct (modality_value_raise_lookup order pfd mfd' al e Hg Hpr)
        as [k' ->]; [by eapply Hmr | done | eauto].
    + injection He as <-. eauto.
Qed.

End ClaimsAlign.

Lemma align_deterministic_witness :
  modalities (self (scenario (num := float)))
  = modalities (self (align "modality_0" scenario).1)
  /\ feature_dict (self (scenario (num := float)))
     = feature_dict (self (align "modality_0" scenario).1)
  /\ (align (order := key_order) "modality_0" (scenario (num := float))).2
     = (align (order := key_order) "modality_0"
          (align "modality_0" scenario).1).2
  /\ forall out,
       (align (order := key_order) "modality_0" (scenario (num := float))).2
       = Ok out ->
       (align (order := reverse_order) "modality_0"
          (align "modality_0" scenario).1).2 = Ok out.
Proof.
  split; [reflexivity|]. split; [reflexivity|].
  apply (align_deterministic key_order reverse_order); reflexivity.
Defined.

(** C5 fails as stated: the pivot [modality_0] has no entry for segment
    ["2"] of the video, which [modality_1] has, and [align] returns, with
    that segment left out of the output. *)
Lemma align_succeeds_on_missing_pivot :
  pivot_lacks (one_sided_features (num := float)) "modality_0" "video" "2"
  /\ (align "modality_0" (one_sided (num := float))).2 = Ok scenario_aligned.
Proof.
  split; [|vm_compute; reflexivity]. split.
  - exists "modality_1". eexists _, _, _.
    split; [done|]. split; [vm_compute; reflexivity|].
    split; vm_compute; reflexivity.
  - intros pfd pv Hp Hv. vm_compute in Hp. injection Hp as <-.
    vm_compute in Hv. injection Hv as <-. vm_compute. reflexivity.
Qed.

Lemma align_fails_on_missing_target_witness :
  modalities (self (one_sided (num := float))) = Some two_modalities
  /\ (exists k, interval_value
                  {[ "video" := {[ "1" := PyList scenario_pivot ]} ]}
                  "video" "2" (bounds (lit 0, lit (1 # 2), [lit 2]))
                = Raise (KeyError k))
  /\ (exists e, (align "modality_1" (one_sided (num := float))).2 = Raise e)
  /\ exists k, (align "modality_1" (one_sided (num := float))).2
               = Raise (KeyError k).
Proof.
  split; [reflexivity|].
  assert (Hpivot : grid_ready (num := float)
                     {[ "video" := {[ "1" := PyList scenario_target;
                                      "2" := PyList scenario_target ]} ]}).
  { intros v pv sg feats [<- <-]%lookup_singleton_Some Hs.
    exists scenario_target. split.
    - apply lookup_insert_Some in Hs as [[_ <-]|[_ Hs]]; [done|].
      by apply lookup_singleton_Some in Hs as [_ <-].
    - repeat (apply Forall_cons; split; [vm_compute; reflexivity|]).
      by apply Forall_nil. }
  assert (Hother : streams_ready (num := float)
                     {[ "video" := {[ "1" := PyList scenario_pivot ]} ]}).
  { intros v vf sg feats [<- <-]%lookup_singleton_Some
      [_ <-]%lookup_singleton_Some.
    simpl. apply Forall_cons. split; [reflexivity | by apply Forall_nil]. }
  destruct (align_fails_on_missing_target key_order one_sided "modality_1"
              "modality_0" "video" "2" two_modalities one_sided_features
              {[ "video" := {[ "1" := PyList scenario_target;
                               "2" := PyList scenario_target ]} ]}
              {[ "video" := {[ "1" := PyList scenario_pivot ]} ]}
              {[ "1" := PyList scenario_target;
                 "2" := PyList scenario_target ]}
              (lit 0, lit (1 # 2), [lit 2])
              [(lit (1 # 2), lit (3 # 2), [lit 4]);
               (lit (3 # 2), lit 2, [lit 6])])
    as (H1 & H2 & H3).
  - reflexivity.
  - reflexivity.
  - vm_compute. reflexivity.
  - vm_compute. reflexivity.
  - vm_compute. reflexivity.
  - vm_compute. eauto.
  - done.
  - vm_compute. reflexivity.
  - intros vf Hvf. vm_compute in Hvf. injection Hvf as <-. vm_compute. reflexivity.
  - split; [exact H1|]. split; [exact H2|]. apply H3; [exact Hpivot|].
    intros m' mfd' Hin Hne Hfd.
    unfold one_sided_features in Hfd.
    apply lookup_insert_Some in Hfd as [[_ <-]|[_ Hfd]]; [exact Hother|].
    apply lookup_singleton_Some in Hfd as [<- _]. done.
Defined.

(** Another failure can come first: with a pivot stream that is [None],
    [get_alignments] raises a [TypeError] before any stream is looked up,
    though the other modality has no entry for segment 1 of the pivot. *)
Example align_type_error_first :
  (align (order := key_order) "modality_0" none_and_missing).2
  = Raise TypeError
  /\ (align (order := reverse_order) "modality_0" none_and_missing).2
     = Raise TypeError.
Proof. split; vm_compute; reflexivity. Qed.

(** C3. On the pivot grid [(0,1), (1,2)] and the target stream
    [(0, 0.5, [2.0]), (0.5, 1.5, [4.0]), (1.5, 2.0, [6.0])], [align] returns
    the value 3.0 on (0,1) and 5.0 on (1,2) in binary64; each is the sum,
    over the source intervals that overlap, of the value times the overlap
    divided by the span of the grid interval. *)
Theorem scenario_values :
  (align "modality_0" (scenario (num := float))).2 = Ok scenario_aligned
  /\ merge_value (PyList (scenario_target (num := Q))) (0, 1)%Q
     = Ok [(0 + 2 * (((1 # 2) - 0) / (1 - 0))
              + 4 * ((1 - (1 # 2)) / (1 - 0)))%Q]
  /\ merge_value (PyList (scenario_target (num := Q))) (1, 2)%Q
     = Ok [(0 + 4 * (((3 # 2) - 1) / (2 - 1))
              + 6 * ((2 - (3 # 2)) / (2 - 1)))%Q]
  /\ (0 + 2 * (((1 # 2) - 0) / (1 - 0)) + 4 * ((1 - (1 # 2)) / (1 - 0)) == 3)%Q
  /\ (0 + 4 * (((3 # 2) - 1) / (2 - 1)) + 6 * ((2 - (3 # 2)) / (2 - 1)) == 5)%Q.
Proof.
  split; [vm_compute; reflexivity|].
  split; [reflexivity|]. split; [reflexivity|]. split; reflexivity.
Qed.

Section Diagnostics.
Context {num : Type} {arith : Arith num}.
Local Abbreviation warn := (warn (num := num)).
Local Abbreviation visited := (visited (num := num)).
Local Abbreviation fallback_pair := (fallback_pair (num := num)).
Local Abbreviation diag_inv := (diag_inv (num := num)).
Local Abbreviation hist_le := (hist_le (num := num)).


Lemma lift_state {A} (r : result A) (s : state num) : (lift r s).1 = s.
Proof. reflexivity. Qed.

Lemma substitute_state modality (vf : gmap string (pyfeats num))
    video_id segment_id s :
  (substitute modality vf video_id segment_id s).1
  = warn modality video_id segment_id s.
Proof.
  unfold substitute, warn, bind, get, lift, ret, print, set_warning_hist, modify.
  destruct (decide _); simpl.
  - destruct (Py.int segment_id); reflexivity.
  - destruct (Py.int segment_id); reflexivity.
Qed.

Lemma align_interval_state modality
    (mfd : gmap string (gmap string (pyfeats num))) video_id segment_id iv s :
  (align_interval modality mfd video_id segment_id iv s).1
  = match mfd !! video_id with
    | Some vf =>
        match vf !! segment_id with
        | Some feats =>
            if is_ok (probe feats) then s
            else warn modality video_id segment_id s
        | None => s
        end
    | None => s
    end.
Proof.
  unfold align_interval. destruct iv as [a b].
  unfold bind at 1, lift at 1, getitem at 1.
  destruct (mfd !! video_id) as [vf|]; simpl; [|reflexivity].
  unfold bind at 1, lift at 1, getitem at 1.
  destruct (vf !! segment_id) as [feats|]; simpl; [|reflexivity].
  unfold bind at 1.
  destruct (probe feats) as [n|e] eqn:Hp; simpl.
  - unfold ret at 1. unfold bind, lift, ret. rewrite Hp.
    destruct (iter_feats feats); simpl; [|reflexivity].
    destruct (merge_feats _ _ _ _ _); reflexivity.
  - pose proof (substitute_state modality vf video_id segment_id s) as Hs.
    destruct (substitute modality vf video_id segment_id s) as [s1 [f2|e2]];
      simpl in *; subst s1; [|reflexivity].
    unfold bind, lift, ret.
    destruct (probe f2); simpl; [|reflexivity].
    destruct (iter_feats f2); simpl; [|reflexivity].
    destruct (merge_feats _ _ _ _ _); reflexivity.
Qed.







Lemma hist_le_refl s : hist_le s s.
Proof. unfold hist_le. set_solver. Qed.

Lemma hist_le_trans s1 s2 s3 : hist_le s1 s2 -> hist_le s2 s3 -> hist_le s1 s3.
Proof. unfold hist_le. set_solver. Qed.

Lemma warn_hist_le modality v seg s : hist_le s (warn modality v seg s).
Proof.
  unfold hist_le, warn. destruct (decide _); simpl; set_solver.
Qed.

Lemma warn_member modality v seg s :
  (v, seg) ∈ warning_hist (warn modality v seg s).
Proof. unfold warn. destruct (decide _); simpl; set_solver. Qed.

Lemma warn_inv modality mfd al out0 v seg s :
  fallback_pair mfd al v seg ->
  diag_inv modality mfd al out0 s ->
  diag_inv modality mfd al out0 (warn modality v seg s).
Proof.
  intros Hfb (new & Hout & Hnd & Hmem & Hall). unfold warn.
  destruct (decide _) as [Hin|Hnin]; [by exists new|].
  exists (new ++ [(v, seg)]). simpl. split; [|split; [|split]].
  - rewrite Hout, map_app, app_assoc. reflexivity.
  - apply NoDup_app. split; [done|]. split; [|apply NoDup_singleton].
    intros p Hp Hp'. apply list_elem_of_singleton in Hp' as ->.
    by apply Hmem in Hp.
  - intros p. rewrite elem_of_app, list_elem_of_singleton, elem_of_union,
      elem_of_singleton. specialize (Hmem p). tauto.
  - intros v' seg' [Hin|Hin%list_elem_of_singleton]%elem_of_app;
      [by apply Hall | by injection Hin as -> ->].
Qed.

Lemma align_interval_inv modality mfd al out0 v seg iv s :
  visited al v seg ->
  diag_inv modality mfd al out0 s ->
  diag_inv modality mfd al out0 (align_interval modality mfd v seg iv s).1.
Proof.
  intros Hvis Hinv. rewrite align_interval_state.
  destruct (mfd !! v) as [vf|] eqn:Hvf; [|done].
  destruct (vf !! seg) as [feats|] eqn:Hfe; [|done].
  destruct (is_ok (probe feats)) eqn:Hp; [done|].
  apply warn_inv; [|done]. split; [done|]. eauto.
Qed.

Lemma align_interval_hist_le modality
    (mfd : gmap string (gmap string (pyfeats num))) v seg iv s :
  hist_le s (align_interval modality mfd v seg iv s).1.
Proof.
  rewrite align_interval_state.
  destruct (mfd !! v) as [vf|]; [|apply hist_le_refl].
  destruct (vf !! seg) as [feats|]; [|apply hist_le_refl].
  destruct (is_ok (probe feats)); [apply hist_le_refl | apply warn_hist_le].
Qed.

Lemma for_intervals_inv modality mfd al out0 v seg ivs :
  (ivs <> [] -> visited al v seg) ->
  forall acc s,
    diag_inv modality mfd al out0 s ->
    diag_inv modality mfd al out0
      (for_intervals modality mfd v seg ivs acc s).1.
Proof.
  induction ivs as [|iv rest IH]; intros Hvis acc s Hinv; simpl; [done|].
  unfold bind.
  pose proof (align_interval_inv modality mfd al out0 v seg iv s
                (Hvis ltac:(done)) Hinv) as Hstep.
  destruct (align_interval modality mfd v seg iv s) as [s1 [t|e]]; simpl in *;
    [|done].
  apply IH; [|done]. intros _. by apply Hvis.
Qed.

Lemma for_intervals_hist_le modality
    (mfd : gmap string (gmap string (pyfeats num))) v seg ivs :
  forall acc s, hist_le s (for_intervals modality mfd v seg ivs acc s).1.
Proof.
  induction ivs as [|iv rest IH]; intros acc s; simpl; [apply hist_le_refl|].
  unfold bind.
  pose proof (align_interval_hist_le modality mfd v seg iv s) as Hstep.
  destruct (align_interval modality mfd v seg iv s) as [s1 [t|e]]; simpl in *;
    [|done].
  eapply hist_le_trans; [exact Hstep | apply IH].
Qed.

(** A successful pass over a non-empty grid of a pair the fallback applies
    to leaves the pair in [warning_hist]. *)
Lemma for_intervals_warns modality
    (mfd : gmap string (gmap string (pyfeats num))) v seg iv ivs vf feats
    acc s s' r :
  mfd !! v = Some vf -> vf !! seg = Some feats ->
  is_ok (probe feats) = false ->
  for_intervals modality mfd v seg (iv :: ivs) acc s = (s', r) ->
  (v, seg) ∈ warning_hist s'.
Proof.
  intros Hvf Hfe Hp. simpl. unfold bind.
  pose proof (align_interval_state modality mfd v seg iv s) as Hst.
  rewrite Hvf, Hfe, Hp in Hst.
  destruct (align_interval modality mfd v seg iv s) as [s1 [t|e]]; simpl in *.
  - intros Hrest.
    pose proof (for_intervals_hist_le modality mfd v seg ivs (acc ++ [t]) s1)
      as Hle.
    rewrite Hrest in Hle. simpl in Hle. apply Hle. subst s1.
    apply warn_member.
  - intros [= <- _]. subst s1. apply warn_member.
Qed.

End Diagnostics.

Section LoopFacts.
Context {S V W : Type}.
Implicit Types (items : list (string * V)) (body : string -> V -> M S W).

Lemma for_items_state_inv (I : S -> Prop) items body :
  (forall k v s, (k, v) ∈ items -> I s -> I (body k v s).1) ->
  forall out s, I s -> I (for_items items body out s).1.
Proof.
  induction items as [|[k v] rest IH]; intros Hb out s Hs; simpl; [done|].
  unfold bind. pose proof (Hb k v s ltac:(apply elem_of_cons; auto) Hs) as H1.
  destruct (body k v s) as [s1 [w|e]]; simpl in *; [|done].
  apply IH; [|done]. intros k' v' s' Hin. apply Hb. apply elem_of_cons; auto.
Qed.

Lemma for_items_visits (R : S -> S -> Prop) items body :
  (forall s, R s s) -> (forall s1 s2 s3, R s1 s2 -> R s2 s3 -> R s1 s3) ->
  (forall k v s, R s (body k v s).1) ->
  forall out s,
    R s (for_items items body out s).1
    /\ forall s' res,
         for_items items body out s = (s', Ok res) ->
         forall k v, (k, v) ∈ items ->
           exists s1 s2 w, body k v s1 = (s2, Ok w) /\ R s2 s'.
Proof.
  intros Hrefl Htrans Hb.
  induction items as [|[k0 v0] rest IH]; intros out s; simpl.
  - split; [apply Hrefl|]. intros s' res _ k v Hin. by apply elem_of_nil in Hin.
  - unfold bind. pose proof (Hb k0 v0 s) as H1.
    destruct (body k0 v0 s) as [s1 [w|e]] eqn:Hbody; simpl in *; [|done].
    destruct (IH (<[k0 := w]> out) s1) as [Hle Hvis]. split.
    + by eapply Htrans.
    + intros s' res Hrun k v [[= -> ->]|Hin]%elem_of_cons.
      * exists s, s1, w. split; [done|]. rewrite Hrun in Hle. exact Hle.
      * by eapply Hvis.
Qed.

End LoopFacts.

Section RunDiagnostics.
Context {num : Type} {arith : Arith num} {order : iteration}.
Local Abbreviation warn := (warn (num := num)).
Local Abbreviation visited := (visited (num := num)).
Local Abbreviation fallback_pair := (fallback_pair (num := num)).
Local Abbreviation diag_inv := (diag_inv (num := num)).
Local Abbreviation hist_le := (hist_le (num := num)).

(** [align_modality] once its modality dictionary is found: the loops, run
    from the state with an empty [warning_hist]. *)
Lemma align_modality_run modality al (s : state num) fd mfd :
  feature_dict (self s) = Some fd -> fd !! modality = Some mfd ->
  align_modality modality al s
  = for_items (iteritems al)
      (fun v segments =>
         for_items (iteritems segments)
           (fun seg ivs => for_intervals modality mfd v seg ivs []) ∅)
      ∅
      {| self := self s; stdout := stdout s;
         loader_calls := loader_calls s; warning_hist := ∅ |}.
Proof.
  intros Hfd Hmfd. unfold align_modality.
  unfold bind at 1, get at 1. unfold bind at 1, lift at 1. rewrite Hfd. simpl.
  unfold bind at 1, lift at 1, getitem at 1. rewrite Hmfd. simpl.
  reflexivity.
Qed.

(** The diagnostics of one run of [align_modality]: one for each pair the
    fallback applies to, and no other. *)
Lemma align_modality_diagnostics modality al (s : state num) fd mfd :
  feature_dict (self s) = Some fd -> fd !! modality = Some mfd ->
  exists new,
    stdout (align_modality modality al s).1
    = stdout s ++ map (diagnostic modality) new
    /\ NoDup new
    /\ (forall v seg, (v, seg) ∈ new -> fallback_pair mfd al v seg)
    /\ (is_ok (align_modality modality al s).2 = true ->
        forall v seg, fallback_pair mfd al v seg -> (v, seg) ∈ new).
Proof.
  intros Hfd Hmfd. rewrite (align_modality_run modality al s fd mfd Hfd Hmfd).
  set (s0 := {| self := self s; stdout := stdout s;
                loader_calls := loader_calls s; warning_hist := ∅ |}).
  set (seg_body := fun v => fun seg ivs =>
         for_intervals modality mfd v seg ivs []).
  set (video_body := fun v (segments : gmap string (list (num * num))) =>
         for_items (iteritems segments) (seg_body v)
           (∅ : gmap string (list (feature num)))).
  assert (Hseg_le : forall v seg ivs s1, hist_le s1 (seg_body v seg ivs s1).1).
  { intros. apply for_intervals_hist_le. }
  assert (Hvid_le : forall v segs s1, hist_le s1 (video_body v segs s1).1).
  { intros v segs s1.
    apply (for_items_visits hist_le (iteritems segs) (seg_body v)
             hist_le_refl hist_le_trans (Hseg_le v)). }
  assert (Hinv0 : diag_inv modality mfd al (stdout s) s0).
  { exists []. simpl. rewrite app_nil_r. split; [done|]. split; [constructor|].
    split; [intros p; set_solver | intros v seg Hin; by apply elem_of_nil in Hin]. }
  assert (Hinv : diag_inv modality mfd al (stdout s)
            (for_items (iteritems al) video_body ∅ s0).1).
  { apply for_items_state_inv; [|done].
    intros v grids s1 Hin%elem_of_iteritems Hs1.
    apply for_items_state_inv; [|done].
    intros seg ivs s2 Hin2%elem_of_iteritems Hs2.
    apply for_intervals_inv; [|done].
    intros Hne. destruct ivs as [|iv rest]; [done|]. by exists grids, iv, rest. }
  destruct Hinv as (new & Hout & Hnd & Hmem & Hall).
  exists new. split; [done|]. split; [done|]. split; [done|].
  intros Hok v seg [(grids & iv & grid & Hal & Hgr) (vf & feats & Hvf & Hfe & Hp)].
  apply Hmem. revert Hok.
  change (is_ok (for_items (iteritems al) video_body ∅ s0).2 = true ->
          (v, seg) ∈ warning_hist (for_items (iteritems al) video_body ∅ s0).1).
  destruct (for_items (iteritems al) video_body ∅ s0) as [s' [res|e]] eqn:Hrun;
    [intros _ | simpl; discriminate]. simpl.
  destruct (for_items_visits hist_le (iteritems al) video_body
              hist_le_refl hist_le_trans Hvid_le ∅ s0) as [_ Hvis].
  destruct (Hvis s' res Hrun v grids) as (s1 & s2 & w & Hv & Hle2);
    [by apply elem_of_iteritems|].
  destruct (for_items_visits hist_le (iteritems grids) (seg_body v)
              hist_le_refl hist_le_trans (Hseg_le v) ∅ s1) as [_ Hvis2].
  destruct (Hvis2 s2 w Hv seg (iv :: grid)) as (s3 & s4 & w' & Hs & Hle4);
    [by apply elem_of_iteritems|].
  apply Hle2, Hle4.
  by eapply for_intervals_warns.
Qed.

End RunDiagnostics.

Section ClaimFallback.
Context {num : Type} {arith : Arith num}.
Local Abbreviation warn := (warn (num := num)).
Local Abbreviation visited := (visited (num := num)).
Local Abbreviation fallback_pair := (fallback_pair (num := num)).
Local Abbreviation diag_inv := (diag_inv (num := num)).
Local Abbreviation hist_le := (hist_le (num := num)).

(** C1, as the code has it. For a modality whose stream for a (video,
    segment) is there but empty (or [None]), every grid interval of the pair
    is merged from the stream of the segment [str(int(segment_id) - 1)] of
    the same video and modality; the pair is printed once in a run of
    [align_modality], at its first grid interval, and never for a pair the
    fallback does not apply to; when the preceding segment has no entry the
    lookup is a [KeyError] and the run fails, and when its stream is empty
    too the run fails as well: there is no second step back. When the
    modality has no entry at all for the (video, segment), the lookup is a
    [KeyError] at once: nothing is substituted and nothing is printed. *)
Theorem fallback_to_previous_segment (order : iteration) (s : state num)
    (modality : string)
    (al : gmap string (gmap string (list (num * num))))
    (fd : gmap string (gmap string (gmap string (pyfeats num))))
    (mfd : gmap string (gmap string (pyfeats num))) :
  feature_dict (self s) = Some fd -> fd !! modality = Some mfd ->
  (forall v seg vf feats iv s1,
      mfd !! v = Some vf -> vf !! seg = Some feats ->
      is_ok (probe feats) = false ->
      (align_interval modality mfd v seg iv s1).2
      = res_bind (Py.int seg) (fun n =>
          res_bind (getitem (Py.str (n - 1)) vf) (fun prev =>
            res_bind (merge_value prev iv) (fun a => Ok (iv.1, iv.2, a))))
      /\ (align_interval modality mfd v seg iv s1).1 = warn modality v seg s1)
  /\ (exists new,
        stdout (align_modality modality al s).1
        = stdout s ++ map (diagnostic modality) new
        /\ NoDup new
        /\ (forall v seg, (v, seg) ∈ new -> fallback_pair mfd al v seg)
        /\ (is_ok (align_modality modality al s).2 = true ->
            forall v seg, fallback_pair mfd al v seg -> (v, seg) ∈ new))
  /\ (forall v seg vf n,
        fallback_pair mfd al v seg -> mfd !! v = Some vf ->
        Py.int seg = Ok n ->
        match vf !! Py.str (n - 1) with
        | Some prev => is_ok (probe prev) = false
        | None => True
        end ->
        exists e, (align_modality modality al s).2 = Raise e)
  /\ (forall v seg vf iv s1,
        mfd !! v = Some vf -> vf !! seg = None ->
        align_interval modality mfd v seg iv s1 = (s1, Raise (KeyError seg))).
Proof.
  intros Hfd Hmfd. split; [|split; [|split]].
  - intros v seg vf feats iv s1 Hvf Hfe Hp. split.
    + rewrite align_interval_value. unfold interval_value, getitem.
      rewrite Hvf. simpl. unfold resolve_feats, getitem. rewrite Hfe. simpl.
      destruct (probe feats); [done|]. rewrite res_bind_assoc.
      destruct (Py.int seg) as [n|]; simpl; [|done].
      reflexivity.
    + rewrite align_interval_state, Hvf, Hfe, Hp. reflexivity.
  - by eapply align_modality_diagnostics.
  - intros v seg vf n [(grids & iv & grid & Hal & Hgr) (vf' & feats & Hvf' & Hfe & Hp)]
      Hvf Hn Hprev.
    rewrite Hvf in Hvf'. injection Hvf' as <-.
    rewrite align_modality_value, Hfd. simpl. unfold getitem. rewrite Hmfd. simpl.
    assert (Hiv : exists e, interval_value mfd v seg iv = Raise e).
    { unfold interval_value, getitem. rewrite Hvf. simpl.
      unfold resolve_feats, getitem. rewrite Hfe. simpl.
      destruct (probe feats); [done|]. rewrite Hn. simpl.
      destruct (vf !! Py.str (n - 1)) as [prev|]; simpl; [|eauto].
      unfold merge_value. destruct (probe prev); [done|]. simpl. eauto. }
    destruct Hiv as [e Hiv].
    eapply (modality_value_raise order mfd al v seg grids (iv :: grid) e);
      [done | done |]. simpl. by rewrite Hiv.
  - intros v seg vf iv s1 Hvf Hfe.
    unfold align_interval. destruct iv as [a b].
    unfold bind, lift, getitem. rewrite Hvf. simpl. rewrite Hfe. reflexivity.
Qed.

End ClaimFallback.

Lemma fallback_to_previous_segment_witness :
  feature_dict (self (with_gap (num := float))) = Some with_gap_features
  /\ with_gap_features !! "modality_1" = Some (with_gap_target (num := float))
  /\ exists new,
       stdout (align_modality "modality_1" with_gap_alignments
                 (with_gap (num := float))).1
       = stdout (with_gap (num := float)) ++ map (diagnostic "modality_1") new
       /\ NoDup new
       /\ (forall v seg, (v, seg) ∈ new ->
             fallback_pair with_gap_target with_gap_alignments v seg)
       /\ (is_ok (align_modality "modality_1" with_gap_alignments
                    (with_gap (num := float))).2 = true ->
           forall v seg,
             fallback_pair (with_gap_target (num := float))
               with_gap_alignments v seg -> (v, seg) ∈ new).
Proof.
  split; [reflexivity|]. split; [vm_compute; reflexivity|].
  apply (fallback_to_previous_segment key_order with_gap "modality_1"
           with_gap_alignments with_gap_features with_gap_target).
  - reflexivity.
  - vm_compute. reflexivity.
Defined.

(** Segment ["3"] of [modality_1] is empty and segment ["2"] is not: the
    aligned stream of ["3"] is the one of ["2"] resampled on the grid of
    ["3"], and the pair is printed once for its two grid intervals. *)
Example fallback_example :
  align "modality_0" (with_gap (num := float))
  = ({| self := with_aligned_feature_dict
                  {[ "modality_1" :=
                       {[ "video" :=
                            {[ "2" := [(0, 1, [3]); (1, 2, [5])]%float;
                               "3" := [(0, 1, [3]); (1, 2, [5])]%float ]} ]} ]}
                  (self with_gap);
        stdout := [MissingModality "1" "video" "3"];
        loader_calls := [];
        warning_hist := {[ ("video", "3") ]} |},
     Ok {[ "modality_1" :=
             {[ "video" :=
                  {[ "2" := [(0, 1, [3]); (1, 2, [5])]%float;
                     "3" := [(0, 1, [3]); (1, 2, [5])]%float ]} ]} ]}).
Proof. vm_compute. reflexivity. Qed.

(** C1 fails as stated where the stream is absent: [modality_0] has no
    entry for segment ["2"] of the video and has one for segment ["1"], the
    integer decrement; [align] on the pivot [modality_1] raises the
    [KeyError] of the lookup and prints nothing. *)
Lemma absent_stream_is_not_substituted :
  (exists mfd vf prev,
      one_sided_features (num := float) !! "modality_0" = Some mfd
      /\ mfd !! "video" = Some vf
      /\ vf !! "2" = None
      /\ Py.int "2" = Ok 2%Z
      /\ vf !! Py.str (2 - 1) = Some prev)
  /\ (align "modality_1" (one_sided (num := float))).2 = Raise (KeyError "2")
  /\ stdout (align "modality_1" (one_sided (num := float))).1 = [].
Proof.
  split; [|split; vm_compute; reflexivity].
  eexists _, _, _. split; [vm_compute; reflexivity|].
  split; [vm_compute; reflexivity|]. split; [vm_compute; reflexivity|].
  split; vm_compute; reflexivity.
Qed.

(** ** Exact arithmetic *)

Section Rationals.
Local Open Scope Q_scope.

Lemma Q_ltb_lt (a b : Q) : ltb a b = true <-> a < b.
Proof.
  simpl. rewrite negb_true_iff. split.
  - intros Hb. apply Qnot_le_lt. intros Hle. apply Qle_bool_iff in Hle. congruence.
  - intros Hlt. destruct (Qle_bool b a) eqn:Hb; [|done].
    apply Qle_bool_iff in Hb. by apply Qlt_not_le in Hlt.
Qed.

Lemma Q_leb_le (a b : Q) : leb a b = true <-> a <= b.
Proof. simpl. apply Qle_bool_iff. Qed.

Lemma Q_ltb_ge (a b : Q) : ltb a b = false <-> b <= a.
Proof.
  rewrite <- not_true_iff_false, Q_ltb_lt. split.
  - apply Qnot_lt_le.
  - intros Hle Hlt. by apply Qlt_not_le in Hlt.
Qed.

Lemma Q_eqb_eq (a b : Q) : eqb a b = true <-> a == b.
Proof. simpl. apply Qeq_bool_iff. Qed.

Lemma py_min_Qmin (a b : Q) : py_min a b == Qmin a b.
Proof.
  unfold py_min. destruct (ltb b a) eqn:Hb.
  - apply Q_ltb_lt in Hb. symmetry. apply Q.min_r. by apply Qlt_le_weak.
  - apply Q_ltb_ge in Hb. symmetry. by apply Q.min_l.
Qed.

Lemma py_max_Qmax (a b : Q) : py_max a b == Qmax a b.
Proof.
  unfold py_max. destruct (ltb a b) eqn:Hb.
  - apply Q_ltb_lt in Hb. symmetry. apply Q.max_r. by apply Qlt_le_weak.
  - apply Q_ltb_ge in Hb. symmetry. by apply Q.max_l.
Qed.

Lemma overlaps_spec (ts te : Q) (f : feature Q) :
  overlaps ts te f = true <-> feat_start f < te /\ ts <= feat_end f.
Proof.
  unfold overlaps, geb. rewrite andb_true_iff, Q_ltb_lt, Q_leb_le. done.
Qed.


Lemma Qsum_app (l1 l2 : list Q) : Qsum (l1 ++ l2) == Qsum l1 + Qsum l2.
Proof. induction l1 as [|x l1 IH]; simpl; [ring | rewrite IH; ring]. Qed.







End Rationals.

Section RationalsCoverage.
Local Open Scope Q_scope.

Global Instance by_start_total : Total by_start.
Proof.
  intros f g. unfold by_start.
  destruct (Qlt_le_dec (feat_start g) (feat_start f)); [right|left]; lra.
Qed.

Global Instance by_start_trans : Transitive by_start.
Proof. intros f g h. unfold by_start. lra. Qed.

Lemma disjoint_sym (f g : feature Q) : disjoint f g -> disjoint g f.
Proof. unfold disjoint. tauto. Qed.

Lemma pairwise_disjoint_perm (l1 l2 : list (feature Q)) :
  l1 ≡ₚ l2 -> pairwise_disjoint l1 -> pairwise_disjoint l2.
Proof.
  induction 1 as [|f l1 l2 Hp IH|f g l|l1 l2 l3 _ IH1 _ IH2]; simpl.
  - done.
  - intros [Hf Hr]. split; [by rewrite <- Hp | by apply IH].
  - intros [[Hfg Hgl]%Forall_cons [Hfl Hr]]. split; [|done].
    apply Forall_cons. split; [by apply disjoint_sym | done].
  - auto.
Qed.




Lemma nth_zip_with_Qplus (a b : list Q) (i : nat) :
  length a = length b ->
  nth i (zip_with Qplus a b) 0 == nth i a 0 + nth i b 0.
Proof.
  revert b i. induction a as [|x a IH]; intros [|y b] i Hlen; simpl in *;
    try discriminate.
  - destruct i; ring.
  - destruct i; [reflexivity | apply IH; lia].
Qed.

Lemma nth_np_multiply (v : list Q) (w : Q) (i : nat) :
  nth i (np_multiply v w) 0 == nth i v 0 * w.
Proof.
  unfold np_multiply. revert i. induction v as [|x v IH]; intros i; simpl.
  - destruct i; ring.
  - destruct i; [reflexivity | apply IH].
Qed.

Lemma nth_np_zeros (n i : nat) : nth i (np_zeros n) 0 == 0.
Proof.
  unfold np_zeros. revert i. induction n as [|n IH]; intros i; simpl.
  - destruct i; reflexivity.
  - destruct i; [reflexivity | apply IH].
Qed.

(** The aligned vector is the sum of the values taken, each times its
    weight: nothing is divided by the sum of the weights. *)
Lemma merge_feats_weighted (ts te : Q) (n : nat) (feats : list (feature Q)) :
  ts < te ->
  Forall (fun f => length (feat_val f) = n) feats ->
  forall acc, length acc = n ->
    exists r,
      merge_feats ts te (te - ts) feats acc = Ok r
      /\ length r = n
      /\ forall i,
           nth i r 0
           == nth i acc 0
              + Qsum (map (fun f => nth i (feat_val f) 0 * weight ts te f)
                        (overlapping ts te feats)).
Proof.
  intros Hte. induction 1 as [|f rest Hf _ IH]; intros acc Hacc; simpl.
  - exists acc. split; [done|]. split; [done|]. intros i. ring.
  - unfold overlapping. destruct (overlaps ts te f) eqn:Hov.
    + rewrite filter_cons_True by (by apply Is_true_true).
      unfold feat_weight, py_div.
      assert (Hz : eqb (te - ts) (zero (num := Q)) = false).
      { apply not_true_iff_false. rewrite Q_eqb_eq. unfold zero. simpl. lra. }
      simpl in Hz |- *. rewrite Hz. simpl.
      set (w := (py_min te (feat_end f) - py_max ts (feat_start f))
                / (te - ts)).
      assert (Hw : length (np_multiply (feat_val f) w) = n).
      { unfold np_multiply. by rewrite length_map. }
      unfold np_add. rewrite Hacc, Hw, Nat.eqb_refl. simpl.
      destruct (IH (zip_with Qplus acc (np_multiply (feat_val f) w)))
        as (r & Hr & Hlen & Hnth).
      { rewrite length_zip_with. lia. }
      exists r. split; [exact Hr|]. split; [done|]. intros i.
      rewrite Hnth, nth_zip_with_Qplus, nth_np_multiply by lia.
      unfold weight, overlapping. subst w. simpl. ring.
    + rewrite filter_cons_False by (rewrite Is_true_false; congruence).
      apply IH. done.
Qed.

End RationalsCoverage.

Section ClaimWeights.
Local Open Scope Q_scope.





End ClaimWeights.



(** ** The manifest *)

Section Manifest.
Context {num : Type} {arith : Arith num} {ext : external num}.
Local Abbreviation keeps_calls := (keeps_calls (num := num)).





Lemma keeps_calls_ret {A} (a : A) : keeps_calls (ret a : M (state num) A).
Proof. intros s; reflexivity. Qed.
Lemma keeps_calls_raise {A} e : keeps_calls (raise e : M (state num) A).
Proof. intros s; reflexivity. Qed.
Lemma keeps_calls_lift {A} (r : result A) :
  keeps_calls (lift r : M (state num) A).
Proof. intros s; reflexivity. Qed.
Lemma keeps_calls_update_self f : keeps_calls (update_self (num := num) f).
Proof. intros s; reflexivity. Qed.
Lemma keeps_calls_bind {A B} (m : M (state num) A) (k : A -> M (state num) B) :
  keeps_calls m -> (forall a, keeps_calls (k a)) -> keeps_calls (bind m k).
Proof.
  intros Hm Hk s. unfold bind. specialize (Hm s).
  destruct (m s) as [s' [a|e]]; simpl in *; [rewrite Hk|]; done.
Qed.
Lemma keeps_calls_get {B} (k : state num -> M (state num) B) :
  (forall s0, keeps_calls (k s0)) -> keeps_calls (bind get k).
Proof. intros Hk s. unfold bind, get. apply Hk. Qed.

Ltac keeps_calls_step :=
  lazymatch goal with
  | |- keeps_calls (bind get _) => apply keeps_calls_get; intros ?
  | |- keeps_calls (bind _ _) => apply keeps_calls_bind; [|intros ?]
  | |- keeps_calls (ret _) => apply keeps_calls_ret
  | |- keeps_calls (raise _) => apply keeps_calls_raise
  | |- keeps_calls (lift _) => apply keeps_calls_lift
  | |- keeps_calls (update_self _) => apply keeps_calls_update_self
  | |- keeps_calls (if _ then _ else _) => destruct (decide _)
  end.
Ltac keeps_calls := repeat keeps_calls_step.

Lemma keeps_calls_the_modalities : keeps_calls (the_modalities (num := num)).
Proof. unfold the_modalities. keeps_calls. Qed.

Lemma keeps_calls_the_dataset_info :
  keeps_calls (the_dataset_info (num := num)).
Proof. unfold the_dataset_info. keeps_calls. Qed.

Lemma keeps_calls_read_modalities data indices :
  keeps_calls (read_modalities (num := num) data indices).
Proof.
  induction indices as [|i rest IH]; simpl; [apply keeps_calls_ret|].
  keeps_calls; [apply keeps_calls_the_modalities | exact IH].
Qed.

Lemma keeps_calls_read_record modality_count record :
  keeps_calls (read_record modality_count record).
Proof.
  unfold read_record. keeps_calls; apply keeps_calls_the_dataset_info.
Qed.

Lemma keeps_calls_read_records modality_count records :
  keeps_calls (read_records modality_count records).
Proof.
  induction records as [|r rest IH]; simpl; [apply keeps_calls_ret|].
  apply keeps_calls_bind; [apply keeps_calls_read_record | intros _; exact IH].
Qed.

Lemma keeps_calls_validate_file : keeps_calls validate_file.
Proof.
  unfold validate_file. keeps_calls;
    [apply keeps_calls_read_modalities | apply keeps_calls_read_records].
Qed.

End Manifest.

Section Records.
Context {num : Type} {arith : Arith num} {ext : external num}.
Local Abbreviation has_segment := (has_segment (num := num)).
Local Abbreviation set_info := (set_info (num := num)).



(** One pass of the loop over the records, on a table [info]. *)
Lemma read_record_eq modality_count record (s : state num) info
    video_id segment_id :
  dataset_info (self s) = Some info ->
  record !! 0%nat = Some video_id -> record !! 1%nat = Some segment_id ->
  let s1 := if decide (is_Some (info !! video_id)) then s
            else set_info (<[video_id := ∅]> info) s in
  let info1 := if decide (is_Some (info !! video_id)) then info
               else <[video_id := ∅]> info in
  let video := default ∅ (info !! video_id) in
  read_record modality_count record s
  = if decide (is_Some (video !! segment_id)) then
      (s1, Raise (multiple_instances segment_id video_id))
    else
      match segment_of_record modality_count record with
      | Ok segment =>
          (set_info (<[video_id := <[segment_id := segment]> video]> info1)
             s1, Ok tt)
      | Raise e => (s1, Raise e)
      end.
Proof.
  intros Hinfo Hv Hsg s1 info1 video.
  assert (Hs1 : dataset_info (self s1) = Some info1).
  { subst s1 info1. destruct (decide _); [done | reflexivity]. }
  assert (Hvid : info1 !! video_id = Some video).
  { subst info1 video. destruct (decide _) as [[x Hx]|Hn].
    - by rewrite Hx.
    - rewrite lookup_insert_eq. apply eq_None_not_Some in Hn. by rewrite Hn. }
  unfold read_record, Py.index.
  unfold bind at 1, lift at 1. rewrite Hv. simpl.
  unfold bind at 1, lift at 1. rewrite Hsg. simpl.
  unfold bind at 1, the_dataset_info at 1, bind at 1, get at 1, lift at 1.
  rewrite Hinfo. simpl.
  unfold bind at 1.
  assert (Hstep : (if decide (is_Some (info !! video_id)) then ret ()
                   else update_self (with_dataset_info (<[video_id:=∅]> info))) s
                  = (s1, Ok tt)).
  { subst s1. destruct (decide _); reflexivity. }
  rewrite Hstep.
  unfold bind at 1, the_dataset_info at 1, bind at 1, get at 1, lift at 1.
  rewrite Hs1. simpl.
  unfold bind at 1, lift at 1, getitem at 1. rewrite Hvid. simpl.
  destruct (decide (is_Some (video !! segment_id))); [reflexivity|].
  unfold segment_of_record, Py.index, bind, lift, update_self, modify.
  destruct (record !! 2%nat) as [c2|]; simpl; [|reflexivity].
  destruct (float_of_string c2); simpl; [|reflexivity].
  destruct (record !! 3%nat) as [c3|]; simpl; [|reflexivity].
  destruct (float_of_string c3); simpl; [|reflexivity].
  destruct (read_files record (seq 0 modality_count) ∅); reflexivity.
Qed.

End Records.

Section RecordLoop.
Context {num : Type} {arith : Arith num} {ext : external num}.
Local Abbreviation has_segment := (has_segment (num := num)).

Lemma has_segment_default info video_id segment_id :
  has_segment info video_id segment_id
  <-> is_Some (default ∅ (info !! video_id) !! segment_id).
Proof.
  unfold has_segment. split.
  - intros (video & -> & Hs). done.
  - destruct (info !! video_id) as [video|]; simpl.
    + intros Hs. by exists video.
    + rewrite lookup_empty. by intros [? ?].
Qed.

Lemma has_segment_insert info video_id segment_id video segment v sg :
  (has_segment info v sg -> video_id = v -> is_Some (video !! sg)) ->
  has_segment info v sg ->
  has_segment (<[video_id := <[segment_id := segment]> video]> info) v sg.
Proof.
  intros Hsame Hh. destruct (decide (video_id = v)) as [->|Hne].
  - exists (<[segment_id := segment]> video). rewrite lookup_insert_eq.
    split; [done|]. destruct (decide (segment_id = sg)) as [->|Hne'].
    + rewrite lookup_insert_eq. eauto.
    + rewrite lookup_insert_ne by done. by apply Hsame.
  - destruct Hh as (video' & Hv & Hs). exists video'.
    by rewrite lookup_insert_ne.
Qed.

(** A pass either raises, or enters the pair of the record, which was not
    there, and keeps the pairs that were. *)
Lemma read_record_cases modality_count record (s : state num) info :
  dataset_info (self s) = Some info ->
  (exists s' e, read_record modality_count record s = (s', Raise e))
  \/ exists s' info' video_id segment_id,
       read_record modality_count record s = (s', Ok tt)
       /\ dataset_info (self s') = Some info'
       /\ record !! 0%nat = Some video_id /\ record !! 1%nat = Some segment_id
       /\ has_segment info' video_id segment_id
       /\ forall v sg, has_segment info v sg -> has_segment info' v sg.
Proof.
  intros Hinfo.
  destruct (record !! 0%nat) as [video_id|] eqn:Hv.
  2:{ left. exists s, IndexError. unfold read_record, Py.index, bind, lift.
      by rewrite Hv. }
  destruct (record !! 1%nat) as [segment_id|] eqn:Hsg.
  2:{ left. exists s, IndexError. unfold read_record, Py.index, bind, lift.
      by rewrite Hv, Hsg. }
  rewrite (read_record_eq modality_count record s info video_id segment_id
             Hinfo Hv Hsg).
  destruct (decide (is_Some (default ∅ (info !! video_id) !! segment_id)))
    as [Hdup|Hnew]; [left; eauto|].
  destruct (segment_of_record modality_count record) as [segment|e];
    [|left; eauto].
  right. eexists _, _, video_id, segment_id. split; [reflexivity|].
  split; [reflexivity|]. split; [done|]. split; [done|]. split.
  - eexists. rewrite lookup_insert_eq. split; [done|].
    rewrite lookup_insert_eq. eauto.
  - intros v sg Hh.
    assert (Hh' : has_segment
              (if decide (is_Some (info !! video_id)) then info
               else <[video_id := ∅]> info) v sg).
    { destruct (decide _) as [|Hn]; [done|].
      destruct Hh as (video' & Hv' & Hs'). exists video'. split; [|done].
      rewrite lookup_insert_ne; [done|]. intros ->. apply Hn. eauto. }
    apply has_segment_insert; [|done].
    intros _ <-. by apply has_segment_default.
Qed.

Lemma read_record_known modality_count record (s : state num) info
    video_id segment_id :
  dataset_info (self s) = Some info ->
  record !! 0%nat = Some video_id -> record !! 1%nat = Some segment_id ->
  has_segment info video_id segment_id ->
  exists s',
    read_record modality_count record s
    = (s', Raise (multiple_instances segment_id video_id))
    /\ dataset_info (self s') = Some info.
Proof.
  intros Hinfo Hv Hsg Hh.
  rewrite (read_record_eq modality_count record s info video_id segment_id
             Hinfo Hv Hsg).
  apply has_segment_default in Hh.
  destruct (decide _) as [_|Hn]; [|done].
  eexists. split; [reflexivity|].
  destruct (decide (is_Some (info !! video_id))) as [|Hn]; [done|].
  exfalso. apply Hn. destruct (info !! video_id); [eauto|].
  simpl in Hh. rewrite lookup_empty in Hh. by destruct Hh.
Qed.

(** A row whose pair is in the table already stops the loop. *)
Lemma read_records_known modality_count records :
  forall (j : nat) (s : state num) info record video_id segment_id,
    dataset_info (self s) = Some info ->
    has_segment info video_id segment_id ->
    records !! j = Some record ->
    record !! 0%nat = Some video_id -> record !! 1%nat = Some segment_id ->
    exists s' e, read_records modality_count records s = (s', Raise e).
Proof.
  induction records as [|r rest IH]; intros j s info record v sg Hinfo Hh Hj Hv Hsg;
    [done|].
  simpl. unfold bind. destruct j as [|j]; simpl in Hj.
  - injection Hj as ->.
    destruct (read_record_known modality_count record s info v sg Hinfo Hv Hsg Hh)
      as (s' & -> & _). eauto.
  - destruct (read_record_cases modality_count r s info Hinfo)
      as [(s' & e & ->)|(s' & info' & v' & sg' & -> & Hinfo' & _ & _ & _ & Hmono)];
      [eauto|].
    eapply (IH j s' info' record v sg); eauto.
Qed.

(** Two rows with one pair stop the loop. *)
Lemma read_records_duplicate modality_count records :
  forall (s : state num) info,
    dataset_info (self s) = Some info ->
    duplicate_rows records ->
    exists s' e, read_records modality_count records s = (s', Raise e).
Proof.
  induction records as [|r rest IH];
    intros s info Hinfo (i & j & r1 & r2 & v & sg & Hij & Hi & Hj & H10 & H11 & H20 & H21);
    [done|].
  simpl. unfold bind. destruct j as [|j]; [lia|]. simpl in Hj.
  destruct (read_record_cases modality_count r s info Hinfo)
    as [(s' & e & ->)|(s' & info' & v' & sg' & -> & Hinfo' & Hv' & Hsg' & Hnew & Hmono)];
    [eauto|].
  destruct i as [|i]; simpl in Hi.
  - injection Hi as ->. rewrite H10 in Hv'. rewrite H11 in Hsg'.
    injection Hv' as <-. injection Hsg' as <-.
    eapply (read_records_known modality_count rest j s' info' r2 v sg); eauto.
  - eapply (IH s' info' Hinfo'). exists i, j, r1, r2, v, sg.
    repeat split; try done. lia.
Qed.

End RecordLoop.

Section Validation.
Context {num : Type} {arith : Arith num} {ext : external num}.
Local Abbreviation has_segment := (has_segment (num := num)).

Lemma read_modalities_info data indices :
  forall s : state num,
    dataset_info (self (read_modalities data indices s).1)
    = dataset_info (self s).
Proof.
  induction indices as [|i rest IH]; intros s; simpl; [reflexivity|].
  unfold bind, lift, the_modalities, get, update_self, modify, Py.index.
  destruct (data !! 1%nat) as [row1|]; simpl; [|reflexivity].
  destruct (row1 !! (i + 4)%nat); simpl; [|reflexivity].
  destruct (data !! 0%nat) as [row0|]; simpl; [|reflexivity].
  destruct (row0 !! (i + 4)%nat); simpl; [|reflexivity].
  destruct (modalities (self s)); simpl; [|reflexivity].
  rewrite IH. reflexivity.
Qed.

Lemma read_modalities_ok data row0 row1 indices :
  data !! 0%nat = Some row0 -> data !! 1%nat = Some row1 ->
  Forall (fun i => (i + 4 < length row0)%nat /\ (i + 4 < length row1)%nat)
    indices ->
  forall s : state num,
    is_Some (modalities (self s)) ->
    is_ok (read_modalities data indices s).2 = true.
Proof.
  intros H0 H1. induction 1 as [|i rest [Hi0 Hi1] _ IH]; intros s [mods Hm];
    simpl; [reflexivity|].
  unfold bind, lift, the_modalities, get, update_self, modify, Py.index.
  rewrite H1, H0. simpl.
  destruct (lookup_lt_is_Some_2 row1 (i + 4) Hi1) as [c1 ->].
  destruct (lookup_lt_is_Some_2 row0 (i + 4) Hi0) as [c0 ->]. simpl.
  rewrite Hm. simpl. apply IH. simpl. eauto.
Qed.

Lemma read_files_ok record indices :
  Forall (fun i => (i + 4 < length record)%nat) indices ->
  forall files, is_ok (read_files record indices files) = true.
Proof.
  induction 1 as [|i rest Hi _ IH]; intros files; simpl; [reflexivity|].
  unfold Py.index. destruct (lookup_lt_is_Some_2 record (i + 4) Hi) as [c ->].
  simpl. apply IH.
Qed.


Lemma segment_of_record_ok modality_count record :
  good_record modality_count record ->
  is_ok (segment_of_record modality_count record) = true.
Proof.
  intros (Hlen & _ & a & b & Ha & Hb & Hfa & Hfb).
  unfold segment_of_record, Py.index. rewrite Ha. simpl.
  destruct (float_of_string a); [simpl|done]. rewrite Hb. simpl.
  destruct (float_of_string b); [simpl|done].
  assert (Hf : is_ok (read_files record (seq 0 modality_count) ∅) = true).
  { apply read_files_ok. apply Forall_forall. intros i Hi%elem_of_seq. lia. }
  by destruct (read_files record (seq 0 modality_count) ∅).
Qed.

(** On good records the loop can only stop on a pair met before. *)
Lemma read_records_good modality_count records :
  Forall (good_record modality_count) records ->
  forall (s s' : state num) info e,
    dataset_info (self s) = Some info ->
    read_records modality_count records s = (s', Raise e) ->
    exists segment_id video_id, e = multiple_instances segment_id video_id.
Proof.
  induction 1 as [|r rest Hr _ IH]; intros s s' info e Hinfo; simpl; [done|].
  assert (Hlen : (4 <= length r)%nat) by apply Hr.
  destruct (lookup_lt_is_Some_2 r 0 ltac:(lia)) as [v Hv].
  destruct (lookup_lt_is_Some_2 r 1 ltac:(lia)) as [sg Hsg].
  unfold bind.
  rewrite (read_record_eq modality_count r s info v sg Hinfo Hv Hsg).
  destruct (decide _) as [Hdup|Hnew]; [intros [= <- <-]; eauto|].
  pose proof (segment_of_record_ok modality_count r Hr) as Hok.
  destruct (segment_of_record modality_count r) as [segment|]; [|done].
  apply IH with (info := <[v := <[sg := segment]> (default ∅ (info !! v))]>
                           (if decide (is_Some (info !! v)) then info
                            else <[v := ∅]> info)).
  reflexivity.
Qed.

Lemma validate_file_duplicate (s : state num) path data :
  dataset_csv (self s) = Some path -> read_csv path = Ok data ->
  duplicate_rows (drop 2 data) ->
  exists s' e,
    validate_file s = (s', Raise e)
    /\ (well_formed data ->
        exists segment_id video_id,
          e = multiple_instances segment_id video_id).
Proof.
  intros Hcsv Hread Hdup. unfold validate_file.
  unfold bind at 1, get at 1. unfold bind at 1, lift at 1. rewrite Hcsv. simpl.
  unfold bind at 1, lift at 1. rewrite Hread. simpl.
  unfold bind at 1, update_self at 1, modify at 1.
  unfold bind at 1, lift at 1, Py.index at 1.
  destruct (data !! 0%nat) as [row0|] eqn:H0; simpl.
  2:{ eexists _, _. split; [reflexivity|]. intros (w & _ & Hlen & _).
      apply lookup_ge_None in H0. lia. }
  unfold bind at 1, update_self at 1, modify at 1.
  set (s2 := {| self := with_modalities ∅ _; stdout := _;
                loader_calls := _; warning_hist := _ |}).
  unfold bind at 1.
  pose proof (read_modalities_info data (seq 0 (length row0 - 4)) s2) as Hinfo.
  destruct (read_modalities data (seq 0 (length row0 - 4)) s2)
    as [s3 [[]|e]] eqn:Hmods; simpl in Hinfo.
  - destruct (read_records_duplicate (length row0 - 4) (drop 2 data) s3 ∅ Hinfo Hdup)
      as (s' & e & Hrun).
    exists s', e. split; [done|].
    intros (w & Hw & Hlen & Hrect & Hrec).
    apply (read_records_good (length row0 - 4) (drop 2 data)) with (s := s3)
      (s' := s') (info := ∅); [|done|done].
    rewrite Forall_forall in Hrect, Hrec |- *. intros r Hr.
    assert (Hr0 : length row0 = w).
    { apply Hrect. by eapply list_elem_of_lookup_2. }
    assert (Hrw : length r = w).
    { apply list_elem_of_lookup in Hr as [k Hk]. rewrite lookup_drop in Hk.
      apply Hrect. by eapply list_elem_of_lookup_2. }
    split; [lia|]. split; [lia|]. by apply Hrec.
  - eexists _, _. split; [reflexivity|].
    intros (w & Hw & Hlen & Hrect & _). exfalso.
    destruct (lookup_lt_is_Some_2 data 1 ltac:(lia)) as [row1 H1].
    rewrite Forall_forall in Hrect.
    assert (Hr0 : length row0 = w).
    { apply Hrect. by eapply list_elem_of_lookup_2. }
    assert (Hr1 : length row1 = w).
    { apply Hrect. by eapply list_elem_of_lookup_2. }
    assert (Hok : is_ok (read_modalities data (seq 0 (length row0 - 4)) s2).2
                  = true).
    { apply (read_modalities_ok data row0 row1); [done | done | |].
      - apply Forall_forall. intros i Hi%elem_of_seq. lia.
      - simpl. eauto. }
    by rewrite Hmods in Hok.
Qed.

End Validation.

Section ClaimManifest.
Context {num : Type} {arith : Arith num} {ext : external num}.

(** C6. A manifest with two rows for one (video, segment) makes the
    controller fail before any loader method is called; for a well-formed
    manifest the exception is the [NameError] "Multiple instances of
    segment ... for video ...". *)
Theorem duplicate_segment_is_fatal (order : iteration) (s : state num)
    (path : string) (data : list (list string)) :
  dataset_csv (self s) = Some path -> read_csv path = Ok data ->
  duplicate_rows (drop 2 data) ->
  exists s' e,
    controller s = (s', Raise e)
    /\ loader_calls s' = loader_calls s
    /\ (well_formed data ->
        exists segment_id video_id,
          e = multiple_instances segment_id video_id).
Proof.
  intros Hcsv Hread Hdup.
  destruct (validate_file_duplicate s path data Hcsv Hread Hdup)
    as (s' & e & Hv & Hwf).
  exists s', e. split; [|split; [|done]].
  - unfold controller, bind. by rewrite Hv.
  - pose proof (keeps_calls_validate_file s) as Hk. by rewrite Hv in Hk.
Qed.

End ClaimManifest.

Section ClaimOpensmile.
Context {num : Type} {arith : Arith num} {ext : external num}.

(** C10, as the code has it. [load_opensmile] returns [None], and no list,
    exactly when the level is not ['s'] and the start of the segment is not
    0.0, whatever else the level is; it prints a message then. In every
    other case (level ['s'], or start 0.0) it reads the file, and returns
    the list of one tuple that spans the segment window, valued with the
    numbers of the last line of the file after its first field, when the
    file has a last line whose fields parse; it raises when not. *)
Theorem load_opensmile_cases (filepath : string) (start end_ : num)
    (timestamps level : string) (s : state num) :
  (String.eqb level "s" = false /\ eqb start (lit 0) = false ->
   load_opensmile filepath start end_ timestamps level s
   = ({| self := self s; stdout := stdout s ++ [OpensmileEntireSegment];
         loader_calls := loader_calls s; warning_hist := warning_hist s |},
      Ok PyNone))
  /\ (String.eqb level "s" = true \/ eqb start (lit 0) = true ->
      (forall lines line feat_val,
          readlines filepath = Ok lines -> last lines = Some line ->
          floats (drop 1 (Py.split Py.comma (Py.strip line))) = Ok feat_val ->
          load_opensmile filepath start end_ timestamps level s
          = (s, Ok (PyList [(start_time_of timestamps start,
                             end_time_of timestamps start end_, feat_val)])))
      /\ (forall feats,
            (load_opensmile filepath start end_ timestamps level s).2
            = Ok feats ->
            exists lines line feat_val,
              readlines filepath = Ok lines /\ last lines = Some line
              /\ floats (drop 1 (Py.split Py.comma (Py.strip line)))
                 = Ok feat_val
              /\ feats = PyList [(start_time_of timestamps start,
                                  end_time_of timestamps start end_,
                                  feat_val)]))
  /\ ((load_opensmile filepath start end_ timestamps level s).2 = Ok PyNone
      <-> String.eqb level "s" = false /\ eqb start (lit 0) = false).
Proof.
  assert (Hlist : String.eqb level "s" || eqb start (lit 0) = true ->
            forall feats,
              (load_opensmile filepath start end_ timestamps level s).2
              = Ok feats ->
              exists lines line feat_val,
                readlines filepath = Ok lines /\ last lines = Some line
                /\ floats (drop 1 (Py.split Py.comma (Py.strip line)))
                   = Ok feat_val
                /\ feats = PyList [(start_time_of timestamps start,
                                    end_time_of timestamps start end_,
                                    feat_val)]).
  { intros Hb feats. unfold load_opensmile. rewrite Hb.
    unfold bind, lift, ret, Py.last_item.
    destruct (readlines filepath) as [lines|]; simpl; [|done].
    destruct (last lines) as [line|] eqn:Hlast; simpl; [|done].
    destruct (floats _) as [feat_val|] eqn:Hf; simpl; [|done].
    intros [= <-]. by exists lines, line, feat_val. }
  split; [|split].
  - intros [Hl Hs]. unfold load_opensmile. rewrite Hl, Hs. reflexivity.
  - intros Hc.
    assert (Hb : String.eqb level "s" || eqb start (lit 0) = true).
    { destruct Hc as [ -> | -> ]; [reflexivity | apply orb_true_r]. }
    split; [|by apply Hlist].
    intros lines line feat_val Hl Hlast Hf.
    unfold load_opensmile. rewrite Hb.
    unfold bind, lift, ret, Py.last_item. rewrite Hl. simpl.
    rewrite Hlast. simpl. rewrite Hf. reflexivity.
  - split.
    + intros Hnone.
      destruct (String.eqb level "s" || eqb start (lit 0)) eqn:Hb.
      * destruct (Hlist eq_refl PyNone Hnone) as (? & ? & ? & _ & _ & _ & ?).
        discriminate.
      * by apply orb_false_elim in Hb.
    + intros [Hl Hs]. unfold load_opensmile. rewrite Hl, Hs. reflexivity.
Qed.

End ClaimOpensmile.

Lemma duplicate_segment_is_fatal_witness :
  dataset_csv (self (fresh "absolute")) = Some "manifest.csv"
  /\ duplicate_rows (drop 2 duplicated_manifest)
  /\ exists s' e,
       controller (ext := example_files duplicated_manifest ∅)
         (fresh "absolute") = (s', Raise e)
       /\ loader_calls s' = loader_calls (fresh "absolute")
       /\ (well_formed (ext := example_files duplicated_manifest ∅)
             duplicated_manifest ->
           exists segment_id video_id,
             e = multiple_instances segment_id video_id).
Proof.
  assert (Hdup : duplicate_rows (drop 2 duplicated_manifest)).
  { exists 0%nat, 1%nat. eexists _, _, "v1", "1". simpl.
    split; [lia|]. repeat split; reflexivity. }
  split; [reflexivity|]. split; [exact Hdup|].
  apply (duplicate_segment_is_fatal (ext := example_files duplicated_manifest ∅)
           key_order (fresh "absolute") "manifest.csv" duplicated_manifest).
  - reflexivity.
  - reflexivity.
  - exact Hdup.
Defined.

(** The duplicated manifest is well formed, and what the controller raises
    on it is the [NameError] of the second record. *)
Example duplicated_manifest_error :
  well_formed (ext := example_files duplicated_manifest ∅) duplicated_manifest
  /\ (controller (ext := example_files duplicated_manifest ∅)
        (fresh "absolute")).2
     = Raise (NameError "Multiple instances of segment 1 for video v1")
  /\ loader_calls (controller (ext := example_files duplicated_manifest ∅)
                     (fresh "absolute")).1 = [].
Proof.
  split; [|split; vm_compute; reflexivity].
  exists 5%nat. split; [lia|]. split; [simpl; lia|]. split.
  - repeat (apply Forall_cons; split; [reflexivity|]). by apply Forall_nil.
  - simpl. repeat (apply Forall_cons; split;
                   [eexists _, _; repeat split; reflexivity|]).
    by apply Forall_nil.
Qed.

(** C10 fails as stated: at a level that is neither ['s'] nor ['v'] and a
    start that is not 0.0, which is one of the claim's other cases, the
    loader returns [None] and reads no file. *)
Lemma load_opensmile_none_at_other_level :
  "x" <> "v"
  /\ load_opensmile
       (ext := example_files []
                 {[ "smile.csv" := ["name,a,b"; "'frame',0.5,2.25 "] ]})
       "smile.csv" 5%Q 7%Q "absolute" "x" (fresh "absolute")
     = ({| self := self (fresh "absolute");
           stdout := [OpensmileEntireSegment];
           loader_calls := []; warning_hist := ∅ |},
        Ok PyNone).
Proof. split; [discriminate | vm_compute; reflexivity]. Qed.

Lemma load_opensmile_cases_witness :
  load_opensmile (ext := example_files [] ∅) "smile.csv" 5%Q 7%Q
    "absolute" "v" (fresh "absolute")
  = ({| self := self (fresh "absolute");
        stdout := [OpensmileEntireSegment];
        loader_calls := []; warning_hist := ∅ |},
     Ok PyNone).
Proof.
  apply (proj1 (load_opensmile_cases (ext := example_files [] ∅) "smile.csv"
                  5%Q 7%Q "absolute" "v" (fresh "absolute"))).
  split; reflexivity.
Defined.

(** At the start 0.0 the video level is loaded like the segment level: the
    last line of the file, without its first field. *)
Example load_opensmile_video_at_zero :
  load_opensmile
    (ext := example_files []
              {[ "smile.csv" := ["name,a,b"; "'frame',0.5,2.25 "] ]})
    "smile.csv" 0%Q 7%Q "relative" "v" (fresh "relative")
  = (fresh "relative", Ok (PyList [(0, 7 - 0, [0.5; 2.25])]%Q)).
Proof. vm_compute. reflexivity. Qed.

(** ** The loaders *)

Section LoaderFacts.
Context {num : Type} {arith : Arith num} {ext : external num}.

Lemma for_lines_ok lines (body : string -> result (option (feature num))) :
  forall features feats,
    for_lines lines body features = Ok feats ->
    exists outs,
      Forall2 (fun line o => body line = Ok o) (stripped_lines lines) outs
      /\ feats = features ++ omap id outs.
Proof.
  induction lines as [|line rest IH]; intros features feats; simpl.
  - intros [= <-]. exists []. split; [constructor | by rewrite app_nil_r].
  - destruct (String.eqb (Py.strip line) "").
    + intros [= <-]. exists []. split; [constructor | by rewrite app_nil_r].
    + intros Hr. apply res_bind_ok_inv in Hr as (o & Ho & Hr).
      apply IH in Hr as (outs & Houts & ->). exists (o :: outs).
      split; [by constructor|]. destruct o; simpl; [|done].
      by rewrite <- app_assoc.
Qed.

Lemma load_intervals_video cs ce cv vs ve vv filepath start end_
    timestamps level feats :
  String.eqb level "s" = false ->
  load_intervals cs ce cv vs ve vv filepath start end_ timestamps level
  = Ok feats ->
  exists lines outs,
    readlines filepath = Ok lines
    /\ Forall2 (interval_line vs ve vv start end_
                  (start_time_of timestamps start))
         (stripped_lines lines) outs
    /\ feats = omap id outs.
Proof.
  intros Hlevel. unfold load_intervals. rewrite Hlevel.
  intros Hr. apply res_bind_ok_inv in Hr as (lines & Hlines & Hr).
  apply for_lines_ok in Hr as (outs & Houts & ->).
  exists lines, outs. split; [done|]. split; [|done].
  eapply Forall2_impl; [exact Houts|]. intros line o Hbody. simpl in Hbody.
  apply res_bind_ok_inv in Hbody as (fs & Hfs & Hbody).
  apply res_bind_ok_inv in Hbody as (fe & Hfe & Hbody).
  exists fs, fe. split; [done|]. split; [done|].
  destruct (in_segment start end_ fs fe).
  - apply res_bind_ok_inv in Hbody as (vals & Hvals & [= <-]). eauto.
  - by injection Hbody as <-.
Qed.

Lemma load_frames_video time_period skip cs vals_s vs vals_v filepath
    start end_ timestamps level feats :
  String.eqb level "s" = false ->
  load_frames time_period skip cs vals_s vs vals_v filepath start end_
    timestamps level = Ok feats ->
  exists lines outs,
    readlines filepath = Ok lines
    /\ Forall2 (frame_line time_period vs vals_v start end_
                  (start_time_of timestamps start))
         (stripped_lines (drop skip lines)) outs
    /\ feats = omap id outs.
Proof.
  intros Hlevel. unfold load_frames. rewrite Hlevel.
  intros Hr. apply res_bind_ok_inv in Hr as (lines & Hlines & Hr).
  apply for_lines_ok in Hr as (outs & Houts & ->).
  exists lines, outs. split; [done|]. split; [|done].
  eapply Forall2_impl; [exact Houts|]. intros line o Hbody. simpl in Hbody.
  apply res_bind_ok_inv in Hbody as (fs & Hfs & Hbody).
  exists fs. split; [done|].
  destruct (starts_in_segment start end_ fs).
  - apply res_bind_ok_inv in Hbody as (vals & Hvals & [= <-]). eauto.
  - by injection Hbody as <-.
Qed.

End LoaderFacts.

Section RationalRule.
Local Open Scope Q_scope.

Lemma in_segment_clauses (start end_ fs fe : Q) :
  in_segment start end_ fs fe = true
  <-> (fs <= start /\ fe > end_)
      \/ (fs >= start /\ fe < end_)
      \/ (fs <= start /\ start - fs < (fe - fs) / 2)
      \/ (fs >= start /\ end_ - fs > (fe - fs) / 2).
Proof.
  unfold in_segment, gtb, geb.
  rewrite !orb_true_iff, !andb_true_iff, !Q_ltb_lt, !Q_leb_le.
  simpl. tauto.
Qed.

Lemma starts_in_segment_spec (start end_ fs : Q) :
  starts_in_segment start end_ fs = true <-> start <= fs /\ fs < end_.
Proof.
  unfold starts_in_segment, geb. by rewrite andb_true_iff, Q_ltb_lt, Q_leb_le.
Qed.

Lemma tie_at_start (start end_ d : Q) :
  0 < d ->
  in_segment start end_ (start - d / 2) (start + d / 2) = true
  <-> end_ < start + d / 2.
Proof.
  intros Hd. rewrite in_segment_clauses.
  assert (Hdur : start + d / 2 - (start - d / 2) == d) by field.
  rewrite Hdur. split.
  - intros [H|[H|[H|H]]]; lra.
  - intros H. left. lra.
Qed.

Lemma tie_at_end (start end_ d : Q) :
  0 < d ->
  in_segment start end_ (end_ - d / 2) (end_ + d / 2) = true
  <-> end_ - d / 2 <= start.
Proof.
  intros Hd. rewrite in_segment_clauses.
  assert (Hdur : end_ + d / 2 - (end_ - d / 2) == d) by field.
  rewrite Hdur. split.
  - intros [H|[H|[H|H]]]; lra.
  - intros H. left. lra.
Qed.

End RationalRule.

Section ClaimRule.
Local Open Scope Q_scope.

(** C2, as the code has it. In any arithmetic, and so in the binary64 one
    of the program, the video-level branch of [load_phonemes],
    [load_embeddings], [load_words] and [load_misc] keeps a candidate
    interval (fs, fe) exactly when one of four tests holds, each computed
    with the program's comparisons, subtractions and division; and
    [load_openface] and the [load_facet] loaders keep a frame exactly when
    the two comparisons [start <= fs] and [fs < end] hold. In exact
    arithmetic the four tests are the four clauses over the numbers, and an
    interval that the start or the end of the window splits in two equal
    halves fails the third and the fourth clause, and is kept only when it
    spans the window. In binary64 the differences are rounded: at the start
    0.09 of a window that ends at 1, the interval of the doubles 0.01 and
    0.17 is dropped, though the exact numbers that these doubles are
    satisfy the third clause. *)
Theorem majority_rule :
  (forall (num : Type) (arith : Arith num) (ext : external num),
      (forall start end_ fs fe : num,
          in_segment start end_ fs fe = true
          <-> (leb fs start = true /\ ltb end_ fe = true)
              \/ (leb start fs = true /\ ltb fe end_ = true)
              \/ (leb fs start = true
                  /\ ltb (sub start fs) (div (sub fe fs) (lit 2)) = true)
              \/ (leb start fs = true
                  /\ ltb (div (sub fe fs) (lit 2)) (sub end_ fs) = true))
      /\ (video_level_rule 0 load_phonemes (interval_line 1 2 3)
          /\ video_level_rule 0 load_embeddings (interval_line 1 2 3)
          /\ video_level_rule 0 load_words (interval_line 1 2 3)
          /\ video_level_rule 0 load_misc (interval_line 0 1 3))
      /\ (forall start end_ fs : num,
            starts_in_segment start end_ fs = true
            <-> leb start fs = true /\ ltb fs end_ = true)
      /\ (video_level_rule 1 load_openface
            (frame_line (lit (333333 # 10000000)) 1
               (fun l => floats (drop 2 l)))
          /\ video_level_rule 1 load_old_facet
               (frame_line (lit (3333 # 100000)) 0
                  (fun l => floats (drop 1 l)))
          /\ video_level_rule 1 load_facet
               (frame_line (lit (3333 # 100000)) 0
                  (fun l => Ok (floats_or_zero (Py.slice_to_last 1 l))))
          /\ video_level_rule 0 load_facet1
               (frame_line (lit (3333 # 100000)) 1
                  (fun l => Ok (floats_or_zero (Py.slice_to_last 2 l))))
          /\ video_level_rule 0 load_facet2
               (frame_line (lit (3333 # 100000)) 1
                  (fun l => Ok (floats_or_zero (Py.slice_to_last 2 l))))))
  /\ (forall start end_ fs fe : Q,
        in_segment start end_ fs fe = true
        <-> (fs <= start /\ fe > end_)
            \/ (fs >= start /\ fe < end_)
            \/ (fs <= start /\ start - fs < (fe - fs) / 2)
            \/ (fs >= start /\ end_ - fs > (fe - fs) / 2))
  /\ (forall start end_ d : Q,
        0 < d ->
        (in_segment start end_ (start - d / 2) (start + d / 2) = true
         <-> end_ < start + d / 2)
        /\ (in_segment start end_ (end_ - d / 2) (end_ + d / 2) = true
            <-> end_ - d / 2 <= start))
  /\ (forall start end_ fs : Q,
        starts_in_segment start end_ fs = true <-> start <= fs /\ fs < end_)
  /\ (in_segment (lit 0.09 : float) (lit 1) (lit 0.01) (lit 0.17) = false
      /\ exact_value (lit 0.01) <= exact_value (lit 0.09)
      /\ exact_value (lit 0.09) - exact_value (lit 0.01)
         < (exact_value (lit 0.17) - exact_value (lit 0.01)) / 2
      /\ in_segment (exact_value (lit 0.09)) (exact_value (lit 1))
           (exact_value (lit 0.01)) (exact_value (lit 0.17)) = true
      /\ load_words (ext := rounded_interval) "words.csv" (lit 0.09) (lit 1)
           "absolute" "v" = Ok []).
Proof.
  split; [|split; [|split; [|split]]].
  - intros num arith ext. split; [|split; [|split]].
    + intros start end_ fs fe. unfold in_segment, gtb, geb.
      rewrite !orb_true_iff, !andb_true_iff. tauto.
    + repeat split; intros filepath start end_ timestamps level feats Hl Hr;
        by eapply load_intervals_video.
    + intros start end_ fs. unfold starts_in_segment, geb.
      by rewrite andb_true_iff.
    + repeat split; intros filepath start end_ timestamps level feats Hl Hr;
        by eapply load_frames_video.
  - apply in_segment_clauses.
  - intros start end_ d Hd.
    split; [by apply tie_at_start | by apply tie_at_end].
  - apply starts_in_segment_spec.
  - split; [vm_compute; reflexivity|]. split; [vm_compute; discriminate|].
    split; [vm_compute; reflexivity|]. split; vm_compute; reflexivity.
Qed.

End ClaimRule.

(** C2 fails as stated for [load_openface]: the candidate (0.99, 1.0233333)
    starts before the window (1, 2) with more than half of its span inside,
    so the third clause holds, and the video-level branch drops it;
    [load_words] keeps it. *)
Lemma openface_drops_majority_frame :
  load_openface (ext := early_frame) "face.csv" 1%Q 2%Q "absolute" "v" = Ok []
  /\ (0.99 <= 1 /\ 1 - 0.99 < (0.99 + 0.0333333 - 0.99) / 2)%Q
  /\ in_segment 1%Q 2%Q 0.99%Q (0.99 + 0.0333333)%Q = true
  /\ is_ok (load_words (ext := early_interval) "words.csv" 1%Q 2%Q "absolute" "v")
     = true
  /\ load_words (ext := early_interval) "words.csv" 1%Q 2%Q "absolute" "v"
     <> Ok [].
Proof.
  split; [vm_compute; reflexivity|].
  split; [split; [discriminate | reflexivity]|].
  split; [reflexivity|]. split; [reflexivity|]. vm_compute. discriminate.
Qed.

Lemma majority_rule_witness :
  in_segment (lit 0.09%Q : float) (lit 1%Q) (lit 0.01%Q) (lit 0.17%Q) = true
  <-> (leb (lit 0.01%Q : float) (lit 0.09%Q) = true
       /\ ltb (lit 1%Q : float) (lit 0.17%Q) = true)
      \/ (leb (lit 0.09%Q : float) (lit 0.01%Q) = true
          /\ ltb (lit 0.17%Q : float) (lit 1%Q) = true)
      \/ (leb (lit 0.01%Q : float) (lit 0.09%Q) = true
          /\ ltb (sub (lit 0.09%Q : float) (lit 0.01%Q))
                 (div (sub (lit 0.17%Q) (lit 0.01%Q)) (lit 2%Q)) = true)
      \/ (leb (lit 0.09%Q : float) (lit 0.01%Q) = true
          /\ ltb (div (sub (lit 0.17%Q : float) (lit 0.01%Q)) (lit 2%Q))
                 (sub (lit 1%Q) (lit 0.01%Q)) = true).
Proof.
  apply (proj1 (proj1 majority_rule float F64_arith rounded_interval)).
Defined.

(** ** The timestamp modes *)

Section ModeShift.
Context {ext : external Q}.
Local Open Scope Q_scope.

Lemma same_outcome_bind {A B A' B'} (R : A -> A' -> Prop)
    (R' : B -> B' -> Prop) r1 r2 (k1 : A -> result B) (k2 : A' -> result B') :
  same_outcome R r1 r2 ->
  (forall a a', R a a' -> same_outcome R' (k1 a) (k2 a')) ->
  same_outcome R' (res_bind r1 k1) (res_bind r2 k2).
Proof.
  destruct r1, r2; simpl; try done. intros HR Hk. by apply Hk.
Qed.

Lemma same_outcome_refl {A} (r : result A) : same_outcome eq r r.
Proof. by destruct r. Qed.

Lemma start_time_relative (start : Q) : start_time_of "relative" start = 0.
Proof. reflexivity. Qed.

Lemma start_time_absolute mode (start : Q) :
  mode <> "relative" -> start_time_of mode start = start.
Proof.
  intros Hm. unfold start_time_of.
  destruct (String.eqb_spec mode "relative"); done.
Qed.

Lemma for_lines_shift (s : Q) lines
    (body_r body_a : string -> result (option (feature Q))) :
  (forall line,
      same_outcome (option_Forall2 (shifted s)) (body_r line) (body_a line)) ->
  forall acc_r acc_a,
    Forall2 (shifted s) acc_r acc_a ->
    same_outcome (Forall2 (shifted s))
      (for_lines lines body_r acc_r) (for_lines lines body_a acc_a).
Proof.
  intros Hbody. induction lines as [|line rest IH]; intros acc_r acc_a Hacc;
    simpl; [done|].
  destruct (String.eqb (Py.strip line) ""); [done|].
  eapply same_outcome_bind; [apply Hbody|].
  intros o o' Ho. apply IH. destruct Ho as [f f' Hf|]; [|done].
  apply Forall2_app; [done|]. by constructor.
Qed.

Lemma load_intervals_shift cs ce cv vs ve vv filepath start end_ mode level :
  mode <> "relative" ->
  same_outcome (Forall2 (shifted start))
    (load_intervals cs ce cv vs ve vv filepath start end_ "relative" level)
    (load_intervals cs ce cv vs ve vv filepath start end_ mode level).
Proof.
  intros Hm. unfold load_intervals.
  rewrite start_time_relative, (start_time_absolute mode start Hm).
  destruct (String.eqb level "s").
  - eapply same_outcome_bind; [apply same_outcome_refl|].
    intros lines ? <-. apply for_lines_shift; [|constructor].
    intros line.
    eapply same_outcome_bind; [apply same_outcome_refl|]. intros a ? <-.
    eapply same_outcome_bind; [apply same_outcome_refl|]. intros b ? <-.
    eapply same_outcome_bind; [apply same_outcome_refl|]. intros v ? <-.
    simpl. constructor. unfold shifted, feat_start, feat_end, feat_val. simpl.
    split; [ring|]. split; [ring|done].
  - eapply same_outcome_bind; [apply same_outcome_refl|].
    intros lines ? <-. apply for_lines_shift; [|constructor].
    intros line.
    eapply same_outcome_bind; [apply same_outcome_refl|]. intros a ? <-.
    eapply same_outcome_bind; [apply same_outcome_refl|]. intros b ? <-.
    destruct (in_segment start end_ a b); [|simpl; constructor].
    eapply same_outcome_bind; [apply same_outcome_refl|]. intros v ? <-.
    simpl. constructor. unfold shifted, feat_start, feat_end, feat_val. simpl.
    split; [ring|]. split; [ring|done].
Qed.

Lemma load_frames_shift time_period skip cs vals_s vs vals_v filepath
    start end_ mode level :
  mode <> "relative" ->
  same_outcome (Forall2 (shifted start))
    (load_frames time_period skip cs vals_s vs vals_v filepath start end_
       "relative" level)
    (load_frames time_period skip cs vals_s vs vals_v filepath start end_
       mode level).
Proof.
  intros Hm. unfold load_frames.
  rewrite start_time_relative, (start_time_absolute mode start Hm).
  destruct (String.eqb level "s").
  - eapply same_outcome_bind; [apply same_outcome_refl|].
    intros lines ? <-. apply for_lines_shift; [|constructor].
    intros line.
    eapply same_outcome_bind; [apply same_outcome_refl|]. intros a ? <-.
    eapply same_outcome_bind; [apply same_outcome_refl|]. intros v ? <-.
    simpl. constructor. unfold shifted, feat_start, feat_end, feat_val. simpl.
    split; [ring|]. split; [ring|done].
  - eapply same_outcome_bind; [apply same_outcome_refl|].
    intros lines ? <-. apply for_lines_shift; [|constructor].
    intros line.
    eapply same_outcome_bind; [apply same_outcome_refl|]. intros a ? <-.
    destruct (starts_in_segment start end_ a); [|simpl; constructor].
    eapply same_outcome_bind; [apply same_outcome_refl|]. intros v ? <-.
    simpl. constructor. unfold shifted, feat_start, feat_end, feat_val. simpl.
    split; [ring|]. split; [ring|done].
Qed.

Lemma covarep_frames_shift (s time_period : Q) feats :
  forall fr fa,
    fr == fa - s ->
    Forall2 (shifted s) (covarep_frames time_period fr feats)
      (covarep_frames time_period fa feats).
Proof.
  induction feats as [|feat rest IH]; intros fr fa Hf; simpl; [constructor|].
  constructor.
  - unfold shifted, feat_start, feat_end, feat_val. simpl.
    split; [done|]. split; [rewrite Hf; ring | done].
  - apply IH. rewrite Hf. ring.
Qed.

Lemma load_covarep_shift filepath start end_ mode level :
  mode <> "relative" ->
  same_outcome (Forall2 (shifted start))
    (load_covarep filepath start end_ "relative" level)
    (load_covarep filepath start end_ mode level).
Proof.
  intros Hm. unfold load_covarep.
  rewrite start_time_relative, (start_time_absolute mode start Hm).
  eapply same_outcome_bind; [apply same_outcome_refl|]. intros feats ? <-.
  destruct (String.eqb level "s").
  - simpl. apply covarep_frames_shift. ring.
  - eapply same_outcome_bind; [apply same_outcome_refl|]. intros i ? <-.
    eapply same_outcome_bind; [apply same_outcome_refl|]. intros j ? <-.
    simpl. apply covarep_frames_shift. ring.
Qed.

Lemma load_opensmile_shift filepath start end_ mode level (s : state Q) :
  mode <> "relative" ->
  same_outcome (shifted_stream start)
    (load_opensmile filepath start end_ "relative" level s).2
    (load_opensmile filepath start end_ mode level s).2.
Proof.
  intros Hm. unfold load_opensmile, end_time_of.
  rewrite start_time_relative, (start_time_absolute mode start Hm).
  destruct (String.eqb_spec mode "relative") as [|_]; [done|]. simpl.
  destruct (String.eqb level "s" || Qeq_bool start 0); [|done].
  unfold bind, lift, ret.
  destruct (readlines filepath) as [lines|]; simpl; [|done].
  destruct (Py.last_item lines) as [line|]; simpl; [|done].
  destruct (floats _) as [vals|]; simpl; [|done].
  constructor; [|constructor].
  unfold shifted, feat_start, feat_end, feat_val. simpl.
  split; [ring|]. split; [ring|done].
Qed.

Lemma pure_loader_shift
    (f : string -> Q -> Q -> string -> string -> result (list (feature Q)))
    filepath start end_ mode level (s : state Q) :
  same_outcome (Forall2 (shifted start))
    (f filepath start end_ "relative" level)
    (f filepath start end_ mode level) ->
  same_outcome (shifted_stream start)
    (pure_loader f filepath start end_ "relative" level s).2
    (pure_loader f filepath start end_ mode level s).2.
Proof.
  unfold pure_loader, lift. simpl.
  destruct (f filepath start end_ "relative" level),
    (f filepath start end_ mode level); done.
Qed.

(** Every loader of the table, in relative mode, returns what it returns in
    absolute mode moved down by the start of the segment. *)
Lemma loader_method_shift api method filepath start end_ mode level
    (s : state Q) :
  loader_method api = Ok method -> mode <> "relative" ->
  same_outcome (shifted_stream start)
    (method filepath start end_ "relative" level s).2
    (method filepath start end_ mode level s).2.
Proof.
  unfold loader_method. intros Hm Hmode.
  repeat (match type of Hm with
          | (if ?b then _ else _) = _ => destruct b
          end;
          [injection Hm as <-;
           first [ by apply load_opensmile_shift
                 | apply pure_loader_shift;
                   first [ by apply load_covarep_shift
                         | by apply load_intervals_shift
                         | by apply load_frames_shift ] ] |]).
  discriminate.
Qed.

End ModeShift.

Section AlignedShift.
Local Open Scope Q_scope.

Lemma Qeq_bool_proper (a b c d : Q) :
  a == b -> c == d -> Qeq_bool a c = Qeq_bool b d.
Proof.
  intros Hab Hcd. destruct (Qeq_bool a c) eqn:H1, (Qeq_bool b d) eqn:H2;
    try reflexivity.
  - apply Qeq_bool_iff in H1. apply Qeq_bool_neq in H2. exfalso. apply H2.
    by rewrite <- Hab, <- Hcd.
  - apply Qeq_bool_iff in H2. apply Qeq_bool_neq in H1. exfalso. apply H1.
    by rewrite Hab, Hcd.
Qed.

Lemma overlaps_shift (s ts_r te_r ts_a te_a : Q) (fr fa : feature Q) :
  ts_r == ts_a - s -> te_r == te_a - s -> shifted s fr fa ->
  overlaps ts_r te_r fr = overlaps ts_a te_a fa.
Proof.
  intros Hts Hte (Hs & He & _).
  destruct (overlaps ts_r te_r fr) eqn:H1, (overlaps ts_a te_a fa) eqn:H2;
    try reflexivity.
  - apply overlaps_spec in H1. apply not_true_iff_false in H2.
    exfalso. apply H2, overlaps_spec. lra.
  - apply overlaps_spec in H2. apply not_true_iff_false in H1.
    exfalso. apply H1, overlaps_spec. lra.
Qed.

Lemma overlap_shift (s ts_r te_r ts_a te_a : Q) (fr fa : feature Q) :
  ts_r == ts_a - s -> te_r == te_a - s -> shifted s fr fa ->
  overlap ts_r te_r fr == overlap ts_a te_a fa.
Proof.
  intros Hts Hte (Hs & He & _). unfold overlap.
  rewrite !py_min_Qmin, !py_max_Qmax.
  destruct (Q.min_spec te_r (feat_end fr)) as [[? ->]|[? ->]];
    destruct (Q.min_spec te_a (feat_end fa)) as [[? ->]|[? ->]];
    destruct (Q.max_spec ts_r (feat_start fr)) as [[? ->]|[? ->]];
    destruct (Q.max_spec ts_a (feat_start fa)) as [[? ->]|[? ->]]; lra.
Qed.

Lemma np_multiply_proper (v : list Q) (w w' : Q) :
  w == w' -> Forall2 Qeq (np_multiply v w) (np_multiply v w').
Proof.
  intros Hw. unfold np_multiply. induction v as [|x v IH]; simpl; constructor;
    [by rewrite Hw | done].
Qed.

Lemma np_add_proper (a a' b b' : list Q) :
  Forall2 Qeq a a' -> Forall2 Qeq b b' ->
  same_outcome (Forall2 Qeq) (np_add a b) (np_add a' b').
Proof.
  intros Ha Hb. unfold np_add.
  rewrite <- (Forall2_length _ _ _ Ha), <- (Forall2_length _ _ _ Hb).
  destruct (length a =? length b)%nat eqn:Hlen; simpl.
  - clear Hlen. revert b b' Hb. induction Ha as [|x x' a a' Hx Ha IH];
      intros b b' Hb; simpl; [constructor|].
    destruct Hb as [|y y' b b' Hy Hb]; simpl; [constructor|].
    constructor; [simpl; by rewrite Hx, Hy | by apply IH].
  - destruct Ha as [|x x' a a' Hx Ha].
    + destruct Hb as [|y y' b b' Hy Hb]; [done|].
      destruct Hb; simpl; [|done]. constructor.
    + destruct Ha as [|x2 x2' a a' Hx2 Ha].
      * simpl. clear Hlen. induction Hb as [|y y' b b' Hy Hb IH]; simpl;
          constructor; [simpl; by rewrite Hx, Hy | done].
      * destruct Hb as [|y y' b b' Hy Hb]; [done|].
        destruct Hb as [|y2 y2' b b' Hy2 Hb]; simpl; [|done].
        constructor; [simpl; by rewrite Hx, Hy|].
        constructor; [simpl; by rewrite Hx2, Hy|].
        clear Hlen. induction Ha as [|x3 x3' a a' Hx3 Ha IH]; simpl;
          constructor; [simpl; by rewrite Hx3, Hy | done].
Qed.

Lemma merge_feats_shift (s ts_r te_r ts_a te_a span_r span_a : Q) feats_r feats_a :
  ts_r == ts_a - s -> te_r == te_a - s -> span_r == span_a ->
  Forall2 (shifted s) feats_r feats_a ->
  forall acc_r acc_a,
    Forall2 Qeq acc_r acc_a ->
    same_outcome (Forall2 Qeq)
      (merge_feats ts_r te_r span_r feats_r acc_r)
      (merge_feats ts_a te_a span_a feats_a acc_a).
Proof.
  intros Hts Hte Hspan. induction 1 as [|fr fa rest_r rest_a Hf _ IH];
    intros acc_r acc_a Hacc; simpl; [done|].
  rewrite (overlaps_shift s ts_r te_r ts_a te_a fr fa Hts Hte Hf).
  destruct (overlaps ts_a te_a fa); [|by apply IH].
  unfold feat_weight, py_div.
  change (eqb span_r zero) with (Qeq_bool span_r 0).
  change (eqb span_a zero) with (Qeq_bool span_a 0).
  rewrite (Qeq_bool_proper span_r span_a 0 0 Hspan ltac:(reflexivity)).
  destruct (Qeq_bool span_a 0); [done|]. simpl.
  assert (Hw : (py_min te_r (feat_end fr) - py_max ts_r (feat_start fr)) / span_r
               == (py_min te_a (feat_end fa) - py_max ts_a (feat_start fa))
                  / span_a).
  { pose proof (overlap_shift s ts_r te_r ts_a te_a fr fa Hts Hte Hf) as Ho.
    unfold overlap in Ho. by rewrite Ho, Hspan. }
  destruct Hf as (_ & _ & Hval). rewrite Hval.
  eapply same_outcome_bind.
  - apply np_add_proper; [done|]. by apply np_multiply_proper.
  - intros a a' Ha. by apply IH.
Qed.

Lemma merge_value_shift (s : Q) feats_r feats_a (iv_r iv_a : Q * Q) :
  Forall2 (shifted s) feats_r feats_a -> shifted_interval s iv_r iv_a ->
  same_outcome (Forall2 Qeq)
    (merge_value (PyList feats_r) iv_r) (merge_value (PyList feats_a) iv_a).
Proof.
  intros Hf [Hts Hte].
  destruct Hf as [|fr fa rest_r rest_a Hhd Htl]; [done|].
  change (same_outcome (Forall2 Qeq)
            (merge_feats iv_r.1 iv_r.2 (iv_r.2 - iv_r.1) (fr :: rest_r)
               (np_zeros (length (feat_val fr))))
            (merge_feats iv_a.1 iv_a.2 (iv_a.2 - iv_a.1) (fa :: rest_a)
               (np_zeros (length (feat_val fa))))).
  assert (Hlen : length (feat_val fr) = length (feat_val fa)).
  { destruct Hhd as (_ & _ & ->). done. }
  rewrite Hlen.
  apply (merge_feats_shift s); [done | done | rewrite Hts, Hte; ring | by constructor |].
  unfold np_zeros. apply Forall_Forall2_diag, Forall_forall. by intros.
Qed.

(** With the streams of the segment there and not empty in both modes, the
    aligned stream in relative mode is the one in absolute mode moved down
    by [s], with equal values. *)
Lemma segment_value_shift (s : Q)
    (mfd_r mfd_a : gmap string (gmap string (pyfeats Q)))
    video_id segment_id vr va f_r feats_r f_a feats_a :
  mfd_r !! video_id = Some vr ->
  vr !! segment_id = Some (PyList (f_r :: feats_r)) ->
  mfd_a !! video_id = Some va ->
  va !! segment_id = Some (PyList (f_a :: feats_a)) ->
  Forall2 (shifted s) (f_r :: feats_r) (f_a :: feats_a) ->
  forall grid_r grid_a,
    Forall2 (shifted_interval s) grid_r grid_a ->
    same_outcome (Forall2 (shifted_aligned s))
      (segment_value mfd_r video_id segment_id grid_r)
      (segment_value mfd_a video_id segment_id grid_a).
Proof.
  intros Hvr Hsr Hva Hsa Hf.
  induction 1 as [|iv_r iv_a grid_r grid_a Hiv _ IH]; simpl; [constructor|].
  unfold interval_value, getitem. rewrite Hvr, Hva. simpl.
  unfold resolve_feats, getitem. rewrite Hsr, Hsa. simpl.
  rewrite !res_bind_assoc.
  eapply same_outcome_bind; [by apply (merge_value_shift s)|].
  intros a a' Ha. simpl.
  eapply same_outcome_bind; [exact IH|].
  intros ts ts' Hts. simpl. constructor; [|done].
  destruct Hiv as [H1 H2]. by split.
Qed.

End AlignedShift.

Section ClaimModes.
Context {ext : external Q}.
Local Open Scope Q_scope.

(** C7, as the code has it. In exact arithmetic, every loader returns in
    relative mode the intervals it returns in absolute mode with both
    boundaries moved down by the start [s] of the segment, and the same
    value vectors (or the same exception, or [None] in both modes); and for
    a (video, segment) whose stream of the target modality is there and not
    empty, so that no other segment's stream is substituted, the aligned
    stream in relative mode is the one in absolute mode with its boundaries
    moved down by [s] and equal values. *)
Theorem timestamp_mode_shift :
  (forall api method filepath start end_ mode level (s : state Q),
      loader_method api = Ok method -> mode <> "relative" ->
      same_outcome (shifted_stream start)
        (method filepath start end_ "relative" level s).2
        (method filepath start end_ mode level s).2)
  /\ (forall (s : Q) (mfd_r mfd_a : gmap string (gmap string (pyfeats Q)))
        video_id segment_id vr va f_r feats_r f_a feats_a grid_r grid_a,
        mfd_r !! video_id = Some vr ->
        vr !! segment_id = Some (PyList (f_r :: feats_r)) ->
        mfd_a !! video_id = Some va ->
        va !! segment_id = Some (PyList (f_a :: feats_a)) ->
        Forall2 (shifted s) (f_r :: feats_r) (f_a :: feats_a) ->
        Forall2 (shifted_interval s) grid_r grid_a ->
        same_outcome (Forall2 (shifted_aligned s))
          (segment_value mfd_r video_id segment_id grid_r)
          (segment_value mfd_a video_id segment_id grid_a)).
Proof.
  split.
  - intros api method filepath start end_ mode level s Hm Hmode.
    by eapply loader_method_shift.
  - intros s mfd_r mfd_a video_id segment_id vr va f_r feats_r f_a feats_a
      grid_r grid_a Hvr Hsr Hva Hsa Hf Hg.
    by eapply segment_value_shift.
Qed.

End ClaimModes.

Lemma timestamp_mode_shift_witness :
  loader_method (ext := gap_files) "words"
  = Ok (pure_loader (load_words (ext := gap_files)))
  /\ "absolute" <> "relative"
  /\ same_outcome (shifted_stream 1)
       (pure_loader (load_words (ext := gap_files)) "p2.csv" 1%Q 2%Q
          "relative" "s" (fresh "relative")).2
       (pure_loader (load_words (ext := gap_files)) "p2.csv" 1%Q 2%Q
          "absolute" "s" (fresh "relative")).2.
Proof.
  split; [reflexivity|]. split; [discriminate|].
  apply (proj1 (timestamp_mode_shift (ext := gap_files)) "words");
    [reflexivity | discriminate].
Defined.

(** C7 fails as stated for the aligned output: segment ["2"], of absolute
    start 1.0, has an empty stream in [modality_1], so the stream of
    segment ["1"] is taken for it; in absolute mode that stream lies on
    (0, 1) and meets the grid interval (1, 2) in a point, which gives the
    value 0; in relative mode both lie on (0, 1), which gives the value
    4. *)
Lemma fallback_breaks_mode_shift :
  (exists ts te a,
      load_and_align "absolute" "modality_1" "v1" "2" = Some [(ts, te, [a])]
      /\ (ts == 1 /\ te == 2 /\ a == 0)%Q)
  /\ (exists ts te r,
        load_and_align "relative" "modality_1" "v1" "2" = Some [(ts, te, [r])]
        /\ (ts == 0 /\ te == 1 /\ r == 4)%Q).
Proof.
  split; eexists _, _, _; (split; [vm_compute; reflexivity|]);
    repeat split; reflexivity.
Qed.

(** * Further properties of the code *)

(** ** One grid interval *)

Section MergeFacts.
Context {num : Type} {arith : Arith num}.

Lemma merge_feats_no_overlap (a b d : num) (feats : list (feature num)) acc :
  Forall (fun g => overlaps a b g = false) feats ->
  merge_feats a b d feats acc = Ok acc.
Proof.
  induction 1 as [|g rest Hg _ IH]; simpl; [done|]. by rewrite Hg.
Qed.

Lemma merge_feats_zero_duration (a b d : num) (feats : list (feature num)) :
  eqb d zero = true ->
  Exists (fun g => overlaps a b g = true) feats ->
  forall acc, merge_feats a b d feats acc = Raise ZeroDivisionError.
Proof.
  intros Hd. induction feats as [|g rest IH]; intros Hex acc; simpl.
  - by apply Exists_nil in Hex.
  - destruct (overlaps a b g) eqn:Hg.
    + unfold feat_weight, py_div. by rewrite Hd.
    + apply IH. apply Exists_cons in Hex as [Hex|Hex]; [congruence | done].
Qed.

(** The interval's value when the segment's own stream is not empty: the
    probe succeeds and nothing is substituted. *)
Lemma interval_value_own (mfd : gmap string (gmap string (pyfeats num)))
    video_id segment_id vf f rest (iv : num * num) :
  mfd !! video_id = Some vf ->
  vf !! segment_id = Some (PyList (f :: rest)) ->
  interval_value mfd video_id segment_id iv
  = res_bind (merge_feats iv.1 iv.2 (sub iv.2 iv.1) (f :: rest)
                (np_zeros (length (feat_val f))))
      (fun v => Ok (iv.1, iv.2, v)).
Proof.
  intros Hv Hs. unfold interval_value, getitem, resolve_feats, getitem.
  rewrite Hv. simpl. rewrite Hs. reflexivity.
Qed.

Lemma align_interval_own modality
    (mfd : gmap string (gmap string (pyfeats num)))
    video_id segment_id vf f rest (a b : num) (s : state num) :
  mfd !! video_id = Some vf ->
  vf !! segment_id = Some (PyList (f :: rest)) ->
  align_interval modality mfd video_id segment_id (a, b) s
  = (s, res_bind (merge_feats a b (sub b a) (f :: rest)
                    (np_zeros (length (feat_val f))))
          (fun v => Ok (a, b, v))).
Proof.
  intros Hv Hs.
  rewrite (surjective_pairing (align_interval _ _ _ _ _ _)).
  rewrite align_interval_value, align_interval_state, Hv, Hs. simpl.
  by rewrite (interval_value_own mfd video_id segment_id vf f rest (a, b)).
Qed.

(** X1. Where no tuple of the modality's stream meets the grid interval,
    the aligned vector is all zeros, of the length of the stream's first
    vector; nothing is printed, and the span of the interval is not divided
    by, so that an interval without duration is fine. *)
Theorem gap_is_filled_with_zeros (modality : string)
    (mfd : gmap string (gmap string (pyfeats num)))
    (video_id segment_id : string) (vf : gmap string (pyfeats num))
    (f : feature num) (rest : list (feature num)) (a b : num)
    (s : state num) :
  mfd !! video_id = Some vf ->
  vf !! segment_id = Some (PyList (f :: rest)) ->
  Forall (fun g => overlaps a b g = false) (f :: rest) ->
  align_interval modality mfd video_id segment_id (a, b) s
  = (s, Ok (a, b, np_zeros (length (feat_val f)))).
Proof.
  intros Hv Hs Hno.
  rewrite (align_interval_own modality mfd video_id segment_id vf f rest) by done.
  by rewrite merge_feats_no_overlap.
Qed.

(** X2. A grid interval without duration that a tuple of the stream meets
    is a division by zero: the weight of the first such tuple is computed
    before anything is added. *)
Theorem zero_duration_interval (modality : string)
    (mfd : gmap string (gmap string (pyfeats num)))
    (video_id segment_id : string) (vf : gmap string (pyfeats num))
    (f : feature num) (rest : list (feature num)) (a b : num)
    (s : state num) :
  mfd !! video_id = Some vf ->
  vf !! segment_id = Some (PyList (f :: rest)) ->
  eqb (sub b a) zero = true ->
  Exists (fun g => overlaps a b g = true) (f :: rest) ->
  align_interval modality mfd video_id segment_id (a, b) s
  = (s, Raise ZeroDivisionError).
Proof.
  intros Hv Hs Hd Hex.
  rewrite (align_interval_own modality mfd video_id segment_id vf f rest) by done.
  by rewrite merge_feats_zero_duration.
Qed.

(** X3. On a stream that is not empty and whose vectors all have one
    length, an interval with a duration is always aligned: no exception, no
    diagnostic, and a vector of that length on the interval's boundaries.
    This holds in any arithmetic, binary64 included. *)
Theorem align_interval_total (modality : string)
    (mfd : gmap string (gmap string (pyfeats num)))
    (video_id segment_id : string) (vf : gmap string (pyfeats num))
    (f : feature num) (rest : list (feature num)) (a b : num)
    (s : state num) :
  mfd !! video_id = Some vf ->
  vf !! segment_id = Some (PyList (f :: rest)) ->
  Forall (fun g => length (feat_val g) = length (feat_val f)) rest ->
  eqb (sub b a) zero = false ->
  exists v,
    align_interval modality mfd video_id segment_id (a, b) s
    = (s, Ok (a, b, v))
    /\ length v = length (feat_val f).
Proof.
  intros Hv Hs Hlen Hd.
  rewrite (align_interval_own modality mfd video_id segment_id vf f rest) by done.
  destruct (merge_feats_total a b (sub b a) (length (feat_val f)) (f :: rest))
    with (acc := np_zeros (num := num) (length (feat_val f)))
    as (v & Hm & Hl).
  - done.
  - by apply Forall_cons.
  - apply length_replicate.
  - exists v. by rewrite Hm.
Qed.

End MergeFacts.

Lemma gap_is_filled_with_zeros_witness :
  align_interval "modality_1" (with_gap_target (num := Q)) "video" "2"
    (5, 6)%Q with_gap
  = (with_gap,
     Ok (5, 6, np_zeros (length (feat_val (num := Q) (0, 1 # 2, [2]))))%Q).
Proof.
  apply (gap_is_filled_with_zeros "modality_1" with_gap_target "video" "2"
           {[ "2" := PyList scenario_target; "3" := PyList [] ]}
           (0, 1 # 2, [2])%Q [(1 # 2, 3 # 2, [4]); (3 # 2, 2, [6])]%Q
           5%Q 6%Q with_gap).
  - vm_compute. reflexivity.
  - vm_compute. reflexivity.
  - repeat (apply Forall_cons; split; [vm_compute; reflexivity|]).
    by apply Forall_nil.
Defined.

Lemma zero_duration_interval_witness :
  align_interval "modality_1" (with_gap_target (num := Q)) "video" "2"
    (1, 1)%Q with_gap
  = (with_gap, Raise ZeroDivisionError).
Proof.
  apply (zero_duration_interval "modality_1" with_gap_target "video" "2"
           {[ "2" := PyList scenario_target; "3" := PyList [] ]}
           (0, 1 # 2, [2])%Q [(1 # 2, 3 # 2, [4]); (3 # 2, 2, [6])]%Q
           1%Q 1%Q with_gap).
  - vm_compute. reflexivity.
  - vm_compute. reflexivity.
  - vm_compute. reflexivity.
  - apply Exists_cons_tl, Exists_cons_hd. vm_compute. reflexivity.
Defined.

Lemma align_interval_total_witness :
  exists v,
    align_interval "modality_1" (with_gap_target (num := float)) "video" "2"
      (lit 0, lit 1) with_gap
    = (with_gap, Ok (lit 0, lit 1, v))
    /\ length v = length (feat_val (num := float) (lit 0, lit (1 # 2), [lit 2])).
Proof.
  apply (align_interval_total "modality_1" with_gap_target "video" "2"
           {[ "2" := PyList scenario_target; "3" := PyList [] ]}
           (lit 0, lit (1 # 2), [lit 2])
           [(lit (1 # 2), lit (3 # 2), [lit 4]); (lit (3 # 2), lit 2, [lit 6])]
           (lit 0) (lit 1) with_gap).
  - vm_compute. reflexivity.
  - vm_compute. reflexivity.
  - repeat (apply Forall_cons; split; [reflexivity|]). by apply Forall_nil.
  - vm_compute. reflexivity.
Defined.

(** ** The object around [align] *)

Section AlignObject.
Context {num : Type} {arith : Arith num}.

Lemma fold_items_raise_only {V W} (items : list (string * V))
    (f : string -> V -> result W) (e0 : exn) :
  (forall k v e, (k, v) ∈ items -> f k v = Raise e -> e = e0) ->
  forall out e, fold_items items f out = Raise e -> e = e0.
Proof.
  intros Hf out e Hr.
  apply fold_items_raise_inv in Hr as (k & v & Hin & Hkv). eauto.
Qed.

Lemma alignments_value_none (order : iteration)
    (fd : gmap string (gmap string (gmap string (pyfeats num))))
    pivot pfd video_id segs segment_id :
  fd !! pivot = Some pfd -> pfd !! video_id = Some segs ->
  segs !! segment_id = Some PyNone ->
  alignments_value fd pivot = Raise TypeError.
Proof.
  intros Hp Hv Hs. unfold alignments_value, getitem. rewrite Hp. simpl.
  set (inner := fun (_ : string) (segments : gmap string (pyfeats num)) =>
                  fold_items (iteritems segments)
                    (fun (_ : string) features => timings features) ∅).
  assert (Hin : forall k v e, inner k v = Raise e -> e = TypeError).
  { intros k v e. unfold inner. apply fold_items_raise_only.
    intros k' [|l] e' _; simpl; congruence. }
  destruct (fold_items_raise (iteritems segs)
              (fun (_ : string) features => timings features)
              segment_id PyNone TypeError)
    with (out := (∅ : gmap string (list (num * num)))) as [e1 He1];
    [by apply elem_of_iteritems | done |].
  destruct (fold_items_raise (iteritems pfd) inner video_id segs e1)
    with (out := (∅ : gmap string (gmap string (list (num * num)))))
    as [e2 He2]; [by apply elem_of_iteritems | exact He1 |].
  change (fold_items (iteritems pfd) inner ∅ = Raise TypeError).
  rewrite He2. f_equal. revert He2. apply fold_items_raise_only.
  intros k v e _. apply Hin.
Qed.

(** What [align] does to the object, by its result. *)
Lemma align_state (order : iteration) pivot (s : state num) :
  self (align pivot s).1
  = match (align pivot s).2 with
    | Ok out => with_aligned_feature_dict out (self s)
    | Raise _ => self s
    end.
Proof.
  destruct (align pivot s) as [s' r] eqn:Ha. simpl.
  unfold align in Ha. unfold bind at 1, get at 1 in Ha.
  unfold bind at 1, lift at 1 in Ha.
  destruct (modalities (self s)) as [mods|]; simpl in Ha;
    [|by injection Ha as <- <-].
  unfold bind at 1 in Ha.
  pose proof (keeps_self_get_alignments pivot s) as Hs.
  destruct (get_alignments pivot s) as [s1 [al|e]]; simpl in *;
    [|by injection Ha as <- <-].
  unfold bind at 1 in Ha.
  pose proof (keeps_self_align_loop (iteritems mods).*1 pivot al ∅ s1) as Hs2.
  destruct (align_loop _ _ _ _ s1) as [s2 [out|e]]; simpl in *;
    injection Ha as <- <-; simpl; by rewrite Hs2, Hs.
Qed.

(** X4. [align] assigns [self.aligned_feature_dict] when it returns, and
    only then: a run that raises leaves the object as it was, with the
    aligned dictionary of an earlier run if there was one. The feature
    dictionary and the modalities are never assigned. *)
Theorem align_assigns_on_success (order : iteration) (pivot : string)
    (s : state num) :
  match (align pivot s).2 with
  | Ok out =>
      self (align pivot s).1 = with_aligned_feature_dict out (self s)
      /\ aligned_feature_dict (self (align pivot s).1) = Some out
  | Raise _ => self (align pivot s).1 = self s
  end.
Proof.
  rewrite (align_state order pivot s).
  destruct (align pivot s).2; [split|]; reflexivity.
Qed.

(** X5. A pivot modality with a stream that is [None] (what
    [load_opensmile] returns for a segment of a video-level file that does
    not start at 0) cannot be aligned on: [get_alignments] iterates each of
    the pivot's streams, and it raises [TypeError], and so does [align],
    whatever the order of the dictionaries; the object is left as it
    was. *)
Theorem align_on_none_pivot (order : iteration) (s : state num)
    (pivot video_id segment_id : string)
    (mods : gmap string modality_info)
    (fd : gmap string (gmap string (gmap string (pyfeats num))))
    (pfd : gmap string (gmap string (pyfeats num)))
    (segs : gmap string (pyfeats num)) :
  modalities (self s) = Some mods ->
  feature_dict (self s) = Some fd ->
  fd !! pivot = Some pfd ->
  pfd !! video_id = Some segs ->
  segs !! segment_id = Some PyNone ->
  (get_alignments pivot s).2 = Raise TypeError
  /\ (align pivot s).2 = Raise TypeError
  /\ self (align pivot s).1 = self s.
Proof.
  intros Hm Hfd Hp Hv Hs.
  pose proof (alignments_value_none order fd pivot pfd video_id segs
                segment_id Hp Hv Hs) as Hal.
  assert (Ha : (align pivot s).2 = Raise TypeError).
  { rewrite align_value_eq. unfold align_value. rewrite Hm, Hfd. simpl.
    by rewrite Hal. }
  split; [|split; [done|]].
  - rewrite get_alignments_value, Hfd. simpl. exact Hal.
  - rewrite (align_state order pivot s), Ha. reflexivity.
Qed.

End AlignObject.

Section PickleLoad.
Context {num : Type} {arith : Arith num} {ext : external num}.

(** [load] of an object made with [stored=True]. *)
Lemma load_stored (order : iteration) (s : state num) :
  stored (self s) = true ->
  load s
  = match pickle_load (dataset_file (self s)) with
    | Ok fd =>
        ({| self := with_feature_dict fd (self s); stdout := stdout s;
            loader_calls := loader_calls s;
            warning_hist := warning_hist s |}, Ok fd)
    | Raise e => (s, Raise e)
    end.
Proof.
  intros Hst. unfold load. unfold bind at 1, get at 1. rewrite Hst.
  unfold bind, lift, update_self, modify, ret.
  by destruct (pickle_load (dataset_file (self s))).
Qed.

(** X6. On an object made to load from a pickle file ([stored=True]),
    whose [self.modalities] was never assigned, [load] returns what the
    pickle file holds, or raises its error; it does not assign
    [self.modalities], which [align] reads first. So [load] followed by
    [align] never returns: it raises the error of the pickle file, or
    [AttributeError]. *)
Theorem align_after_pickle_load (order : iteration) (s : state num)
    (pivot : string) :
  stored (self s) = true ->
  modalities (self s) = None ->
  (load s).2 = pickle_load (dataset_file (self s))
  /\ (bind load (fun _ => align pivot) s).2
     = Raise match pickle_load (dataset_file (self s)) with
             | Ok _ => AttributeError
             | Raise e => e
             end.
Proof.
  intros Hst Hm. unfold bind at 1. rewrite (load_stored order s Hst).
  destruct (pickle_load (dataset_file (self s))) as [fd|e]; simpl; [|done].
  split; [done|]. unfold align, bind, get, lift. simpl. by rewrite Hm.
Qed.

End PickleLoad.

Lemma align_on_none_pivot_witness :
  (get_alignments "modality_0" (loaded none_pivot_features)).2
  = Raise TypeError
  /\ (align "modality_0" (loaded none_pivot_features)).2 = Raise TypeError
  /\ self (align "modality_0" (loaded none_pivot_features)).1
     = self (loaded none_pivot_features).
Proof.
  apply (align_on_none_pivot key_order (loaded none_pivot_features)
           "modality_0" "video" "2" two_modalities none_pivot_features
           {[ "video" := {[ "1" := PyList scenario_pivot; "2" := PyNone ]} ]}
           {[ "1" := PyList scenario_pivot; "2" := PyNone ]}).
  - reflexivity.
  - reflexivity.
  - vm_compute. reflexivity.
  - vm_compute. reflexivity.
  - vm_compute. reflexivity.
Defined.

Lemma align_after_pickle_load_witness :
  (load (ext := pickle_of scenario_features)
     (initial (init "dataset.pkl" true "absolute"))).2
  = Ok scenario_features
  /\ (bind (load (ext := pickle_of scenario_features))
        (fun _ => align "modality_0")
        (initial (init "dataset.pkl" true "absolute"))).2
     = Raise AttributeError.
Proof.
  apply (align_after_pickle_load (ext := pickle_of scenario_features)
           key_order (initial (init "dataset.pkl" true "absolute"))
           "modality_0"); reflexivity.
Defined.

(** ** A stream on its own grid *)

Section OwnGrid.
Local Open Scope Q_scope.

Lemma Forall2_Qeq_nth (a b : list Q) :
  length a = length b -> (forall i, nth i a 0 == nth i b 0) ->
  Forall2 Qeq a b.
Proof.
  revert b. induction a as [|x a IH]; intros [|y b] Hlen Hnth;
    simpl in *; try discriminate; constructor.
  - apply (Hnth 0%nat).
  - apply IH; [lia|]. intros i. apply (Hnth (S i)).
Qed.

Lemma overlaps_own (g : feature Q) :
  positive g -> overlaps (feat_start g) (feat_end g) g = true.
Proof. unfold positive. intros Hp. apply overlaps_spec. lra. Qed.

Lemma weight_own (g : feature Q) :
  positive g -> weight (feat_start g) (feat_end g) g == 1.
Proof.
  unfold positive, weight. intros Hp. simpl.
  rewrite py_min_Qmin, py_max_Qmax, Q.min_id, Q.max_id. field. lra.
Qed.

(** A tuple that shares no more than an end point with [g] weighs nothing
    on the interval of [g]. *)
Lemma weight_disjoint (g f : feature Q) :
  positive g -> positive f -> disjoint g f ->
  overlaps (feat_start g) (feat_end g) f = true ->
  weight (feat_start g) (feat_end g) f == 0.
Proof.
  unfold positive, disjoint. intros Hg Hf Hd [Ho1 Ho2]%overlaps_spec.
  unfold weight. simpl. rewrite py_min_Qmin, py_max_Qmax.
  destruct Hd as [Hd|Hd]; [lra|].
  rewrite Q.min_r, Q.max_l by lra.
  assert (He : feat_end f == feat_start g) by lra.
  rewrite He. field. lra.
Qed.

Lemma Qsum_weight_disjoint (g : feature Q) (i : nat) (l : list (feature Q)) :
  positive g -> Forall positive l -> Forall (disjoint g) l ->
  Qsum (map (fun f => nth i (feat_val f) 0
                      * weight (feat_start g) (feat_end g) f)
          (overlapping (feat_start g) (feat_end g) l)) == 0.
Proof.
  intros Hg Hpos Hd. unfold overlapping.
  induction l as [|f l IH]; [reflexivity|].
  apply Forall_cons in Hpos as [Hf Hpos]. apply Forall_cons in Hd as [Hdf Hd].
  destruct (overlaps (feat_start g) (feat_end g) f) eqn:Ho.
  - rewrite filter_cons_True by (by apply Is_true_true). simpl.
    fold (weight (feat_start g) (feat_end g) f).
    rewrite (weight_disjoint g f Hg Hf Hdf Ho), IH by done. ring.
  - rewrite filter_cons_False by (rewrite Is_true_false; congruence).
    by apply IH.
Qed.

Lemma pairwise_disjoint_middle (l1 l2 : list (feature Q)) (g : feature Q) :
  pairwise_disjoint (l1 ++ g :: l2) ->
  Forall (disjoint g) l1 /\ Forall (disjoint g) l2.
Proof.
  intros Hpd.
  apply (pairwise_disjoint_perm _ (g :: l1 ++ l2)) in Hpd;
    [|by rewrite Permutation_middle].
  destruct Hpd as [Hd _]. by apply Forall_app in Hd.
Qed.

(** The aligned vector of a stream on the interval of one of its own
    tuples is the value of that tuple. *)
Lemma merge_value_own (feats : list (feature Q)) (g : feature Q) (n : nat) :
  g ∈ feats ->
  Forall positive feats -> pairwise_disjoint feats ->
  Forall (fun f => length (feat_val f) = n) feats ->
  exists r,
    merge_value (PyList feats) (bounds g) = Ok r
    /\ Forall2 Qeq r (feat_val g).
Proof.
  intros Hin Hpos Hpd Hdim.
  assert (Hg : positive g) by (rewrite Forall_forall in Hpos; auto).
  assert (Hn : length (feat_val g) = n) by (rewrite Forall_forall in Hdim; auto).
  destruct (merge_feats_weighted (feat_start g) (feat_end g) n feats Hg Hdim
              (np_zeros n)) as (r & Hr & Hlen & Hnth).
  { unfold np_zeros. apply length_replicate. }
  exists r. split.
  - unfold merge_value. destruct feats as [|f rest]; [by apply elem_of_nil in Hin|].
    simpl. apply Forall_cons in Hdim as [-> _]. exact Hr.
  - apply Forall2_Qeq_nth; [congruence|]. intros i.
    rewrite Hnth, nth_np_zeros.
    apply list_elem_of_split in Hin as (l1 & l2 & ->).
    destruct (pairwise_disjoint_middle l1 l2 g Hpd) as [Hd1 Hd2].
    apply Forall_app in Hpos as [Hp1 [_ Hp2]%Forall_cons].
    unfold overlapping. rewrite filter_app, filter_cons_True
      by (apply Is_true_true; by apply overlaps_own).
    rewrite map_app, Qsum_app. simpl.
    fold (weight (feat_start g) (feat_end g) g).
    pose proof (Qsum_weight_disjoint g i l1 Hg Hp1 Hd1) as H1.
    pose proof (Qsum_weight_disjoint g i l2 Hg Hp2 Hd2) as H2.
    unfold overlapping in H1, H2. rewrite H1, H2, (weight_own g Hg). ring.
Qed.

Lemma segment_value_own (mfd : gmap string (gmap string (pyfeats Q)))
    video_id segment_id vf (feats : list (feature Q)) (n : nat) :
  mfd !! video_id = Some vf ->
  vf !! segment_id = Some (PyList feats) ->
  Forall positive feats -> pairwise_disjoint feats ->
  Forall (fun f => length (feat_val f) = n) feats ->
  forall gs, Forall (fun g => g ∈ feats) gs ->
    exists out,
      segment_value mfd video_id segment_id (map bounds gs) = Ok out
      /\ Forall2 same_values out gs.
Proof.
  intros Hv Hs Hpos Hpd Hdim. induction 1 as [|g gs Hg _ IH]; simpl.
  - exists []. split; [done | constructor].
  - destruct (merge_value_own feats g n Hg Hpos Hpd Hdim) as (r & Hr & Hq).
    destruct IH as (out & Hout & Hsame).
    exists ((feat_start g, feat_end g, r) :: out). split.
    + unfold interval_value, getitem, resolve_feats, getitem.
      rewrite Hv. cbn [of_option res_bind]. rewrite Hs.
      destruct feats as [|f rest]; [by apply elem_of_nil in Hg|].
      cbn [of_option res_bind probe]. rewrite Hr.
      cbn [res_bind]. by rewrite Hout.
    + constructor; [|done]. split; [reflexivity | exact Hq].
Qed.

(** X7. A modality whose stream for a segment is the pivot's grid itself
    (tuples of positive duration that share no more than end points, with
    vectors of one length) comes out of the alignment with its own values
    on each interval: a neighbour that touches an interval weighs nothing
    on it. Exact rational arithmetic. *)
Theorem aligned_on_own_grid (modality : string)
    (mfd : gmap string (gmap string (pyfeats Q)))
    (video_id segment_id : string) (vf : gmap string (pyfeats Q))
    (feats : list (feature Q)) (n : nat) (s : state Q) :
  mfd !! video_id = Some vf ->
  vf !! segment_id = Some (PyList feats) ->
  Forall positive feats -> pairwise_disjoint feats ->
  Forall (fun f => length (feat_val f) = n) feats ->
  exists out,
    (for_intervals modality mfd video_id segment_id (map bounds feats) [] s).2
    = Ok out
    /\ Forall2 same_values out feats.
Proof.
  intros Hv Hs Hpos Hpd Hdim.
  destruct (segment_value_own mfd video_id segment_id vf feats n
              Hv Hs Hpos Hpd Hdim feats) as (out & Hout & Hsame).
  { apply Forall_forall. auto. }
  exists out. split; [|done].
  rewrite for_intervals_value, Hout. reflexivity.
Qed.

End OwnGrid.

Lemma aligned_on_own_grid_witness :
  exists out,
    (for_intervals "modality_1"
       {[ "video" := {[ "1" := PyList (scenario_target (num := Q)) ]} ]}
       "video" "1" (map bounds (scenario_target (num := Q))) []
       scenario).2 = Ok out
    /\ Forall2 same_values out scenario_target.
Proof.
  apply (aligned_on_own_grid "modality_1"
           {[ "video" := {[ "1" := PyList (scenario_target (num := Q)) ]} ]}
           "video" "1" {[ "1" := PyList (scenario_target (num := Q)) ]}
           scenario_target 1 scenario).
  - vm_compute. reflexivity.
  - vm_compute. reflexivity.
  - repeat (apply Forall_cons; split; [reflexivity|]). by apply Forall_nil.
  - simpl. repeat split; try (by apply Forall_nil);
      repeat (apply Forall_cons; split; [left; simpl; discriminate|]);
      by apply Forall_nil.
  - repeat (apply Forall_cons; split; [reflexivity|]). by apply Forall_nil.
Defined.

(** ** Reading the lines of a file *)

Section Lines.
Context {num : Type} {arith : Arith num} {ext : external num}.

Lemma for_lines_blank l1 b l2
    (body : string -> result (option (feature num))) :
  Py.strip b = "" ->
  forall features,
    for_lines (l1 ++ b :: l2) body features = for_lines l1 body features.
Proof.
  intros Hb. induction l1 as [|line rest IH]; intros features; simpl.
  - by rewrite Hb.
  - destruct (String.eqb (Py.strip line) ""); [done|].
    destruct (body (Py.strip line)) as [o|e]; simpl; [apply IH | done].
Qed.

(** X8. Every loader of a text file stops at the first line that is empty
    once stripped: whatever follows it in the file, well formed or not, is
    never read. For the loaders that skip header lines, this holds of a
    blank line after the header. *)
Theorem blank_line_ends_the_file (p1 p2 : string) (l1 l2 : list string)
    (b : string) :
  readlines p1 = Ok (l1 ++ b :: l2) ->
  readlines p2 = Ok l1 ->
  Py.strip b = "" ->
  (forall cs ce cv vs ve vv start end_ timestamps level,
      load_intervals cs ce cv vs ve vv p1 start end_ timestamps level
      = load_intervals cs ce cv vs ve vv p2 start end_ timestamps level)
  /\ (forall time_period skip cs vals_s vs vals_v start end_ timestamps level,
        (skip <= length l1)%nat ->
        load_frames time_period skip cs vals_s vs vals_v p1 start end_
          timestamps level
        = load_frames time_period skip cs vals_s vs vals_v p2 start end_
            timestamps level).
Proof.
  intros H1 H2 Hb. split.
  - intros. unfold load_intervals. rewrite H1, H2. simpl.
    destruct (String.eqb level "s"); by rewrite for_lines_blank.
  - intros tp skip cs vals_s vs vals_v start end_ timestamps level Hskip.
    unfold load_frames. rewrite H1, H2. simpl.
    rewrite drop_app_le by done.
    destruct (String.eqb level "s"); by rewrite for_lines_blank.
Qed.

Lemma for_lines_length lines
    (body : string -> result (option (feature num))) :
  forall features feats,
    for_lines lines body features = Ok feats ->
    (length feats <= length features + length (stripped_lines lines))%nat
    /\ ((forall line o, body line = Ok o -> is_Some o) ->
        length feats = (length features + length (stripped_lines lines))%nat).
Proof.
  intros features feats Hr.
  apply for_lines_ok in Hr as (outs & Houts & ->).
  rewrite length_app, (Forall2_length _ _ _ Houts). split.
  - assert (length (omap id outs) <= length outs)%nat; [|lia].
    clear. induction outs as [|[f|] outs IH]; cbn in *; lia.
  - intros Hsome. f_equal. clear features.
    induction Houts as [|line o ls os Hb _ IH]; [done|].
    destruct (Hsome _ _ Hb) as [f ->]. cbn in *. by rewrite IH.
Qed.

(** X9. At segment level the window does not select: every line up to the
    first blank one gives one tuple. At video level the tuples are no more
    than the lines. *)
Theorem segment_level_keeps_every_line (filepath : string)
    (lines : list string) (start end_ : num) (timestamps level : string)
    (feats : list (feature num)) :
  readlines filepath = Ok lines ->
  (forall cs ce cv vs ve vv,
      load_intervals cs ce cv vs ve vv filepath start end_ timestamps level
      = Ok feats ->
      if String.eqb level "s"
      then length feats = length (stripped_lines lines)
      else (length feats <= length (stripped_lines lines))%nat)
  /\ (forall time_period skip cs vals_s vs vals_v,
        load_frames time_period skip cs vals_s vs vals_v filepath start end_
          timestamps level = Ok feats ->
        if String.eqb level "s"
        then length feats = length (stripped_lines (drop skip lines))
        else (length feats <= length (stripped_lines (drop skip lines)))%nat).
Proof.
  intros Hl. split.
  - intros cs ce cv vs ve vv. unfold load_intervals. rewrite Hl. simpl.
    destruct (String.eqb level "s"); intros Hr;
      apply for_lines_length in Hr as [Hle Heq]; [|exact Hle].
    apply Heq. intros line o Hb.
    apply res_bind_ok_inv in Hb as (x & _ & Hb).
    apply res_bind_ok_inv in Hb as (y & _ & Hb).
    apply res_bind_ok_inv in Hb as (z & _ & [= <-]). eauto.
  - intros tp skip cs vals_s vs vals_v. unfold load_frames. rewrite Hl. simpl.
    destruct (String.eqb level "s"); intros Hr;
      apply for_lines_length in Hr as [Hle Heq]; [|exact Hle].
    apply Heq. intros line o Hb.
    apply res_bind_ok_inv in Hb as (x & _ & Hb).
    apply res_bind_ok_inv in Hb as (z & _ & [= <-]). eauto.
Qed.




(** ** The frames of [load_covarep] *)

Lemma covarep_frames_values (time_period feat_start : num) rows :
  map feat_val (covarep_frames time_period feat_start rows) = rows.
Proof.
  revert feat_start. induction rows as [|row rest IH]; intros fs; simpl;
    [done | by rewrite IH].
Qed.

Lemma covarep_frames_head (time_period fs : num) rows f :
  head (covarep_frames time_period fs rows) = Some f -> feat_start f = fs.
Proof. destruct rows; simpl; [done | by intros [= <-]]. Qed.

Lemma covarep_frames_tile (time_period : num) rows :
  forall fs (i : nat) f g,
    covarep_frames time_period fs rows !! i = Some f ->
    covarep_frames time_period fs rows !! S i = Some g ->
    feat_start g = feat_end f.
Proof.
  induction rows as [|row rest IH]; intros fs i f g; simpl; [done|].
  destruct i as [|i]; simpl.
  - intros [= <-] Hg. simpl.
    apply (covarep_frames_head time_period (add fs time_period) rest).
    by rewrite head_lookup.
  - apply IH.
Qed.

Lemma covarep_frames_period (time_period : num) rows :
  forall fs,
    Forall (fun f => feat_end f = add (feat_start f) time_period)
      (covarep_frames time_period fs rows).
Proof.
  induction rows as [|row rest IH]; intros fs; simpl; constructor; auto.
Qed.

Lemma load_covarep_frames filepath (start end_ : num) timestamps level rows
    feats :
  loadmat_features filepath = Ok rows ->
  load_covarep filepath start end_ timestamps level = Ok feats ->
  exists sub,
    feats = covarep_frames (lit (1 # 100)) (start_time_of timestamps start) sub
    /\ (if String.eqb level "s" then sub = rows
        else exists a b : nat, sub = drop a (take b rows)).
Proof.
  intros Hrows. unfold load_covarep. rewrite Hrows. simpl.
  destruct (String.eqb level "s").
  - intros [= <-]. eauto.
  - intros Hr. apply res_bind_ok_inv in Hr as (si & _ & Hr).
    apply res_bind_ok_inv in Hr as (ei & _ & [= <-]).
    eexists. split; [reflexivity|]. unfold Py.slice. eauto.
Qed.

(** X11. The frames [load_covarep] returns carry rows of the matrix in the
    file, in their order: all of them at segment level, where loading a
    matrix that was read cannot fail, and a block of consecutive rows at
    video level. The first frame starts at the start time, every frame
    lasts the period of 0.01 s, and each frame starts exactly where the one
    before it ends, in any arithmetic. *)
Theorem covarep_frames_follow_rows (filepath : string) (start end_ : num)
    (timestamps level : string) (rows : list (list num)) :
  loadmat_features filepath = Ok rows ->
  (String.eqb level "s" = true ->
   exists feats,
     load_covarep filepath start end_ timestamps level = Ok feats
     /\ map feat_val feats = rows)
  /\ forall feats,
       load_covarep filepath start end_ timestamps level = Ok feats ->
       (exists a b : nat, map feat_val feats = drop a (take b rows))
       /\ (forall f, head feats = Some f ->
                     feat_start f = start_time_of timestamps start)
       /\ Forall (fun f => feat_end f = add (feat_start f) (lit (1 # 100)))
            feats
       /\ forall (i : nat) f g,
            feats !! i = Some f -> feats !! S i = Some g ->
            feat_start g = feat_end f.
Proof.
  intros Hrows. split.
  - intros Hlevel. unfold load_covarep. rewrite Hrows, Hlevel. simpl.
    eexists. split; [reflexivity|]. apply covarep_frames_values.
  - intros feats Hr.
    destruct (load_covarep_frames _ _ _ _ _ _ _ Hrows Hr) as (sub & -> & Hsub).
    split; [|split; [|split]].
    + rewrite covarep_frames_values. destruct (String.eqb level "s").
      * subst sub. exists 0%nat, (length rows). by rewrite take_ge.
      * done.
    + apply covarep_frames_head.
    + apply covarep_frames_period.
    + apply covarep_frames_tile.
Qed.

End Lines.

Lemma blank_line_ends_the_file_witness :
  (forall cs ce cv vs ve vv (start end_ : Q) timestamps level,
      load_intervals (ext := blank_line_files) cs ce cv vs ve vv
        "long.csv" start end_ timestamps level
      = load_intervals (ext := blank_line_files) cs ce cv vs ve vv
          "short.csv" start end_ timestamps level)
  /\ load_words (ext := blank_line_files) "long.csv" 0%Q 3%Q "absolute" "s"
     = Ok [(0, 1, [4]); (1, 2, [5])]%Q.
Proof.
  split; [|vm_compute; reflexivity].
  apply (blank_line_ends_the_file (ext := blank_line_files)
           "long.csv" "short.csv" ["0,1,4"; "1,2,5"]
           ["2,3,6"; "no numbers"] " "); reflexivity.
Defined.

Lemma segment_level_keeps_every_line_witness :
  load_words (ext := blank_line_files) "long.csv" 0%Q 3%Q "absolute" "s"
  = Ok [(0, 1, [4]); (1, 2, [5])]%Q
  /\ length [(0, 1, [4]); (1, 2, [5])]%Q
     = length (stripped_lines
                 ["0,1,4"; "1,2,5"; " "; "2,3,6"; "no numbers"]).
Proof.
  split; [vm_compute; reflexivity|].
  apply (proj1 (segment_level_keeps_every_line (ext := blank_line_files)
                  "long.csv" ["0,1,4"; "1,2,5"; " "; "2,3,6"; "no numbers"]
                  0%Q 3%Q "absolute" "s" [(0, 1, [4]); (1, 2, [5])]%Q
                  eq_refl) 0 1 2 1 2 3)%nat.
  vm_compute. reflexivity.
Defined.


Lemma covarep_frames_follow_rows_witness :
  exists feats,
    load_covarep (ext := covarep_file) "covarep.mat" 2%Q 3%Q "relative" "s"
    = Ok feats
    /\ map feat_val feats = [[1]; [2]; [3]; [4]]%Q.
Proof.
  apply (proj1 (covarep_frames_follow_rows (ext := covarep_file)
                  "covarep.mat" 2%Q 3%Q "relative" "s"
                  [[1]; [2]; [3]; [4]]%Q eq_refl)).
  reflexivity.
Defined.

(** ** The window of a video-level loader *)

Section Window.
Context {ext : external Q}.
Local Open Scope Q_scope.

Lemma elem_of_omap_id {A} (outs : list (option A)) (x : A) :
  x ∈ omap id outs <-> Some x ∈ outs.
Proof.
  rewrite list_elem_of_omap. split.
  - intros (o & Ho & Hx). simpl in Hx. by subst o.
  - intros Hx. by exists (Some x).
Qed.

(** X12. A frame that a video-level frame loader ([load_openface] and the
    [load_facet] family) returns starts inside the window, moved to the
    start time: at or after it and before the window's length has passed;
    and it ends one period after it starts. *)
Theorem frames_start_in_window (time_period : Q) (skip cs : nat)
    (vals_s : list string -> list string) (vs : nat)
    (vals_v : list string -> result (list Q))
    (filepath : string) (start end_ : Q) (timestamps level : string)
    (feats : list (feature Q)) :
  String.eqb level "s" = false ->
  load_frames time_period skip cs vals_s vs vals_v filepath start end_
    timestamps level = Ok feats ->
  Forall (fun t =>
            start_time_of timestamps start <= feat_start t
            /\ feat_start t < start_time_of timestamps start + (end_ - start)
            /\ feat_end t = feat_start t + time_period) feats.
Proof.
  intros Hlevel Hr.
  apply load_frames_video in Hr as (lines & outs & _ & Houts & ->); [|done].
  apply Forall_forall. intros t Ht. apply elem_of_omap_id in Ht.
  destruct (proj1 (list_elem_of_lookup _ _) Ht) as [i Hi].
  destruct (Forall2_lookup_r _ _ _ _ _ Houts Hi) as (line & _ & fs & _ & Hrule).
  destruct (starts_in_segment start end_ fs) eqn:Hin.
  - destruct Hrule as (vals & _ & [= ->]).
    apply starts_in_segment_spec in Hin. unfold feat_start, feat_end. simpl.
    split; [lra|]. split; [lra|done].
  - discriminate.
Qed.

(** X13. An interval that a video-level interval loader ([load_phonemes],
    [load_embeddings], [load_words], [load_misc]) returns, if it has a
    positive duration, shares a stretch of positive length with the
    window, moved to the start time: no interval that lies outside of a
    window with a duration is returned. *)
Theorem kept_intervals_meet_window (cs ce cv vs ve vv : nat)
    (filepath : string) (start end_ : Q) (timestamps level : string)
    (feats : list (feature Q)) :
  String.eqb level "s" = false ->
  start < end_ ->
  load_intervals cs ce cv vs ve vv filepath start end_ timestamps level
  = Ok feats ->
  Forall (fun t =>
            positive t ->
            feat_start t < start_time_of timestamps start + (end_ - start)
            /\ start_time_of timestamps start < feat_end t) feats.
Proof.
  intros Hlevel Hw Hr.
  apply load_intervals_video in Hr as (lines & outs & _ & Houts & ->); [|done].
  apply Forall_forall. intros t Ht. apply elem_of_omap_id in Ht.
  destruct (proj1 (list_elem_of_lookup _ _) Ht) as [i Hi].
  destruct (Forall2_lookup_r _ _ _ _ _ Houts Hi)
    as (line & _ & fs & fe & _ & _ & Hrule).
  destruct (in_segment start end_ fs fe) eqn:Hin; [|discriminate].
  destruct Hrule as (vals & _ & [= ->]).
  apply in_segment_clauses in Hin. unfold positive, feat_start, feat_end.
  simpl. intros Hpos.
  assert (Hd : (fe - fs) / 2 == (fe - fs) * (1 # 2)) by field.
  rewrite Hd in Hin. destruct Hin as [H|[H|[H|H]]]; lra.
Qed.

(** X14. A line whose interval has a positive duration and lies inside
    the window is never dropped by a video-level interval loader: when the
    loader returns, the interval is among the tuples, moved to the start
    time. *)
Theorem inside_intervals_are_kept (cs ce cv vs ve vv : nat)
    (filepath : string) (start end_ : Q) (timestamps level : string)
    (lines : list string) (feats : list (feature Q))
    (line : string) (fs fe : Q) :
  String.eqb level "s" = false ->
  readlines filepath = Ok lines ->
  load_intervals cs ce cv vs ve vv filepath start end_ timestamps level
  = Ok feats ->
  line ∈ stripped_lines lines ->
  float_field line vs = Ok fs -> float_field line ve = Ok fe ->
  start <= fs -> fs < fe -> fe <= end_ ->
  exists vals,
    floats (drop vv (Py.split Py.comma line)) = Ok vals
    /\ (fs - start + start_time_of timestamps start,
        fe - start + start_time_of timestamps start, vals) ∈ feats.
Proof.
  intros Hlevel Hl Hr Hline Hfs Hfe H1 H2 H3.
  apply load_intervals_video in Hr as (lines' & outs & Hl' & Houts & ->);
    [|done].
  rewrite Hl in Hl'. injection Hl' as <-.
  destruct (proj1 (list_elem_of_lookup _ _) Hline) as [i Hi].
  destruct (Forall2_lookup_l _ _ _ _ _ Houts Hi)
    as (o & Ho & fs' & fe' & Hfs' & Hfe' & Hrule).
  rewrite Hfs in Hfs'. injection Hfs' as <-.
  rewrite Hfe in Hfe'. injection Hfe' as <-.
  assert (Hin : in_segment start end_ fs fe = true).
  { apply in_segment_clauses. right. right. right.
    assert (Hd : (fe - fs) / 2 == (fe - fs) * (1 # 2)) by field.
    rewrite Hd. lra. }
  rewrite Hin in Hrule. destruct Hrule as (vals & Hvals & ->).
  exists vals. split; [done|]. apply elem_of_omap_id.
  by eapply list_elem_of_lookup_2.
Qed.

End Window.

Lemma frames_start_in_window_witness :
  exists feats,
    load_openface (ext := window_frames) "face.csv" 1%Q 2%Q "relative" "v"
    = Ok feats
    /\ length feats = 2%nat
    /\ Forall (fun t =>
                 (start_time_of "relative" 1 <= feat_start t
                  /\ feat_start t < start_time_of "relative" 1 + (2 - 1)
                  /\ feat_end t = feat_start t + lit (333333 # 10000000))%Q)
         feats.
Proof.
  eexists. split; [vm_compute; reflexivity|]. split; [reflexivity|].
  apply (frames_start_in_window (ext := window_frames)
           (lit (333333 # 10000000)) 1 0 (drop 1) 1
           (fun l => floats (ext := window_frames) (drop 2 l))
           "face.csv" 1%Q 2%Q "relative" "v").
  - reflexivity.
  - vm_compute. reflexivity.
Defined.

Lemma kept_intervals_meet_window_witness :
  exists feats,
    load_words (ext := window_intervals) "words.csv" 1%Q 2%Q "absolute" "v"
    = Ok feats
    /\ length feats = 2%nat
    /\ Forall (fun t =>
                 positive t ->
                 (feat_start t < start_time_of "absolute" 1 + (2 - 1)
                  /\ start_time_of "absolute" 1 < feat_end t)%Q) feats.
Proof.
  eexists. split; [vm_compute; reflexivity|]. split; [reflexivity|].
  apply (kept_intervals_meet_window (ext := window_intervals)
           0 1 2 1 2 3 "words.csv" 1%Q 2%Q "absolute" "v").
  - reflexivity.
  - reflexivity.
  - vm_compute. reflexivity.
Defined.

Lemma inside_intervals_are_kept_witness :
  exists feats,
    load_words (ext := window_intervals) "words.csv" 1%Q 2%Q "relative" "v"
    = Ok feats
    /\ exists vals,
         floats (ext := window_intervals)
           (drop 3 (Py.split Py.comma "0,1.2,1.6,7")) = Ok vals
         /\ (1.2 - 1 + start_time_of "relative" 1,
             1.6 - 1 + start_time_of "relative" 1, vals)%Q ∈ feats.
Proof.
  eexists. split; [vm_compute; reflexivity|].
  apply (inside_intervals_are_kept (ext := window_intervals)
           0 1 2 1 2 3 "words.csv" 1%Q 2%Q "relative" "v"
           ["0,1.2,1.6,7"; "1,1.8,2.1,8"; "2,2.5,3.0,9"]).
  - reflexivity.
  - reflexivity.
  - vm_compute. reflexivity.
  - vm_compute. apply list_elem_of_here.
  - vm_compute. reflexivity.
  - vm_compute. reflexivity.
  - vm_compute. discriminate.
  - reflexivity.
  - vm_compute. discriminate.
Defined.

(** ** The rows of a video-level COVAREP segment *)

Section CovarepRows.
Context {ext : external Q}.
Local Open Scope Q_scope.

Lemma trunc_floor (q : Q) : 0 <= q -> trunc q = Ok (Qfloor q).
Proof.
  destruct q as [n d]. unfold Qle. simpl. intros Hq. f_equal.
  apply Z.quot_div_nonneg; lia.
Qed.

Lemma Qfloor_nat (n : nat) : Qfloor (Z.of_nat n # 1) = Z.of_nat n.
Proof. unfold Qfloor. apply Z.div_1_r. Qed.

(** The index [int(min(x, feat_count))] of a slice of [n] rows, for a time
    that is not negative. *)
Lemma covarep_index (x : Q) (n : nat) :
  0 <= x ->
  exists i : Z,
    trunc (py_min x (lit (Z.of_nat n # 1))) = Ok i
    /\ Py.slice_index (Z.of_nat n) i = (Z.to_nat (Qfloor x) `min` n)%nat.
Proof.
  intros Hx. unfold py_min.
  change (lit (Z.of_nat n # 1)) with (Z.of_nat n # 1).
  destruct (ltb _ x) eqn:Hlt.
  - apply Q_ltb_lt in Hlt. exists (Z.of_nat n). split.
    + rewrite trunc_floor; [by rewrite Qfloor_nat|].
      unfold Qle. simpl. lia.
    + assert (Z.of_nat n <= Qfloor x)%Z.
      { rewrite <- (Qfloor_nat n). apply Qfloor_resp_le. simpl in Hlt. lra. }
      unfold Py.slice_index.
      destruct (Z.ltb_spec (Z.of_nat n) 0); lia.
  - apply Q_ltb_ge in Hlt. exists (Qfloor x). split; [by apply trunc_floor|].
    assert (0 <= Qfloor x)%Z.
    { change 0%Z with (Qfloor 0). by apply Qfloor_resp_le. }
    assert (Qfloor x <= Z.of_nat n)%Z.
    { rewrite <- (Qfloor_nat n). apply Qfloor_resp_le. simpl in Hlt. lra. }
    unfold Py.slice_index.
    destruct (Z.ltb_spec (Qfloor x) 0); lia.
Qed.

Lemma drop_take_min {A} (l : list A) (a b : nat) :
  drop (a `min` length l) (take (b `min` length l) l) = drop a (take b l).
Proof.
  destruct (Nat.le_ge_cases b (length l)) as [Hb|Hb].
  - rewrite (Nat.min_l b) by done.
    destruct (Nat.le_ge_cases a (length l)) as [Ha|Ha].
    + by rewrite Nat.min_l.
    + rewrite Nat.min_r by done.
      rewrite !drop_ge; [done | rewrite length_take; lia | rewrite length_take; lia].
  - rewrite (Nat.min_r b) by done. rewrite !take_ge by lia.
    destruct (Nat.le_ge_cases a (length l)) as [Ha|Ha].
    + by rewrite Nat.min_l.
    + rewrite Nat.min_r by done. by rewrite !drop_ge.
Qed.

(** The rows of the video level in exact arithmetic. *)
Lemma covarep_rows_exact (filepath : string) (start end_ : Q)
    (timestamps level : string) (rows : list (list Q)) :
  String.eqb level "s" = false ->
  loadmat_features filepath = Ok rows ->
  0 <= start -> 0 <= end_ ->
  exists feats,
    load_covarep filepath start end_ timestamps level = Ok feats
    /\ map feat_val feats
       = drop (Z.to_nat (Qfloor (start / (1 # 100))))
           (take (Z.to_nat (Qfloor (end_ / (1 # 100)))) rows)
    /\ ((Z.of_nat (length rows) # 1) <= start / (1 # 100) -> feats = []).
Proof.
  intros Hlevel Hrows Hs He. unfold load_covarep.
  rewrite Hrows. cbn [res_bind]. rewrite Hlevel.
  change (start / (1 # 100)) with (div start (lit (1 # 100))).
  change (end_ / (1 # 100)) with (div end_ (lit (1 # 100))).
  set (x := div start (lit (1 # 100))). set (y := div end_ (lit (1 # 100))).
  destruct (covarep_index x (length rows)) as (si & Hsi & Hsn).
  { apply Qle_shift_div_l; [reflexivity | lra]. }
  destruct (covarep_index y (length rows)) as (ei & Hei & Hen).
  { apply Qle_shift_div_l; [reflexivity | lra]. }
  rewrite Hsi. cbn [res_bind]. rewrite Hei. cbn [res_bind].
  eexists. split; [reflexivity|].
  assert (Hsub : Py.slice si ei rows
                 = drop (Z.to_nat (Qfloor x)) (take (Z.to_nat (Qfloor y)) rows)).
  { unfold Py.slice. rewrite Hsn, Hen. apply drop_take_min. }
  split.
  - by rewrite covarep_frames_values.
  - intros Hbeyond. rewrite Hsub, drop_ge; [done|].
    rewrite length_take.
    assert (Z.of_nat (length rows) <= Qfloor x)%Z.
    { rewrite <- (Qfloor_nat (length rows)). by apply Qfloor_resp_le. }
    lia.
Qed.

End CovarepRows.

(** X15. At video level [load_covarep] takes the rows of the matrix from
    the index [int(min(start / 0.01, count))] up to, and without, the index
    [int(min(end / 0.01, count))], computed in the program's arithmetic and
    used as the bounds of a slice. In exact arithmetic, for a window that
    does not start or end before time 0, these are the rows from
    floor(start / 0.01) up to, and without, floor(end / 0.01), as far as the
    matrix has such rows: a window that starts after the last row gives the
    empty list and no error. In binary64 the quotient is rounded and can
    fall below the integer that it is in exact arithmetic: for the window
    (0.29, 0.3) the program takes the rows 28 and 29, the exact rule row 29
    only. *)
Theorem covarep_video_rows :
  (forall (num : Type) (arith : Arith num) (ext : external num)
      (filepath : string) (start end_ : num) (timestamps level : string)
      (rows : list (list num)) (start_index end_index : Z),
      String.eqb level "s" = false ->
      loadmat_features filepath = Ok rows ->
      trunc (py_min (div start (lit (1 # 100)))
               (lit (Z.of_nat (length rows) # 1))) = Ok start_index ->
      trunc (py_min (div end_ (lit (1 # 100)))
               (lit (Z.of_nat (length rows) # 1))) = Ok end_index ->
      exists feats,
        load_covarep filepath start end_ timestamps level = Ok feats
        /\ map feat_val feats = Py.slice start_index end_index rows)
  /\ (forall (ext : external Q) (filepath : string) (start end_ : Q)
        (timestamps level : string) (rows : list (list Q)),
        String.eqb level "s" = false ->
        loadmat_features filepath = Ok rows ->
        (0 <= start)%Q -> (0 <= end_)%Q ->
        exists feats,
          load_covarep filepath start end_ timestamps level = Ok feats
          /\ map feat_val feats
             = drop (Z.to_nat (Qfloor (start / (1 # 100))))
                 (take (Z.to_nat (Qfloor (end_ / (1 # 100)))) rows)
          /\ ((Z.of_nat (length rows) # 1 <= start / (1 # 100))%Q ->
              feats = []))
  /\ (exists feats,
        load_covarep (ext := indexed_covarep_binary64) "covarep.mat"
          (lit 0.29%Q) (lit 0.3%Q) "absolute" "v" = Ok feats
        /\ map feat_val feats = [[lit 28%Q]; [lit 29%Q]])
  /\ (exists feats,
        load_covarep (ext := indexed_covarep) "covarep.mat"
          0.29%Q 0.3%Q "absolute" "v" = Ok feats
        /\ map feat_val feats = [[lit 29%Q]]).
Proof.
  split; [|split; [|split]].
  - intros num arith ext filepath start end_ timestamps level rows si ei
      Hlevel Hrows Hsi Hei.
    unfold load_covarep. rewrite Hrows. cbn [res_bind]. rewrite Hlevel.
    rewrite Hsi. cbn [res_bind]. rewrite Hei. cbn [res_bind].
    eexists. split; [reflexivity|]. by rewrite covarep_frames_values.
  - intros ext. apply (covarep_rows_exact (ext := ext)).
  - eexists. split; vm_compute; reflexivity.
  - eexists. split; vm_compute; reflexivity.
Qed.

Lemma covarep_video_rows_witness :
  exists feats,
    load_covarep (ext := covarep_file) "covarep.mat" 0.01%Q 0.03%Q
      "relative" "v" = Ok feats
    /\ map feat_val feats
       = drop (Z.to_nat (Qfloor (0.01 / (1 # 100))))
           (take (Z.to_nat (Qfloor (0.03 / (1 # 100))))
              [[1]; [2]; [3]; [4]]%Q)
    /\ ((Z.of_nat (length [[1]; [2]; [3]; [4]]%Q) # 1) <= 0.01 / (1 # 100)
        -> feats = [])%Q.
Proof.
  apply (proj1 (proj2 covarep_video_rows) covarep_file "covarep.mat"
           0.01%Q 0.03%Q "relative" "v" [[1]; [2]; [3]; [4]]%Q).
  - reflexivity.
  - reflexivity.
  - vm_compute. discriminate.
  - vm_compute. discriminate.
Defined.

(** ** The absolute mode *)

Section Absolute.
Context {num : Type} {arith : Arith num} {ext : external num}.

(** The time stamps of a video-level loader in the absolute mode: each one
    is computed from a time stamp [fs] of a line of the file as
    [(fs - start) + start]. *)
Lemma absolute_timestamps_computed (filepath : string) (start end_ : num)
    (timestamps level : string) (lines : list string)
    (feats : list (feature num)) :
  String.eqb timestamps "relative" = false ->
  String.eqb level "s" = false ->
  readlines filepath = Ok lines ->
  (forall cs ce cv vs ve vv,
      load_intervals cs ce cv vs ve vv filepath start end_ timestamps level
      = Ok feats ->
      Forall (fun t =>
                exists line fs fe,
                  line ∈ stripped_lines lines
                  /\ float_field line vs = Ok fs /\ float_field line ve = Ok fe
                  /\ feat_start t = add (sub fs start) start
                  /\ feat_end t = add (sub fe start) start) feats)
  /\ (forall time_period skip cs vals_s vs vals_v,
        load_frames time_period skip cs vals_s vs vals_v filepath start end_
          timestamps level = Ok feats ->
        Forall (fun t =>
                  exists line fs,
                    line ∈ stripped_lines (drop skip lines)
                    /\ float_field line vs = Ok fs
                    /\ feat_start t = add (sub fs start) start) feats).
Proof.
  intros Hmode Hlevel Hlines.
  assert (Hst : start_time_of timestamps start = start).
  { unfold start_time_of. by rewrite Hmode. }
  split.
  - intros cs ce cv vs ve vv Hr.
    apply load_intervals_video in Hr as (lines' & outs & Hl' & Houts & ->);
      [|done].
    rewrite Hlines in Hl'. injection Hl' as <-.
    apply Forall_forall. intros t Ht. apply elem_of_omap_id in Ht.
    destruct (proj1 (list_elem_of_lookup _ _) Ht) as [i Hi].
    destruct (Forall2_lookup_r _ _ _ _ _ Houts Hi)
      as (line & Hline & fs & fe & Hfs & Hfe & Hrule).
    destruct (in_segment start end_ fs fe); [|discriminate].
    destruct Hrule as (vals & _ & [= ->]).
    exists line, fs, fe. split; [by eapply list_elem_of_lookup_2|].
    split; [done|]. split; [done|]. by rewrite Hst.
  - intros tp skip cs vals_s vs vals_v Hr.
    apply load_frames_video in Hr as (lines' & outs & Hl' & Houts & ->);
      [|done].
    rewrite Hlines in Hl'. injection Hl' as <-.
    apply Forall_forall. intros t Ht. apply elem_of_omap_id in Ht.
    destruct (proj1 (list_elem_of_lookup _ _) Ht) as [i Hi].
    destruct (Forall2_lookup_r _ _ _ _ _ Houts Hi)
      as (line & Hline & fs & Hfs & Hrule).
    destruct (starts_in_segment start end_ fs); [|discriminate].
    destruct Hrule as (vals & _ & [= ->]).
    exists line, fs. split; [by eapply list_elem_of_lookup_2|].
    split; [done|]. by rewrite Hst.
Qed.

End Absolute.

(** X21. In the absolute mode a video-level loader subtracts the start of
    the segment from each time stamp that it reads from a line of the file,
    and adds it again: the start (and for an interval the end) of a tuple
    is [(fs - start) + start] for the time stamp [fs] of one of the lines,
    in the program's arithmetic. In exact arithmetic this is [fs], the time
    stamp of the file. In binary64 the two operations round, and the time
    stamp can come back changed: the word that the file has at 0.9 s comes
    out of the segment that starts at 0.2 s with a start below 0.9. *)
Theorem absolute_keeps_timestamps :
  (forall (num : Type) (arith : Arith num) (ext : external num)
      (filepath : string) (start end_ : num) (timestamps level : string)
      (lines : list string) (feats : list (feature num)),
      String.eqb timestamps "relative" = false ->
      String.eqb level "s" = false ->
      readlines filepath = Ok lines ->
      (forall cs ce cv vs ve vv,
          load_intervals cs ce cv vs ve vv filepath start end_ timestamps
            level = Ok feats ->
          Forall (fun t =>
                    exists line fs fe,
                      line ∈ stripped_lines lines
                      /\ float_field line vs = Ok fs
                      /\ float_field line ve = Ok fe
                      /\ feat_start t = add (sub fs start) start
                      /\ feat_end t = add (sub fe start) start) feats)
      /\ (forall time_period skip cs vals_s vs vals_v,
            load_frames time_period skip cs vals_s vs vals_v filepath start
              end_ timestamps level = Ok feats ->
            Forall (fun t =>
                      exists line fs,
                        line ∈ stripped_lines (drop skip lines)
                        /\ float_field line vs = Ok fs
                        /\ feat_start t = add (sub fs start) start) feats))
  /\ (forall (ext : external Q) (filepath : string) (start end_ : Q)
        (timestamps level : string) (lines : list string)
        (feats : list (feature Q)),
        String.eqb timestamps "relative" = false ->
        String.eqb level "s" = false ->
        readlines filepath = Ok lines ->
        (forall cs ce cv vs ve vv,
            load_intervals cs ce cv vs ve vv filepath start end_ timestamps
              level = Ok feats ->
            Forall (fun t =>
                      exists line fs fe,
                        line ∈ stripped_lines lines
                        /\ float_field line vs = Ok fs
                        /\ float_field line ve = Ok fe
                        /\ (feat_start t == fs)%Q
                        /\ (feat_end t == fe)%Q) feats)
        /\ (forall time_period skip cs vals_s vs vals_v,
              load_frames time_period skip cs vals_s vs vals_v filepath start
                end_ timestamps level = Ok feats ->
              Forall (fun t =>
                        exists line fs,
                          line ∈ stripped_lines (drop skip lines)
                          /\ float_field line vs = Ok fs
                          /\ (feat_start t == fs)%Q) feats))
  /\ (exists t e v,
        load_words (ext := late_interval) "words.csv" (lit 0.2%Q) (lit 2%Q)
          "absolute" "v" = Ok [(t, e, v)]
        /\ float_field (ext := late_interval) "0,0.9,1.3,7.0" 1
           = Ok (lit 0.9%Q)
        /\ float_field (ext := late_interval) "0,0.9,1.3,7.0" 2
           = Ok (lit 1.3%Q)
        /\ t = add (sub (lit 0.9%Q) (lit 0.2%Q)) (lit 0.2%Q)
        /\ ltb t (lit 0.9%Q) = true
        /\ eqb e (lit 1.3%Q) = true).
Proof.
  split; [|split].
  - intros num arith ext. apply absolute_timestamps_computed.
  - intros ext filepath start end_ timestamps level lines feats Hm Hl Hr.
    destruct (absolute_timestamps_computed filepath start end_ timestamps
                level lines feats Hm Hl Hr) as [Hi Hf].
    split.
    + intros cs ce cv vs ve vv Hload.
      eapply Forall_impl; [by eapply Hi|].
      intros t (line & fs & fe & Hin & Hfs & Hfe & -> & ->).
      exists line, fs, fe. repeat (split; [done|]).
      simpl. split; ring.
    + intros tp skip cs vals_s vs vals_v Hload.
      eapply Forall_impl; [by eapply Hf|].
      intros t (line & fs & Hin & Hfs & ->).
      exists line, fs. repeat (split; [done|]). simpl. ring.
  - eexists _, _, _. split; [vm_compute; reflexivity|].
    repeat split; vm_compute; reflexivity.
Qed.

Lemma absolute_keeps_timestamps_witness :
  exists feats,
    load_words (ext := window_intervals) "words.csv" 1%Q 2%Q "absolute" "v"
    = Ok feats
    /\ Forall (fun t =>
                 exists line fs fe,
                   line ∈ stripped_lines
                            ["0,1.2,1.6,7"; "1,1.8,2.1,8"; "2,2.5,3.0,9"]
                   /\ float_field (ext := window_intervals) line 1 = Ok fs
                   /\ float_field (ext := window_intervals) line 2 = Ok fe
                   /\ (feat_start t == fs)%Q /\ (feat_end t == fe)%Q) feats.
Proof.
  eexists. split; [vm_compute; reflexivity|].
  apply (proj1 (proj1 (proj2 absolute_keeps_timestamps) window_intervals
                  "words.csv" 1%Q 2%Q "absolute" "v" _ _
                  eq_refl eq_refl eq_refl)
           0 1 2 1 2 3)%nat.
  vm_compute. reflexivity.
Defined.

(** In binary64 the two operations round: the frame that the file has at
    0.9 s comes out of the segment that starts at 0.2 s with a start below
    0.9, in the absolute mode. *)
Example absolute_rounds_in_binary64 :
  exists t e v,
    load_openface (ext := late_frame) "face.csv" (lit (2 # 10)) (lit 2)
      "absolute" "v" = Ok [(t, e, v)]
    /\ PrimFloat.ltb t (lit (9 # 10)) = true
    /\ float_field (ext := late_frame) "0,0.9,1" 1 = Ok (lit (9 # 10)).
Proof.
  eexists _, _, _. split; [vm_compute; reflexivity|].
  split; vm_compute; reflexivity.
Qed.

(** ** The loop of [load_features] *)

Section Features.
Context {num : Type} {arith : Arith num} {ext : external num}.

Lemma value_of_bind_lift {S A B} (r : result A) (k : A -> M S B)
    (f : A -> result B) :
  (forall a, r = Ok a -> value_of (k a) (f a)) ->
  value_of (bind (lift r) k) (res_bind r f).
Proof.
  intros Hk s. unfold bind, lift. destruct r as [a|e]; simpl; [|reflexivity].
  by apply Hk.
Qed.

Lemma load_opensmile_value filepath (start end_ : num) timestamps level :
  value_of (load_opensmile filepath start end_ timestamps level)
    (opensmile_value filepath start end_ timestamps level).
Proof.
  unfold load_opensmile, opensmile_value.
  destruct (String.eqb level "s" || eqb start (lit 0)).
  - apply value_of_bind; [apply value_of_lift | intros lines].
    apply value_of_bind; [apply value_of_lift | intros line].
    apply value_of_bind; [apply value_of_lift | intros feat_val].
    apply value_of_ret.
  - change (Ok PyNone)
      with (res_bind (Ok tt) (fun _ : unit => Ok (PyNone (num := num)))).
    apply value_of_bind; [apply value_of_modify | intros _; apply value_of_ret].
Qed.

Lemma loader_method_value api method filepath (start end_ : num)
    timestamps level :
  loader_method api = Ok method ->
  value_of (method filepath start end_ timestamps level)
    (loader_value api filepath start end_ timestamps level).
Proof.
  unfold loader_method, loader_value.
  repeat (destruct (String.eqb api _);
          [intros [= <-];
           first [ apply load_opensmile_value
                 | unfold pure_loader; apply value_of_lift ]|]).
  discriminate.
Qed.

Lemma load_features_value (order : iteration) (s : state num) :
  (load_features s).2
  = res_bind (of_option AttributeError (dataset_info (self s)))
      (fun data =>
         res_bind (of_option AttributeError (modalities (self s)))
           (fun mods => features_value data mods (timestamps (self s)))).
Proof.
  unfold load_features, features_value.
  unfold bind at 1, the_dataset_info at 1, bind at 1, get at 1, lift at 1.
  destruct (dataset_info (self s)) as [data|]; simpl; [|reflexivity].
  unfold bind at 1, the_modalities at 1, bind at 1, get at 1, lift at 1.
  destruct (modalities (self s)) as [mods|]; simpl; [|reflexivity].
  unfold bind at 1, get at 1.
  apply for_items_value. intros key value.
  apply value_of_bind_lift. intros method Hm.
  change (fold_items ?a ?b ?c)
    with (res_bind (Ok tt) (fun _ : unit => fold_items a b c)).
  apply value_of_bind; [apply value_of_modify | intros _].
  apply for_items_value. intros video_id video_data.
  apply for_items_value. intros segment_id segment.
  unfold segment_features.
  apply value_of_bind; [apply value_of_lift | intros filepath].
  change (loader_value ?a ?b ?c ?d ?e ?f)
    with (res_bind (Ok tt) (fun _ : unit => loader_value a b c d e f)).
  apply value_of_bind; [apply value_of_modify | intros _].
  by apply loader_method_value.
Qed.

End Features.

Section FeaturesShape.
Context {num : Type} {arith : Arith num} {ext : external num}.
Local Abbreviation loaded_from := (loaded_from (num := num)).

Lemma features_value_loaded (order : iteration)
    (data : gmap string (gmap string (segment_data num)))
    (mods : gmap string modality_info) (timestamps : string)
    (fd : gmap string (gmap string (gmap string (pyfeats num)))) :
  features_value data mods timestamps = Ok fd
  <-> (forall key value, mods !! key = Some value ->
                         is_ok (loader_method (info_type value)) = true)
      /\ loaded_from data mods timestamps fd.
Proof.
  unfold features_value, loaded_from. rewrite fold_items_dict. split.
  - intros HF. split.
    + intros key value Hk. specialize (HF key). rewrite Hk in HF.
      inversion HF as [? mfd Hm|]; subst.
      by destruct (loader_method (info_type value)).
    + eapply map_Forall2_impl; [exact HF|]. intros key value mfd Hm.
      apply res_bind_ok_inv in Hm as (method & _ & Hm).
      by apply (fold_items_nested
                  (fun _ _ segment =>
                     segment_features key value timestamps segment)).
  - intros [Hknown HF] key. specialize (HF key).
    destruct (mods !! key) as [value|] eqn:Hk;
      inversion HF as [? mfd Hm|]; subst; constructor.
    specialize (Hknown key value Hk).
    destruct (loader_method (info_type value)) as [method|e]; [simpl|done].
    by apply (fold_items_nested
                (fun _ _ segment =>
                   segment_features key value timestamps segment)).
Qed.

(** X16. [load_features] returns a dictionary exactly when every modality
    of the manifest names a loader and every call of a loader returns; the
    dictionary then has one entry for each modality key, under it one for
    each video of the manifest, and under that one for each segment of the
    video, and no other: the stream that the loader of the modality's type
    returns for the segment's file, start and end, the timestamp mode of the
    object and the level of the modality. All modalities have the same
    videos and segments, whatever the order of the dictionaries. *)
Theorem load_features_shape (order : iteration) (s : state num)
    (fd : gmap string (gmap string (gmap string (pyfeats num)))) :
  (load_features s).2 = Ok fd
  <-> exists data mods,
        dataset_info (self s) = Some data
        /\ modalities (self s) = Some mods
        /\ (forall key value, mods !! key = Some value ->
                              is_ok (loader_method (info_type value)) = true)
        /\ loaded_from data mods (timestamps (self s)) fd.
Proof.
  rewrite load_features_value. split.
  - destruct (dataset_info (self s)) as [data|]; [simpl|done].
    destruct (modalities (self s)) as [mods|]; [simpl|done].
    intros Hv. exists data, mods. split; [done|]. split; [done|].
    by apply (features_value_loaded order).
  - intros (data & mods & -> & -> & Hknown & Hl). simpl.
    by apply (features_value_loaded order).
Qed.

End FeaturesShape.

(** ** The tables of the manifest *)

Section Tables.
Context {num : Type} {arith : Arith num} {ext : external num}.
Local Abbreviation has_segment := (has_segment (num := num)).
Local Abbreviation entry := (entry (num := num)).

Lemma bind_run {S A B} (m : M S A) (k : A -> M S B) (s : S) :
  bind m k s
  = match m s with
    | (s', Ok a) => k a s'
    | (s', Raise e) => (s', Raise e)
    end.
Proof. reflexivity. Qed.

Ltac failed_run := repeat split; try done; intros; discriminate.

Lemma read_modalities_value data indices :
  forall (s : state num) mods,
    modalities (self s) = Some mods ->
    (read_modalities data indices s).2
    = res_bind (modalities_value data indices mods) (fun _ => Ok tt)
    /\ forall mods',
         modalities_value data indices mods = Ok mods' ->
         modalities (self (read_modalities data indices s).1) = Some mods'.
Proof.
  induction indices as [|i rest IH]; intros s mods Hm; simpl.
  - split; [reflexivity|]. by intros mods' [= <-].
  - unfold bind, lift, the_modalities, get, update_self, modify, Py.index.
    destruct (data !! 1%nat) as [row1|]; simpl; [|done].
    destruct (row1 !! (i + 4)%nat) as [level|]; simpl; [|done].
    destruct (data !! 0%nat) as [row0|]; simpl; [|done].
    destruct (row0 !! (i + 4)%nat) as [type|]; simpl; [|done].
    rewrite Hm. simpl. apply IH. reflexivity.
Qed.

Lemma read_record_value modality_count record (s : state num) info :
  dataset_info (self s) = Some info ->
  (read_record modality_count record s).2
  = res_bind (record_value modality_count record info) (fun _ => Ok tt)
  /\ modalities (self (read_record modality_count record s).1)
     = modalities (self s)
  /\ forall info',
       record_value modality_count record info = Ok info' ->
       dataset_info (self (read_record modality_count record s).1)
       = Some info'.
Proof.
  intros Hinfo. unfold record_value.
  destruct (record !! 0%nat) as [video_id|] eqn:Hv.
  2:{ unfold read_record, Py.index, bind, lift. rewrite Hv. simpl. done. }
  destruct (record !! 1%nat) as [segment_id|] eqn:Hsg.
  2:{ unfold read_record, Py.index, bind, lift. rewrite Hv, Hsg. simpl. done. }
  rewrite (read_record_eq modality_count record s info video_id segment_id
             Hinfo Hv Hsg).
  unfold Py.index. rewrite Hv, Hsg. cbn [of_option res_bind].
  assert (Hvid : getitem video_id
                   (if decide (is_Some (info !! video_id)) then info
                    else <[video_id := ∅]> info)
                 = Ok (default ∅ (info !! video_id))).
  { unfold getitem. destruct (decide _) as [[x Hx]|Hn].
    - by rewrite Hx.
    - rewrite lookup_insert_eq. apply eq_None_not_Some in Hn. by rewrite Hn. }
  rewrite Hvid. cbn [res_bind].
  assert (Hmods : modalities
                    (self (if decide (is_Some (info !! video_id)) then s
                           else set_info (<[video_id := ∅]> info) s))
                  = modalities (self s)).
  { by destruct (decide _). }
  destruct (decide (is_Some (default ∅ (info !! video_id) !! segment_id))).
  - simpl. done.
  - destruct (segment_of_record modality_count record) as [segment|e]; simpl.
    + split; [done|]. split; [done|]. by intros info' [= <-].
    + done.
Qed.

Lemma read_records_value modality_count records :
  forall (s : state num) info,
    dataset_info (self s) = Some info ->
    (read_records modality_count records s).2
    = res_bind (records_value modality_count records info) (fun _ => Ok tt)
    /\ modalities (self (read_records modality_count records s).1)
       = modalities (self s)
    /\ forall info',
         records_value modality_count records info = Ok info' ->
         dataset_info (self (read_records modality_count records s).1)
         = Some info'.
Proof.
  induction records as [|r rest IH]; intros s info Hinfo; simpl.
  - split; [done|]. split; [done|]. by intros info' [= <-].
  - rewrite bind_run.
    destruct (read_record_value modality_count r s info Hinfo)
      as (Hv & Hm & Hi).
    destruct (read_record modality_count r s) as [s1 [[]|e]]; simpl in *.
    + destruct (record_value modality_count r info) as [info1|]; [|done].
      simpl. destruct (IH s1 info1 (Hi info1 eq_refl)) as (Hv' & Hm' & Hi').
      split; [done|]. split; [congruence|done].
    + destruct (record_value modality_count r info) as [info1|]; [done|].
      simpl in *. split; [done|]. split; [done|]. done.
Qed.

Lemma validate_file_value (s : state num) path data :
  dataset_csv (self s) = Some path -> read_csv path = Ok data ->
  (validate_file s).2 = res_bind (manifest_value data) (fun _ => Ok tt)
  /\ forall info mods,
       manifest_value data = Ok (info, mods) ->
       dataset_info (self (validate_file s).1) = Some info
       /\ modalities (self (validate_file s).1) = Some mods.
Proof.
  intros Hcsv Hread.
  destruct (validate_file s) as [s' r] eqn:Hrun. simpl.
  unfold validate_file in Hrun. unfold manifest_value.
  rewrite bind_run in Hrun. unfold get at 1 in Hrun.
  rewrite bind_run in Hrun. unfold lift at 1 in Hrun.
  rewrite Hcsv in Hrun. cbn [of_option] in Hrun.
  rewrite bind_run in Hrun. unfold lift at 1 in Hrun. rewrite Hread in Hrun.
  rewrite bind_run in Hrun. unfold update_self at 1, modify at 1 in Hrun.
  rewrite bind_run in Hrun. unfold lift at 1 in Hrun. unfold Py.index in *.
  destruct (data !! 0%nat) as [row0|]; cbn [of_option res_bind] in *.
  2:{ injection Hrun as <- <-. failed_run. }
  rewrite bind_run in Hrun. unfold update_self at 1, modify at 1 in Hrun.
  set (s2 := {| self := with_modalities ∅ _; stdout := _;
                loader_calls := _; warning_hist := _ |}) in Hrun.
  rewrite bind_run in Hrun.
  destruct (read_modalities_value data (seq 0 (length row0 - 4)) s2 ∅ eq_refl)
    as (Hv & Hm).
  pose proof (read_modalities_info data (seq 0 (length row0 - 4)) s2) as Hinfo.
  destruct (read_modalities data (seq 0 (length row0 - 4)) s2)
    as [s3 [[]|e]]; simpl in Hv, Hm, Hinfo.
  - destruct (modalities_value data (seq 0 (length row0 - 4)) ∅)
      as [mods|]; [|done]. cbn [res_bind].
    destruct (read_records_value (length row0 - 4) (drop 2 data) s3 ∅ Hinfo)
      as (Hv' & Hm' & Hi').
    rewrite Hrun in Hv', Hm', Hi'. simpl in Hv', Hm', Hi'.
    destruct (records_value (length row0 - 4) (drop 2 data) ∅) as [info|];
      simpl in *.
    + split; [done|]. intros ? ? [= <- <-]. split; [by apply Hi'|].
      rewrite Hm'. by apply Hm.
    + failed_run.
  - injection Hrun as <- <-.
    destruct (modalities_value data (seq 0 (length row0 - 4)) ∅)
      as [mods|]; [done|]. simpl in *. failed_run.
Qed.

End Tables.

(** ** The keys of the modalities *)

Lemma Py_str_inj (a b : Z) : Py.str a = Py.str b -> a = b.
Proof.
  unfold Py.str. intros Hs.
  assert (Hn : forall n, Z.to_int n <> Decimal.Pos Decimal.Nil
                         /\ Z.to_int n <> Decimal.Neg Decimal.Nil).
  { intros [|p|p]; simpl; split; try discriminate;
      intros [= Hp]; by apply DecimalPos.Unsigned.to_uint_nonnil in Hp. }
  apply DecimalZ.to_int_inj.
  assert (He : Some (Z.to_int a) = Some (Z.to_int b)); [|by injection He].
  rewrite <- (NilZero.isi (Z.to_int a)) by apply Hn.
  rewrite <- (NilZero.isi (Z.to_int b)) by apply Hn.
  by rewrite Hs.
Qed.

Lemma modality_key_inj (i j : nat) : modality_key i = modality_key j -> i = j.
Proof.
  unfold modality_key. simpl. intros [= Hs]. apply Py_str_inj in Hs. lia.
Qed.

Section TableFacts.
Context {num : Type} {arith : Arith num} {ext : external num}.
Local Abbreviation has_segment := (has_segment (num := num)).
Local Abbreviation entry := (entry (num := num)).

(** What the first loop has built. *)
Lemma modalities_value_lookup data row0 row1 indices :
  data !! 0%nat = Some row0 -> data !! 1%nat = Some row1 ->
  NoDup indices ->
  forall mods mods',
    modalities_value data indices mods = Ok mods' ->
    (forall i, i ∈ indices ->
       exists level type,
         row1 !! (i + 4)%nat = Some level /\ row0 !! (i + 4)%nat = Some type
         /\ mods' !! modality_key i
            = Some {| info_level := level; info_type := type |})
    /\ (forall key, (forall i, i ∈ indices -> key <> modality_key i) ->
                    mods' !! key = mods !! key).
Proof.
  intros H0 H1. induction 1 as [|i rest Hi Hnd IH]; intros mods mods'; simpl.
  - intros [= <-]. split; [|done]. intros i Hi. by apply elem_of_nil in Hi.
  - unfold Py.index. rewrite H1, H0. cbn [of_option res_bind].
    destruct (row1 !! (i + 4)%nat) as [level|] eqn:Hl; [|done].
    destruct (row0 !! (i + 4)%nat) as [type|] eqn:Ht; [|done].
    cbn [of_option res_bind]. intros Hv.
    destruct (IH _ _ Hv) as [Hin Hout]. split.
    + intros j [->|Hj]%elem_of_cons; [|by apply Hin].
      exists level, type. split; [done|]. split; [done|].
      rewrite Hout; [apply lookup_insert_eq|].
      intros j Hj Heq. apply modality_key_inj in Heq. by subst j.
    + intros key Hkey. rewrite Hout.
      * apply lookup_insert_ne. intros Heq. eapply Hkey; [|by symmetry].
        apply elem_of_cons; auto.
      * intros j Hj. apply Hkey. apply elem_of_cons; auto.
Qed.

(** [read_files] gives each modality key the cell of its column. *)
Lemma read_files_lookup record indices :
  NoDup indices ->
  forall files files',
    read_files record indices files = Ok files' ->
    (forall i, i ∈ indices ->
               is_Some (record !! (i + 4)%nat)
               /\ files' !! modality_key i = record !! (i + 4)%nat)
    /\ (forall key, (forall i, i ∈ indices -> key <> modality_key i) ->
                    files' !! key = files !! key).
Proof.
  induction 1 as [|i rest Hi Hnd IH]; intros files files'; simpl.
  - intros [= <-]. split; [|done]. intros i Hi. by apply elem_of_nil in Hi.
  - unfold Py.index.
    destruct (record !! (i + 4)%nat) as [cell|] eqn:Hc; [|done].
    cbn [of_option res_bind]. intros Hv.
    destruct (IH _ _ Hv) as [Hin Hout]. split.
    + intros j [->|Hj]%elem_of_cons; [|by apply Hin].
      rewrite Hc. split; [eauto|].
      rewrite Hout; [apply lookup_insert_eq|].
      intros j Hj Heq. apply modality_key_inj in Heq. by subst j.
    + intros key Hkey. rewrite Hout.
      * apply lookup_insert_ne. intros Heq. eapply Hkey; [|by symmetry].
        apply elem_of_cons; auto.
      * intros j Hj. apply Hkey. apply elem_of_cons; auto.
Qed.

Lemma has_segment_entry info video_id segment_id :
  has_segment info video_id segment_id
  <-> is_Some (entry info (video_id, segment_id)).
Proof.
  unfold has_segment, entry. simpl. split.
  - intros (video & -> & Hs). done.
  - destruct (info !! video_id) as [video|]; simpl; [eauto|].
    by intros [? ?].
Qed.

Lemma record_key_Some record video_id segment_id :
  record_key record = Some (video_id, segment_id)
  <-> record !! 0%nat = Some video_id /\ record !! 1%nat = Some segment_id.
Proof.
  unfold record_key.
  destruct (record !! 0%nat) as [v|]; simpl; [|by split; [|intros [? _]]].
  destruct (record !! 1%nat) as [sg|]; simpl; [|by split; [|intros [_ ?]]].
  split; [by intros [= -> ->] | by intros [[= ->] [= ->]]].
Qed.

Lemma duplicate_rows_keys (records : list (list string)) :
  duplicate_rows records
  <-> exists (i j : nat) r1 r2 key,
        (i < j)%nat /\ records !! i = Some r1 /\ records !! j = Some r2
        /\ record_key r1 = Some key /\ record_key r2 = Some key.
Proof.
  unfold duplicate_rows. split.
  - intros (i & j & r1 & r2 & v & sg & Hij & Hi & Hj & H10 & H11 & H20 & H21).
    exists i, j, r1, r2, (v, sg). rewrite !record_key_Some. done.
  - intros (i & j & r1 & r2 & [v sg] & Hij & Hi & Hj & Hk1 & Hk2).
    apply record_key_Some in Hk1 as [? ?]. apply record_key_Some in Hk2 as [? ?].
    exists i, j, r1, r2, v, sg. done.
Qed.

(** One pass of the second loop on a pair that is not in the table. *)
Lemma record_value_entry modality_count record info key segment :
  record_key record = Some key -> entry info key = None ->
  segment_of_record modality_count record = Ok segment ->
  exists info',
    record_value modality_count record info = Ok info'
    /\ forall k, entry info' k
                 = if decide (k = key) then Some segment else entry info k.
Proof.
  destruct key as [v sg]. intros [Hv Hsg]%record_key_Some Hnew Hseg.
  unfold record_value, Py.index. rewrite Hv, Hsg. cbn [of_option res_bind].
  set (info1 := if decide (is_Some (info !! v)) then info
                else <[v := ∅]> info).
  set (video := default ∅ (info !! v)).
  assert (Hvid : info1 !! v = Some video).
  { subst info1 video. destruct (decide _) as [[x Hx]|Hn].
    - by rewrite Hx.
    - rewrite lookup_insert_eq. apply eq_None_not_Some in Hn. by rewrite Hn. }
  assert (Hother : forall v', v' <> v -> info1 !! v' = info !! v').
  { intros v' Hne. subst info1. destruct (decide _); [done|].
    by apply lookup_insert_ne. }
  assert (Hvideo : forall sg', video !! sg' = entry info (v, sg')).
  { intros sg'. subst video. unfold entry. simpl.
    destruct (info !! v); [done | apply lookup_empty]. }
  unfold getitem. rewrite Hvid. cbn [of_option res_bind].
  destruct (decide (is_Some (video !! sg))) as [Hdup|_].
  { rewrite Hvideo, Hnew in Hdup. by destruct Hdup. }
  rewrite Hseg. cbn [res_bind]. eexists. split; [reflexivity|].
  intros [v' sg']. unfold entry at 1. simpl.
  destruct (decide (v' = v)) as [->|Hne].
  - rewrite lookup_insert_eq. simpl.
    destruct (decide (sg' = sg)) as [->|Hne'].
    + rewrite lookup_insert_eq. by rewrite decide_True.
    + rewrite lookup_insert_ne by done.
      rewrite decide_False by congruence. apply Hvideo.
  - rewrite lookup_insert_ne by done. rewrite Hother by done.
    by rewrite decide_False by congruence.
Qed.

(** The second loop on good records without a repeated pair. *)
Lemma records_value_entries modality_count records :
  Forall (good_record modality_count) records ->
  ~ duplicate_rows records ->
  forall info,
    (forall r key, r ∈ records -> record_key r = Some key ->
                   entry info key = None) ->
    exists info',
      records_value modality_count records info = Ok info'
      /\ (forall r, r ∈ records ->
            exists key segment,
              record_key r = Some key
              /\ segment_of_record modality_count r = Ok segment
              /\ entry info' key = Some segment)
      /\ (forall k, (forall r, r ∈ records -> record_key r <> Some k) ->
                    entry info' k = entry info k).
Proof.
  induction 1 as [|r rest Hr Hgood IH]; intros Hnd info Hnew; simpl.
  - exists info. split; [done|]. split; [|done].
    intros r Hr. by apply elem_of_nil in Hr.
  - assert (Hlen : (4 <= length r)%nat) by apply Hr.
    destruct (lookup_lt_is_Some_2 r 0 ltac:(lia)) as [v Hv].
    destruct (lookup_lt_is_Some_2 r 1 ltac:(lia)) as [sg Hsg].
    assert (Hkey : record_key r = Some (v, sg)) by (by apply record_key_Some).
    pose proof (segment_of_record_ok modality_count r Hr) as Hok.
    destruct (segment_of_record modality_count r) as [segment|] eqn:Hseg;
      [|done].
    destruct (record_value_entry modality_count r info (v, sg) segment
                Hkey) as (info1 & -> & Hent); [|done|].
    { eapply Hnew; [apply list_elem_of_here | done]. }
    cbn [res_bind].
    assert (Hfresh : forall r', r' ∈ rest -> record_key r' <> Some (v, sg)).
    { intros r' [j Hj]%list_elem_of_lookup Hk. apply Hnd.
      apply duplicate_rows_keys. exists 0%nat, (S j), r, r', (v, sg).
      split; [lia|]. done. }
    destruct (IH) with (info := info1) as (info' & Hrun & Hin & Hout).
    { intros Hdup. apply Hnd. apply duplicate_rows_keys.
      apply duplicate_rows_keys in Hdup
        as (i & j & r1 & r2 & key & Hij & Hi & Hj & Hk1 & Hk2).
      exists (S i), (S j), r1, r2, key. split; [lia|]. done. }
    { intros r' key Hr' Hk. rewrite Hent.
      rewrite decide_False; [|intros ->; by eapply Hfresh].
      eapply Hnew; [|done]. by apply list_elem_of_further. }
    exists info'. split; [done|]. split.
    + intros r' [->|Hr']%elem_of_cons; [|by apply Hin].
      exists (v, sg), segment. split; [done|]. split; [done|].
      rewrite Hout by done. rewrite Hent. by rewrite decide_True.
    + intros k Hk. rewrite Hout.
      * rewrite Hent. rewrite decide_False; [done|].
        intros ->. eapply Hk; [apply list_elem_of_here | done].
      * intros r' Hr'. apply Hk. by apply list_elem_of_further.
Qed.

End TableFacts.

Section ManifestTables.
Context {num : Type} {arith : Arith num} {ext : external num}.
Local Abbreviation entry := (entry (num := num)).

Lemma modalities_value_ok data row0 row1 indices :
  data !! 0%nat = Some row0 -> data !! 1%nat = Some row1 ->
  Forall (fun i => (i + 4 < length row0)%nat /\ (i + 4 < length row1)%nat)
    indices ->
  forall mods, is_ok (modalities_value data indices mods) = true.
Proof.
  intros H0 H1. induction 1 as [|i rest [Hi0 Hi1] _ IH]; intros mods; simpl;
    [reflexivity|].
  unfold Py.index. rewrite H1, H0. cbn [of_option res_bind].
  destruct (lookup_lt_is_Some_2 row1 (i + 4) Hi1) as [c1 ->].
  destruct (lookup_lt_is_Some_2 row0 (i + 4) Hi0) as [c0 ->].
  cbn [of_option res_bind]. apply IH.
Qed.

Lemma validate_file_tables (s : state num) path data row0 info mods :
  dataset_csv (self s) = Some path -> read_csv path = Ok data ->
  data !! 0%nat = Some row0 ->
  modalities_value data (seq 0 (length row0 - 4)) ∅ = Ok mods ->
  records_value (length row0 - 4) (drop 2 data) ∅ = Ok info ->
  (validate_file s).2 = Ok tt
  /\ dataset_info (self (validate_file s).1) = Some info
  /\ modalities (self (validate_file s).1) = Some mods.
Proof.
  intros Hcsv Hread H0 Hm Hi.
  destruct (validate_file_value s path data Hcsv Hread) as [Hv Ht].
  assert (Hman : manifest_value data = Ok (info, mods)).
  { unfold manifest_value, Py.index. rewrite H0. cbn [of_option res_bind].
    rewrite Hm. cbn [res_bind]. by rewrite Hi. }
  rewrite Hman in Hv. split; [done|]. by apply Ht.
Qed.

(** X17. When [validate_file] returns, [self.modalities] has exactly the
    keys [modality_0], [modality_1], ... for the columns of the manifest
    after the fourth: the type of a modality is the cell of its column in
    the first row, and its level the cell in the second row. *)
Theorem validate_file_modalities (s : state num) (path : string)
    (data : list (list string)) (row0 row1 : list string) :
  dataset_csv (self s) = Some path -> read_csv path = Ok data ->
  data !! 0%nat = Some row0 -> data !! 1%nat = Some row1 ->
  (validate_file s).2 = Ok tt ->
  exists mods,
    modalities (self (validate_file s).1) = Some mods
    /\ (forall i : nat, (i + 4 < length row0)%nat ->
          exists level type,
            row1 !! (i + 4)%nat = Some level
            /\ row0 !! (i + 4)%nat = Some type
            /\ mods !! modality_key i
               = Some {| info_level := level; info_type := type |})
    /\ (forall key, is_Some (mods !! key) ->
          exists i : nat, (i + 4 < length row0)%nat /\ key = modality_key i).
Proof.
  intros Hcsv Hread H0 H1 Hok.
  destruct (validate_file_value s path data Hcsv Hread) as [Hv Ht].
  rewrite Hok in Hv.
  destruct (manifest_value data) as [[info mods]|] eqn:Hman; [|done].
  destruct (Ht info mods eq_refl) as [_ Hmods].
  exists mods. split; [done|].
  unfold manifest_value, Py.index in Hman. rewrite H0 in Hman.
  cbn [of_option res_bind] in Hman.
  apply res_bind_ok_inv in Hman as (mods' & Hm & Hman).
  apply res_bind_ok_inv in Hman as (info' & _ & [= _ ->]).
  destruct (modalities_value_lookup data row0 row1 (seq 0 (length row0 - 4))
              H0 H1 (NoDup_seq _ _) ∅ mods Hm) as [Hin Hout].
  split.
  - intros i Hi. apply Hin. apply elem_of_seq. lia.
  - intros key Hkey.
    destruct (decide (Exists (fun i => key = modality_key i)
                        (seq 0 (length row0 - 4)))) as [Hex|Hno].
    + apply Exists_exists in Hex as (i & Hi%elem_of_seq & ->).
      exists i. split; [lia | done].
    + rewrite Hout, lookup_empty in Hkey; [by destruct Hkey|].
      intros i Hi ->. apply Hno. apply Exists_exists. eauto.
Qed.

(** X18. A well-formed manifest without two rows for one (video, segment)
    is accepted: [validate_file] returns, and [self.dataset_info] has one
    entry for the pair of each record, and no other: the start and the end
    of the record, and for each modality key the cell of its column. With
    C6, the manifests that are refused are those with a repeated pair. *)
Theorem validate_file_accepts (s : state num) (path : string)
    (data : list (list string)) (row0 : list string) :
  dataset_csv (self s) = Some path -> read_csv path = Ok data ->
  data !! 0%nat = Some row0 ->
  well_formed data -> ~ duplicate_rows (drop 2 data) ->
  (validate_file s).2 = Ok tt
  /\ exists info,
       dataset_info (self (validate_file s).1) = Some info
       /\ (forall record, record ∈ drop 2 data ->
             exists key segment,
               record_key record = Some key
               /\ segment_of_record (length row0 - 4) record = Ok segment
               /\ entry info key = Some segment
               /\ forall i : nat, (i + 4 < length row0)%nat ->
                    seg_files segment !! modality_key i
                    = record !! (i + 4)%nat)
       /\ (forall key, is_Some (entry info key) ->
             exists record,
               record ∈ drop 2 data /\ record_key record = Some key).
Proof.
  intros Hcsv Hread H0 (w & Hw & Hlen & Hrect & Hrec) Hnd.
  destruct (lookup_lt_is_Some_2 data 1 ltac:(lia)) as [row1 H1].
  assert (Hr0 : length row0 = w).
  { rewrite Forall_forall in Hrect. apply Hrect. by eapply list_elem_of_lookup_2. }
  assert (Hr1 : length row1 = w).
  { rewrite Forall_forall in Hrect. apply Hrect. by eapply list_elem_of_lookup_2. }
  pose proof (modalities_value_ok data row0 row1 (seq 0 (length row0 - 4))
                H0 H1) as Hmok.
  destruct (modalities_value data (seq 0 (length row0 - 4)) ∅) as [mods|]
    eqn:Hm.
  2:{ exfalso. specialize (Hmok ltac:(apply Forall_forall;
                                      intros i Hi%elem_of_seq; lia) ∅).
      by rewrite Hm in Hmok. }
  assert (Hgood : Forall (good_record (length row0 - 4)) (drop 2 data)).
  { rewrite Forall_forall in Hrect, Hrec |- *. intros r Hr.
    assert (Hrw : length r = w).
    { apply list_elem_of_lookup in Hr as [k Hk]. rewrite lookup_drop in Hk.
      apply Hrect. by eapply list_elem_of_lookup_2. }
    split; [lia|]. split; [lia|]. by apply Hrec. }
  destruct (records_value_entries (length row0 - 4) (drop 2 data) Hgood Hnd ∅)
    as (info & Hrun & Hin & Hout).
  { intros r key _ _. unfold entry. by rewrite lookup_empty. }
  destruct (validate_file_tables s path data row0 info mods
              Hcsv Hread H0 Hm Hrun) as (Hv & Hinfo & _).
  split; [done|]. exists info. split; [done|]. split.
  - intros record Hr. destruct (Hin record Hr) as (key & segment & Hk & Hs & He).
    exists key, segment. do 3 (split; [done|]).
    intros i Hi. unfold segment_of_record in Hs.
    apply res_bind_ok_inv in Hs as (c2 & _ & Hs).
    apply res_bind_ok_inv in Hs as (start & _ & Hs).
    apply res_bind_ok_inv in Hs as (c3 & _ & Hs).
    apply res_bind_ok_inv in Hs as (end_ & _ & Hs).
    apply res_bind_ok_inv in Hs as (files & Hf & [= <-]). simpl.
    destruct (read_files_lookup record (seq 0 (length row0 - 4))
                (NoDup_seq _ _) ∅ files Hf) as [Hfin _].
    apply Hfin. apply elem_of_seq. lia.
  - intros key Hkey.
    destruct (decide (Exists (fun r => record_key r = Some key)
                        (drop 2 data))) as [Hex|Hno].
    + apply Exists_exists in Hex as (r & Hr & Hk). eauto.
    + rewrite Hout in Hkey.
      * unfold entry in Hkey. rewrite lookup_empty in Hkey. by destruct Hkey.
      * intros r Hr Hk. apply Hno. apply Exists_exists. eauto.
Qed.

End ManifestTables.

(** ** Loading again *)

Section Config.
Context {num : Type} {arith : Arith num} {ext : external num}.
Local Abbreviation keeps_config := (keeps_config (num := num)).

Lemma keeps_config_ret {A} (a : A) : keeps_config (ret a : M (state num) A).
Proof. by intros s. Qed.
Lemma keeps_config_raise {A} e : keeps_config (raise e : M (state num) A).
Proof. by intros s. Qed.
Lemma keeps_config_lift {A} (r : result A) :
  keeps_config (lift r : M (state num) A).
Proof. by intros s. Qed.
Lemma keeps_config_print o : keeps_config (print (num := num) o).
Proof. by intros s. Qed.
Lemma keeps_config_record_call c : keeps_config (record_call (num := num) c).
Proof. by intros s. Qed.
Lemma keeps_config_update_self (f : Dataset num -> Dataset num) :
  (forall d, timestamps (f d) = timestamps d /\ stored (f d) = stored d
             /\ dataset_file (f d) = dataset_file d) ->
  keeps_config (update_self f).
Proof. intros Hf s. apply Hf. Qed.
Lemma keeps_config_bind {A B} (m : M (state num) A) (k : A -> M (state num) B) :
  keeps_config m -> (forall a, keeps_config (k a)) -> keeps_config (bind m k).
Proof.
  intros Hm Hk s. unfold bind. specialize (Hm s).
  destruct (m s) as [s' [a|e]]; simpl in *; [|done].
  destruct (Hk a s') as (H1 & H2 & H3). destruct Hm as (H4 & H5 & H6).
  repeat split; congruence.
Qed.
Lemma keeps_config_get {B} (k : state num -> M (state num) B) :
  (forall s0, keeps_config (k s0)) -> keeps_config (bind get k).
Proof. intros Hk s. unfold bind, get. apply Hk. Qed.

Lemma keeps_config_bind_lift {A B} (r : result A) (k : A -> M (state num) B) :
  (forall a, r = Ok a -> keeps_config (k a)) -> keeps_config (bind (lift r) k).
Proof.
  intros Hk s. unfold bind, lift. destruct r as [a|e]; [by apply Hk | done].
Qed.

Lemma keeps_config_for_items {V W} (items : list (string * V))
    (body : string -> V -> M (state num) W) :
  (forall k v, keeps_config (body k v)) ->
  forall out, keeps_config (for_items items body out).
Proof.
  intros Hb. induction items as [|[k v] rest IH]; intros out; simpl.
  - apply keeps_config_ret.
  - apply keeps_config_bind; auto.
Qed.

Ltac keeps_config_step :=
  lazymatch goal with
  | |- keeps_config (bind get _) => apply keeps_config_get; intros ?
  | |- keeps_config (bind _ _) => apply keeps_config_bind; [|intros ?]
  | |- keeps_config (ret _) => apply keeps_config_ret
  | |- keeps_config (raise _) => apply keeps_config_raise
  | |- keeps_config (lift _) => apply keeps_config_lift
  | |- keeps_config (print _) => apply keeps_config_print
  | |- keeps_config (record_call _) => apply keeps_config_record_call
  | |- keeps_config (update_self _) =>
      apply keeps_config_update_self; by intros ?
  | |- keeps_config (if _ then _ else _) => destruct (decide _)
  end.
Ltac keeps_config := repeat keeps_config_step.

Lemma keeps_config_read_modalities data indices :
  keeps_config (read_modalities (num := num) data indices).
Proof.
  induction indices as [|i rest IH]; simpl; [apply keeps_config_ret|].
  unfold the_modalities. keeps_config. exact IH.
Qed.

Lemma keeps_config_read_records modality_count records :
  keeps_config (read_records modality_count records).
Proof.
  induction records as [|r rest IH]; simpl; [apply keeps_config_ret|].
  apply keeps_config_bind; [|intros _; exact IH].
  unfold read_record, the_dataset_info. keeps_config.
Qed.

Lemma keeps_config_validate_file : keeps_config validate_file.
Proof.
  unfold validate_file. keeps_config;
    [apply keeps_config_read_modalities | apply keeps_config_read_records].
Qed.

Lemma keeps_config_loader api method filepath (start end_ : num)
    timestamps level :
  loader_method api = Ok method ->
  keeps_config (method filepath start end_ timestamps level).
Proof.
  unfold loader_method.
  repeat (destruct (String.eqb api _);
          [intros [= <-];
           first [ unfold load_opensmile;
                   destruct (_ || _); keeps_config
                 | unfold pure_loader; apply keeps_config_lift ]|]).
  discriminate.
Qed.

Lemma keeps_config_load_features (order : iteration) :
  keeps_config load_features.
Proof.
  unfold load_features, the_dataset_info, the_modalities. keeps_config.
  apply keeps_config_for_items. intros key value.
  apply keeps_config_bind_lift. intros method Hm. keeps_config.
  apply keeps_config_for_items. intros video_id video_data.
  apply keeps_config_for_items. intros segment_id segment.
  keeps_config. by eapply keeps_config_loader.
Qed.

Lemma keeps_config_load (order : iteration) : keeps_config load.
Proof.
  unfold load, controller. apply keeps_config_get. intros s0.
  destruct (stored (self s0)); keeps_config;
    [apply keeps_config_validate_file | apply keeps_config_load_features].
Qed.

Lemma load_value_eq (order : iteration) (s : state num) :
  (load s).2 = load_value (self s).
Proof.
  unfold load_value. destruct (stored (self s)) eqn:Hst.
  - rewrite (load_stored order s Hst).
    by destruct (pickle_load (dataset_file (self s))).
  - unfold load. rewrite bind_run. unfold get at 1. rewrite Hst.
    rewrite bind_run. unfold update_self at 1, modify at 1.
    set (s1 := {| self := with_dataset_csv _ _; stdout := _;
                  loader_calls := _; warning_hist := _ |}).
    rewrite bind_run. unfold controller. rewrite bind_run.
    destruct (read_csv (dataset_file (self s))) as [data|e] eqn:Hread.
    + cbn [res_bind].
      destruct (validate_file_value s1 (dataset_file (self s)) data
                  eq_refl Hread) as [Hv Ht].
      destruct (keeps_config_validate_file s1) as (Hts & _ & _).
      destruct (validate_file s1) as [s2 [[]|e]]; simpl in Hv, Ht, Hts.
      * destruct (manifest_value data) as [[info mods]|]; [|done].
        destruct (Ht info mods eq_refl) as [Hi Hm]. cbn [res_bind fst snd].
        pose proof (load_features_value order s2) as Hf.
        rewrite Hi, Hm, Hts in Hf. cbn [of_option res_bind] in Hf.
        rewrite <- Hf.
        by destruct (load_features s2) as [s3 [fd|e]].
      * destruct (manifest_value data) as [[info mods]|]; [done|].
        simpl in *. by injection Hv as ->.
    + simpl. unfold validate_file. rewrite bind_run. unfold get at 1.
      rewrite bind_run. unfold lift at 1. simpl.
      rewrite bind_run. unfold lift at 1. by rewrite Hread.
Qed.

(** X19. [load] can be run again: what it returns depends on the file, the
    [stored] flag and the timestamp mode that the object was made with, and
    on nothing that an earlier [load] or [align] left in it. The tables of
    the manifest are built from empty ones each time, so that the records
    of the first run are not repeated pairs for the second. *)
Theorem load_is_repeatable (order : iteration) (s : state num) :
  (load (load s).1).2 = (load s).2
  /\ forall s' : state num,
       timestamps (self s') = timestamps (self s) ->
       stored (self s') = stored (self s) ->
       dataset_file (self s') = dataset_file (self s) ->
       (load s').2 = (load s).2.
Proof.
  assert (Hsame : forall s' : state num,
             timestamps (self s') = timestamps (self s) ->
             stored (self s') = stored (self s) ->
             dataset_file (self s') = dataset_file (self s) ->
             (load s').2 = (load s).2).
  { intros s' Ht Hs Hf. rewrite !load_value_eq. unfold load_value.
    by rewrite Ht, Hs, Hf. }
  split; [|done].
  destruct (keeps_config_load order s) as (Ht & Hs & Hf). by apply Hsame.
Qed.

End Config.

(** ** From [load] to [align] *)

Section Ready.
Context {num : Type} {arith : Arith num} {ext : external num}.
Local Abbreviation keeps_self := (keeps_self (num := num)).
Local Abbreviation entry := (entry (num := num)).

Lemma keeps_self_record_call c : keeps_self (record_call (num := num) c).
Proof. by intros s. Qed.

Lemma keeps_self_bind_lift {A B} (r : result A) (k : A -> M (state num) B) :
  (forall a, r = Ok a -> keeps_self (k a)) -> keeps_self (bind (lift r) k).
Proof.
  intros Hk s. unfold bind, lift. destruct r as [a|e]; [by apply Hk | done].
Qed.

Lemma keeps_self_loader api method filepath (start end_ : num)
    timestamps level :
  loader_method api = Ok method ->
  keeps_self (method filepath start end_ timestamps level).
Proof.
  unfold loader_method.
  repeat (destruct (String.eqb api _);
          [intros [= <-];
           first [ unfold pure_loader; apply keeps_self_lift
                 | unfold load_opensmile; destruct (_ || _);
                   repeat (first [ apply keeps_self_bind; [|intros ?]
                                 | apply keeps_self_lift
                                 | apply keeps_self_ret
                                 | apply keeps_self_print ]) ]|]).
  discriminate.
Qed.

Lemma keeps_self_load_features (order : iteration) : keeps_self load_features.
Proof.
  unfold load_features, the_dataset_info, the_modalities.
  apply keeps_self_bind; [|intros data].
  { apply keeps_self_get. intros s0. apply keeps_self_lift. }
  apply keeps_self_bind; [|intros mods].
  { apply keeps_self_get. intros s0. apply keeps_self_lift. }
  apply keeps_self_get. intros s0.
  apply keeps_self_for_items. intros key value.
  apply keeps_self_bind_lift. intros method Hm.
  apply keeps_self_bind; [apply keeps_self_print | intros _].
  apply keeps_self_for_items. intros video_id video_data.
  apply keeps_self_for_items. intros segment_id segment.
  apply keeps_self_bind; [apply keeps_self_lift | intros filepath].
  apply keeps_self_bind; [apply keeps_self_record_call | intros _].
  by eapply keeps_self_loader.
Qed.

Lemma loaded_from_entries (data : gmap string (gmap string (segment_data num)))
    mods timestamps fd key mfd video_id segment_id :
  loaded_from data mods timestamps fd ->
  fd !! key = Some mfd ->
  is_Some (mfd !! video_id ≫= fun vf => vf !! segment_id)
  <-> is_Some (entry data (video_id, segment_id)).
Proof.
  intros Hl Hk. specialize (Hl key). rewrite Hk in Hl.
  inversion Hl as [value ? Hv|]; subst. specialize (Hv video_id).
  unfold entry. simpl.
  destruct Hv as [video_data vf Hs|]; simpl; [|done].
  specialize (Hs segment_id). destruct Hs; split; intros [? ?]; eauto; done.
Qed.

Lemma load_features_loaded (order : iteration) (s : state num)
    (fd : gmap string (gmap string (gmap string (pyfeats num)))) :
  (load_features s).2 = Ok fd ->
  exists data mods,
    dataset_info (self s) = Some data /\ modalities (self s) = Some mods
    /\ loaded_from data mods (timestamps (self s)) fd.
Proof.
  rewrite load_features_value.
  destruct (dataset_info (self s)) as [data|]; [simpl|done].
  destruct (modalities (self s)) as [mods|]; [simpl|done].
  intros Hv. exists data, mods. split; [done|]. split; [done|].
  by apply (features_value_loaded order).
Qed.

(** X20. A [load] from a manifest that returns leaves the object ready
    for [align]: [self.modalities] and [self.feature_dict] are set and
    have the same keys, and the modalities all have the same videos and
    segments: a (video, segment) of one modality, the pivot say, is a key
    of every other one. *)
Theorem load_makes_ready (order : iteration) (s : state num)
    (fd : gmap string (gmap string (gmap string (pyfeats num)))) :
  stored (self s) = false ->
  (load s).2 = Ok fd ->
  exists mods,
    modalities (self (load s).1) = Some mods
    /\ feature_dict (self (load s).1) = Some fd
    /\ (forall m, is_Some (fd !! m) <-> is_Some (mods !! m))
    /\ forall m1 m2 mfd1 mfd2 video_id segment_id,
         fd !! m1 = Some mfd1 -> fd !! m2 = Some mfd2 ->
         is_Some (mfd1 !! video_id ≫= fun vf => vf !! segment_id) ->
         is_Some (mfd2 !! video_id ≫= fun vf => vf !! segment_id).
Proof.
  intros Hst. destruct (load s) as [s' r] eqn:Hrun. simpl. intros ->.
  unfold load in Hrun. rewrite bind_run in Hrun. unfold get at 1 in Hrun.
  rewrite Hst in Hrun.
  rewrite bind_run in Hrun. unfold update_self at 1, modify at 1 in Hrun.
  set (s1 := {| self := with_dataset_csv _ _; stdout := _;
                loader_calls := _; warning_hist := _ |}) in Hrun.
  rewrite bind_run in Hrun. unfold controller in Hrun.
  rewrite bind_run in Hrun.
  destruct (validate_file s1) as [s2 [[]|e]]; [|discriminate].
  pose proof (keeps_self_load_features order s2) as Hself.
  pose proof (load_features_loaded order s2 fd) as Hshape.
  destruct (load_features s2) as [s3 [fd'|e]]; [|discriminate].
  simpl in Hself, Hshape.
  unfold bind, update_self, modify, ret in Hrun. injection Hrun as <- <-.
  destruct (Hshape eq_refl) as (data & mods & Hd & Hm & Hl).
  exists mods. simpl. rewrite Hself. split; [done|]. split; [done|]. split.
  - intros m. specialize (Hl m).
    destruct Hl; split; intros [? ?]; eauto; done.
  - intros m1 m2 mfd1 mfd2 v sg H1 H2.
    rewrite (loaded_from_entries data mods _ fd' m1 mfd1 v sg Hl H1).
    by rewrite (loaded_from_entries data mods _ fd' m2 mfd2 v sg Hl H2).
Qed.

End Ready.

Lemma validate_file_modalities_witness :
  exists mods,
    modalities (self (validate_file (ext := gap_files) (fresh "absolute")).1)
    = Some mods
    /\ (forall i : nat,
          (i + 4 < length ["video"; "segment"; "start"; "end";
                           "words"; "words"])%nat ->
          exists level type,
            ["video"; "segment"; "start"; "end"; "s"; "s"] !! (i + 4)%nat
            = Some level
            /\ ["video"; "segment"; "start"; "end"; "words"; "words"]
               !! (i + 4)%nat = Some type
            /\ mods !! modality_key i
               = Some {| info_level := level; info_type := type |})
    /\ (forall key, is_Some (mods !! key) ->
          exists i : nat,
            (i + 4 < length ["video"; "segment"; "start"; "end";
                             "words"; "words"])%nat
            /\ key = modality_key i).
Proof.
  apply (validate_file_modalities (ext := gap_files) (fresh "absolute")
           "manifest.csv" gap_manifest).
  - reflexivity.
  - reflexivity.
  - reflexivity.
  - reflexivity.
  - vm_compute. reflexivity.
Defined.

Lemma gap_manifest_well_formed :
  well_formed (ext := gap_files) gap_manifest
  /\ ~ duplicate_rows (drop 2 gap_manifest).
Proof.
  split.
  - exists 6%nat. split; [lia|]. split; [simpl; lia|]. split.
    + repeat (apply Forall_cons; split; [reflexivity|]). by apply Forall_nil.
    + simpl. repeat (apply Forall_cons; split;
                     [eexists _, _; repeat split; reflexivity|]).
      by apply Forall_nil.
  - intros (i & j & r1 & r2 & v & sg & Hij & Hi & Hj & _ & H11 & _ & H21).
    destruct i as [|[|i]], j as [|[|j]]; simpl in *; try lia; try discriminate.
    injection Hi as <-. injection Hj as <-. simpl in *. congruence.
Qed.

Lemma validate_file_accepts_witness :
  (validate_file (ext := gap_files) (fresh "absolute")).2 = Ok tt
  /\ exists info,
       dataset_info
         (self (validate_file (ext := gap_files) (fresh "absolute")).1)
       = Some info
       /\ (forall record, record ∈ drop 2 gap_manifest ->
             exists key segment,
               record_key record = Some key
               /\ segment_of_record (ext := gap_files)
                    (length ["video"; "segment"; "start"; "end";
                             "words"; "words"] - 4) record = Ok segment
               /\ entry info key = Some segment
               /\ forall i : nat,
                    (i + 4 < length ["video"; "segment"; "start"; "end";
                                     "words"; "words"])%nat ->
                    seg_files segment !! modality_key i
                    = record !! (i + 4)%nat)
       /\ (forall key, is_Some (entry info key) ->
             exists record,
               record ∈ drop 2 gap_manifest /\ record_key record = Some key).
Proof.
  apply (validate_file_accepts (ext := gap_files) (fresh "absolute")
           "manifest.csv" gap_manifest).
  - reflexivity.
  - reflexivity.
  - reflexivity.
  - apply gap_manifest_well_formed.
  - apply gap_manifest_well_formed.
Defined.

Lemma load_makes_ready_witness :
  exists mods,
    modalities
      (self (load (ext := gap_files)
               (initial (init "manifest.csv" false "relative"))).1)
    = Some mods
    /\ feature_dict
         (self (load (ext := gap_files)
                  (initial (init "manifest.csv" false "relative"))).1)
       = Some gap_features
    /\ (forall m, is_Some (gap_features !! m) <-> is_Some (mods !! m))
    /\ forall m1 m2 mfd1 mfd2 video_id segment_id,
         gap_features !! m1 = Some mfd1 -> gap_features !! m2 = Some mfd2 ->
         is_Some (mfd1 !! video_id ≫= fun vf => vf !! segment_id) ->
         is_Some (mfd2 !! video_id ≫= fun vf => vf !! segment_id).
Proof.
  apply (load_makes_ready (ext := gap_files) key_order
           (initial (init "manifest.csv" false "relative")) gap_features).
  - reflexivity.
  - vm_compute. reflexivity.
Defined.
